(** * Digital drop receiver (svxlink, src/svxlink/trx/Ddr.cpp)

    A shallow embedding of the per-channel DSP pipeline of [Ddr.cpp]
    (FIR decimators, decimator cascades, frequency translator, channelizers,
    FM and AM demodulators, the channel wiring) and of the DDR registry with
    its tuner binding, followed by the properties established about them.

    Conventions.
    - C++ [int] and [unsigned] values are integers in [Z]; conversions between
      them are written out ([to_int], [to_unsigned], [size_t_of]).
    - [std::vector] is a list, [push_back x] appends [[x]] at the end.
    - An [assert] that fails, and an operation without defined behaviour, end
      the run: effectful operations return a [result].
    - A [double] is the rational number it stands for; arithmetic on doubles
      rounds to 53 significant bits ([round64]).
    - 32-bit and 64-bit floating point values, and the library functions on
      them ([atan2], [exp], [abs], [log10], [pow]), are taken through the
      interface [Arith]; every statement holds for every implementation of
      that interface. *)

From Stdlib Require Import ZArith QArith Qabs Qpower Lia.
From stdpp Require Import base tactics option list numbers functions strings gmap fin_maps.
From Equations Require Import Equations.

Local Open Scope Z_scope.

(** ** Machine integers *)

Definition INT_MAX : Z := 2147483647.
Definition INT_MIN : Z := -2147483648.

(** Conversion of an integer value to [unsigned] (32 bits). *)
Definition to_unsigned (z : Z) : Z := z mod 2 ^ 32.

(** Conversion of an integer value to [int] (32 bits, two's complement). *)
Definition to_int (z : Z) : Z := (z + 2 ^ 31) mod 2 ^ 32 - 2 ^ 31.

(** Conversion of an [int] to [size_t] (64 bits). *)
Definition size_t_of (z : Z) : Z := z mod 2 ^ 64.

(** ** Runs that may stop *)

Inductive abort : Set :=
| AssertBatchLen   (* assert(in.size() % dec_fact == 0) *)
| AssertTaps       (* assert(taps >= dec_fact) *)
| AssertSrc        (* assert(src != in.end()) *)
| AssertNumOut     (* assert(num_out == orig_count / dec_fact) *)
| Undefined        (* no defined behaviour: division by zero, null pointer,
                      conversion out of range *)
| LoopBound.       (* the bound given to a loop of the model was too small *)

Inductive result (A : Type) : Type :=
| Ok (a : A)
| Abort (e : abort).
Arguments Ok {A} a.
Arguments Abort {A} e.

#[global] Instance result_ret : MRet result := fun A a => Ok a.
#[global] Instance result_bind : MBind result := fun A B f m =>
  match m with
  | Ok a => f a
  | Abort e => Abort e
  end.

Definition assert (b : bool) (e : abort) : result unit :=
  if b then Ok tt else Abort e.

(** ** Floating point interface *)

Class Arith : Type := {
  float : Type;                       (* float *)
  double : Type;                      (* double *)
  f_zero : float;                     (* 0.0f *)
  f_one : float;                      (* 1.0f *)
  f_add : float -> float -> float;
  f_sub : float -> float -> float;
  f_mul : float -> float -> float;
  f_of_int : Z -> float;              (* int -> float *)
  f_to_int : float -> result Z;       (* float -> int *)
  f2d : float -> double;              (* float -> double *)
  d2f : double -> float;              (* double -> float *)
  d_of_Z : Z -> double;               (* integer value or literal -> double *)
  d_pi : double;                      (* M_PI *)
  d_mul : double -> double -> double;
  d_div : double -> double -> double;
  d_log10 : double -> double;
  d_pow : double -> double -> double;
  atan2 : float -> float -> double;   (* atan2 on two floats, as a double *)
}.

(** [std::complex<float>], the type [WbRxRtlSdr::Sample]. *)
Record complex `{Arith} : Type := Complex { real : float; imag : float }.
Arguments Complex {_} real imag.

(** Library operations on [complex<float>]. *)
Class ComplexArith `{Arith} : Type := {
  c_add : complex -> complex -> complex;      (* a += b *)
  c_scale : float -> complex -> complex;      (* float * complex *)
  c_mul : complex -> complex -> complex;      (* complex * complex *)
  c_div_f : complex -> float -> complex;      (* complex / float *)
  c_abs : complex -> float;                   (* abs(complex) *)
  c_exp : complex -> complex;                 (* exp(complex) *)
}.

(** The operations [Decimator<T>] needs of its sample type [T]:
    [T(0)], [+=] and [float * T]. *)
Class Sample `{Arith} (T : Type) : Type := {
  s_zero : T;
  s_add : T -> T -> T;
  s_scale : float -> T -> T;
}.

#[global] Instance float_sample `{Arith} : Sample float :=
  {| s_zero := f_zero; s_add := f_add; s_scale := f_mul |}.

#[global] Instance complex_sample `{Arith} `{!ComplexArith} : Sample complex :=
  {| s_zero := Complex f_zero f_zero; s_add := c_add; s_scale := c_scale |}.

(** ** Decimator<T> *)

Section Decimator.
Context `{Arith} {T : Type} `{!Sample T}.

Record Decimator : Type := mkDecimator {
  dec_fact : Z;
  p_Z : list T;
  taps : Z;
  set_coeff : list float;
  coeff : list float;
}.

(** [Decimator(void)] *)
Definition Decimator_default : Decimator :=
  {| dec_fact := 0; p_Z := []; taps := 0; set_coeff := []; coeff := [] |}.

Definition decFact (d : Decimator) : Z := dec_fact d.

(** [setDecimatorParams(dec_fact, coeff, taps)]; [table] is the array
    [coeff] points to. *)
Definition setDecimatorParams (d : Decimator) (dec_fact' : Z)
    (table : list float) (taps' : Z) : Decimator :=
  let sc := take (Z.to_nat taps') table in
  {| dec_fact := dec_fact';
     p_Z := replicate (Z.to_nat taps') s_zero;
     taps := taps';
     set_coeff := sc;
     coeff := sc |}.

(** [Decimator(dec_fact, coeff, taps)] *)
Definition Decimator_new (dec_fact' : Z) (table : list float) (taps' : Z)
    : Decimator :=
  setDecimatorParams
    {| dec_fact := dec_fact'; p_Z := []; taps := taps';
       set_coeff := []; coeff := [] |}
    dec_fact' table taps'.

(** [pow(10.0, gain_adjust / 20.0)] *)
Definition gain_factor (gain_adjust : double) : double :=
  d_pow (d_of_Z 10) (d_div gain_adjust (d_of_Z 20)).

(** [*it *= pow(10.0, gain_adjust / 20.0)] on a [float] *)
Definition scale_coeff (gain_adjust : double) (c : float) : float :=
  d2f (d_mul (f2d c) (gain_factor gain_adjust)).

Definition setGain (d : Decimator) (gain_adjust : double) : Decimator :=
  {| dec_fact := dec_fact d;
     p_Z := p_Z d;
     taps := taps d;
     set_coeff := set_coeff d;
     coeff := scale_coeff gain_adjust <$> set_coeff d |}.

(** [memmove(p_Z + dec_fact, p_Z, (taps - dec_fact) * sizeof(T))]:
    the first [dec_fact] cells keep their value, cell [dec_fact + j]
    receives the old cell [j]. *)
Definition shift_delay_line (d : Decimator) : list T :=
  take (Z.to_nat (dec_fact d)) (p_Z d)
    ++ take (Z.to_nat (taps d - dec_fact d)) (p_Z d).

(** [for (int tap = dec_fact - 1; tap >= 0; tap--)
       { assert(src != in.end()); p_Z[tap] = *src++; }]
    with [n] the number of iterations left, so that [tap = n - 1]. *)
Fixpoint copy_samples (n : nat) (pZ src : list T) : result (list T * list T) :=
  match n with
  | O => Ok (pZ, src)
  | S tap =>
      match src with
      | [] => Abort AssertSrc
      | x :: src' => copy_samples tap (<[tap := x]> pZ) src'
      end
  end.

(** [T sum(0); for (int tap = 0; tap < taps; tap++)
       sum += coeff[tap] * p_Z[tap];] *)
Definition fir_sum (taps' : Z) (coeff' : list float) (pZ : list T) : T :=
  foldl (fun sum tap =>
           s_add sum (s_scale (nth tap coeff' f_zero) (nth tap pZ s_zero)))
        s_zero (seq 0 (Z.to_nat taps')).

(** The body of the [while] loop of [decimate]. *)
Definition decimate_body (d : Decimator) (src out : list T) (num_out : Z)
    : result (Decimator * list T * list T * Z) :=
  '(pZ, src') ← copy_samples (Z.to_nat (dec_fact d)) (shift_delay_line d) src;
  let sum := fir_sum (taps d) (coeff d) pZ in
  Ok ({| dec_fact := dec_fact d; p_Z := pZ; taps := taps d;
         set_coeff := set_coeff d; coeff := coeff d |},
      src', out ++ [sum], num_out + 1).

(** [while (src != in.end()) { ... }], at most [bound] iterations. *)
Fixpoint decimate_loop (bound : nat) (d : Decimator) (src out : list T)
    (num_out : Z) : result (Decimator * list T * Z) :=
  match src with
  | [] => Ok (d, out, num_out)
  | _ :: _ =>
      match bound with
      | O => Abort LoopBound
      | S bound' =>
          '(d', src', out', num_out') ← decimate_body d src out num_out;
          decimate_loop bound' d' src' out' num_out'
      end
  end.

(** [decimate(out, in)]: the new state of the decimator and the new
    contents of [out]. *)
Definition decimate (d : Decimator) (out in_ : list T)
    : result (Decimator * list T) :=
  let orig_count := to_int (Z.of_nat (length in_)) in
  let m := size_t_of (dec_fact d) in
  _ ← assert (negb (m =? 0)) Undefined;
  _ ← assert (Z.of_nat (length in_) mod m =? 0) AssertBatchLen;
  _ ← assert (dec_fact d <=? taps d) AssertTaps;
  let out := [] in                                    (* out.clear() *)
  '(d', out', num_out) ← decimate_loop (length in_) d in_ out 0;
  _ ← assert (num_out =? orig_count ÷ dec_fact d) AssertNumOut;
  Ok (d', out').

End Decimator.
Arguments Decimator {_} T.

(** ** Filter coefficient tables *)

(** Modelled from the spec: the header [DdrFilterCoeffs.h] is not part of the
    sources at hand.  The spec describes the coefficient tables as static,
    immutable named arrays of 32-bit floats, keyed by rate transition, plus
    three channel-shaping filters; each [..._cnt] constant is the number of
    entries of its table.  Nothing more is assumed about their contents. *)
Record FilterCoeffs `{Arith} : Type := {
  coeff_dec_audio_32k_16k : list float;
  coeff_dec_160k_32k : list float;
  coeff_dec_192k_32k : list float;
  coeff_dec_32k_16k : list float;
  coeff_dec_960k_192k : list float;
  coeff_dec_192k_64k : list float;
  coeff_dec_64k_32k : list float;
  coeff_dec_192k_48k : list float;
  coeff_dec_48k_16k : list float;
  coeff_dec_2400k_800k : list float;
  coeff_dec_800k_160k : list float;
  coeff_25k_channel : list float;
  coeff_12k5_channel : list float;
  coeff_ssb_channel : list float;
}.

(** The [..._cnt] constant of a table. *)
Definition cnt {A : Type} (table : list A) : Z := Z.of_nat (length table).

(** ** DecimatorMS<T> and its subclasses DecimatorMS1 .. DecimatorMS5 *)

Module DecimatorMS.
Section DecimatorMS.
Context `{Arith} {T : Type} `{!Sample T}.
(** A cascade holds references [Decimator<T> &] to decimators owned by
    someone else: [Id] names the owner's decimators, the owner's state is
    the [pool]. *)
Context {Id : Type} `{!EqDecision Id}.

Inductive t : Type :=
| DecimatorMS1 (d1 : Id)
| DecimatorMS2 (d1 d2 : Id)
| DecimatorMS3 (d1 d2 d3 : Id)
| DecimatorMS4 (d1 d2 d3 d4 : Id)
| DecimatorMS5 (d1 d2 d3 d4 d5 : Id).

Local Abbreviation pool := (Id -> Decimator T).

Definition decFact (ms : t) (p : pool) : Z :=
  match ms with
  | DecimatorMS1 d1 => decFact (p d1)
  | DecimatorMS2 d1 d2 => decFact (p d1) * decFact (p d2)
  | DecimatorMS3 d1 d2 d3 => decFact (p d1) * decFact (p d2) * decFact (p d3)
  | DecimatorMS4 d1 d2 d3 d4 =>
      decFact (p d1) * decFact (p d2) * decFact (p d3) * decFact (p d4)
  | DecimatorMS5 d1 d2 d3 d4 d5 =>
      decFact (p d1) * decFact (p d2) * decFact (p d3) *
      decFact (p d4) * decFact (p d5)
  end.

(** [d.decimate(out, in)] through the reference [d]. *)
Definition stage (p : pool) (d : Id) (out in_ : list T)
    : result (pool * list T) :=
  '(d', out') ← decimate (p d) out in_;
  Ok (<[d := d']> p, out').

Definition decimate (ms : t) (p : pool) (out in_ : list T)
    : result (pool * list T) :=
  match ms with
  | DecimatorMS1 d1 =>
      stage p d1 out in_
  | DecimatorMS2 d1 d2 =>
      '(p, dec_samp1) ← stage p d1 [] in_;
      stage p d2 out dec_samp1
  | DecimatorMS3 d1 d2 d3 =>
      '(p, dec_samp1) ← stage p d1 [] in_;
      '(p, dec_samp2) ← stage p d2 [] dec_samp1;
      stage p d3 out dec_samp2
  | DecimatorMS4 d1 d2 d3 d4 =>
      '(p, dec_samp1) ← stage p d1 [] in_;
      '(p, dec_samp2) ← stage p d2 [] dec_samp1;
      '(p, dec_samp3) ← stage p d3 [] dec_samp2;
      stage p d4 out dec_samp3
  | DecimatorMS5 d1 d2 d3 d4 d5 =>
      '(p, dec_samp1) ← stage p d1 [] in_;
      '(p, dec_samp2) ← stage p d2 [] dec_samp1;
      '(p, dec_samp3) ← stage p d3 [] dec_samp2;
      '(p, dec_samp4) ← stage p d4 [] dec_samp3;
      stage p d5 out dec_samp4
  end.

(** The stages of a cascade, in the order they run. *)
Definition stages (ms : t) : list Id :=
  match ms with
  | DecimatorMS1 d1 => [d1]
  | DecimatorMS2 d1 d2 => [d1; d2]
  | DecimatorMS3 d1 d2 d3 => [d1; d2; d3]
  | DecimatorMS4 d1 d2 d3 d4 => [d1; d2; d3; d4]
  | DecimatorMS5 d1 d2 d3 d4 d5 => [d1; d2; d3; d4; d5]
  end.

End DecimatorMS.
Arguments t : clear implicits.
End DecimatorMS.

(** ** Translate *)

Module Translate.
Section Translate.
Context `{Arith} `{!ComplexArith}.

Record t : Type := mk {
  samp_rate : Z;
  exp_lut : list complex;
  n : Z;
}.

(** [unsigned gcd(unsigned dividend, unsigned divisor)]; the remainder of
    a division by zero is not defined. *)
Equations? gcd (dividend divisor : Z) : result Z by wf (Z.to_nat divisor) lt :=
  gcd dividend divisor with Z_le_gt_dec divisor 0 := {
    | left _ => Abort Undefined
    | right _ with Z.eq_dec (dividend mod divisor) 0 := {
        | left _ => Ok divisor
        | right _ => gcd divisor (dividend mod divisor) } }.
Proof.
  pose proof (Z.mod_pos_bound dividend divisor). lia.
Qed.

(** [exp(complex<float>(0.0f, -2.0*M_PI*offset*i/samp_rate))] *)
Definition lut_entry (offset samp_rate' i : Z) : complex :=
  c_exp (Complex f_zero
           (d2f (d_div (d_mul (d_mul (d_mul (d_of_Z (-2)) d_pi)
                                     (d_of_Z offset))
                              (d_of_Z i))
                       (d_of_Z samp_rate')))).

(** [setOffset(int offset)] *)
Definition setOffset (tr : t) (offset : Z) : result t :=
  let cleared := {| samp_rate := samp_rate tr; exp_lut := []; n := 0 |} in
  if offset =? 0 then Ok cleared
  else
    (* abs(offset) has no defined value for INT_MIN *)
    _ ← assert (negb (offset =? INT_MIN)) Undefined;
    g ← gcd (samp_rate tr) (to_unsigned (Z.abs offset));
    let N := samp_rate tr / g in
    Ok {| samp_rate := samp_rate tr;
          exp_lut := lut_entry offset (samp_rate tr) <$> seqZ 0 N;
          n := 0 |}.

(** [Translate(unsigned samp_rate, float offset)] *)
Definition new (samp_rate' : Z) (offset : float) : result t :=
  offset' ← f_to_int offset;
  setOffset {| samp_rate := samp_rate'; exp_lut := []; n := 0 |} offset'.

(** The [for] loop of [iq_received]: [lut] is [exp_lut], the state is
    [(n, out)]. *)
Fixpoint translate_loop (lut : list complex) (n' : Z) (out in_ : list complex)
    : result (Z * list complex) :=
  match in_ with
  | [] => Ok (n', out)
  | x :: rest =>
      match lut !! Z.to_nat n' with
      | None => Abort Undefined
      | Some e =>
          let n1 := to_unsigned (n' + 1) in
          let n2 := if n1 =? Z.of_nat (length lut) then 0 else n1 in
          translate_loop lut n2 (out ++ [c_mul x e]) rest
      end
  end.

(** [iq_received(out, in)] *)
Definition iq_received (tr : t) (out in_ : list complex)
    : result (t * list complex) :=
  if 0 <? Z.of_nat (length (exp_lut tr)) then
    '(n', out') ← translate_loop (exp_lut tr) (n tr) [] in_;
    Ok ({| samp_rate := samp_rate tr; exp_lut := exp_lut tr; n := n' |}, out')
  else
    Ok (tr, in_).

End Translate.
End Translate.

(** ** Channelizer, Channelizer960 and Channelizer2400 *)

Inductive Bandwidth : Set := BW_WIDE | BW_20K | BW_10K | BW_6K.

Module Channelizer960.
(** The decimators the channelizer owns. *)
Inductive member : Set :=
| dec_960k_192k | dec_192k_64k | dec_64k_32k | dec_192k_48k | dec_48k_16k
| ch_filt | ch_filt_narr | ch_filt_6k.

#[global] Instance member_eq_dec : EqDecision member.
Proof. solve_decision. Defined.

Section Channelizer960.
Context `{Arith} `{!ComplexArith} (fc : FilterCoeffs).

Record t : Type := mk {
  decs : member -> Decimator complex;
  dec : option (DecimatorMS.t member);      (* DecimatorMS<...> *dec *)
}.

(** The member initializers of the constructor. *)
Definition members (m : member) : Decimator complex :=
  match m with
  | dec_960k_192k =>
      Decimator_new 5 (coeff_dec_960k_192k fc) (cnt (coeff_dec_960k_192k fc))
  | dec_192k_64k =>
      Decimator_new 3 (coeff_dec_192k_64k fc) (cnt (coeff_dec_192k_64k fc))
  | dec_64k_32k =>
      Decimator_new 2 (coeff_dec_64k_32k fc) (cnt (coeff_dec_64k_32k fc))
  | dec_192k_48k =>
      Decimator_new 4 (coeff_dec_192k_48k fc) (cnt (coeff_dec_192k_48k fc))
  | dec_48k_16k =>
      Decimator_new 3 (coeff_dec_48k_16k fc) (cnt (coeff_dec_48k_16k fc))
  | ch_filt =>
      Decimator_new 1 (coeff_25k_channel fc) (cnt (coeff_25k_channel fc))
  | ch_filt_narr =>
      Decimator_new 1 (coeff_12k5_channel fc) (cnt (coeff_12k5_channel fc))
  | ch_filt_6k =>
      Decimator_new 1 (coeff_ssb_channel fc) (cnt (coeff_ssb_channel fc))
  end.

Definition setBw (c : t) (bw : Bandwidth) : t :=
  {| decs := decs c;
     dec := Some
       match bw with
       | BW_WIDE => DecimatorMS.DecimatorMS1 dec_960k_192k
       | BW_20K =>
           DecimatorMS.DecimatorMS4 dec_960k_192k dec_192k_64k dec_64k_32k
                                    ch_filt
       | BW_10K =>
           DecimatorMS.DecimatorMS4 dec_960k_192k dec_192k_48k dec_48k_16k
                                    ch_filt_narr
       | BW_6K =>
           DecimatorMS.DecimatorMS4 dec_960k_192k dec_192k_48k dec_48k_16k
                                    ch_filt_6k
       end |}.

(** [Channelizer960(void)] *)
Definition new : t := setBw {| decs := members; dec := None |} BW_20K.

(** [dec->decFact()] *)
Definition decFact (c : t) : result Z :=
  match dec c with
  | None => Abort Undefined
  | Some ms => Ok (DecimatorMS.decFact ms (decs c))
  end.

(** [960000 / dec->decFact()], an [int], returned as [unsigned]. *)
Definition chSampRate (c : t) : result Z :=
  f ← decFact c;
  _ ← assert (negb (f =? 0)) Undefined;
  Ok (to_unsigned (960000 ÷ f)).

(** [iq_received(out, in)]; the batch emitted on [preDemod] is the returned
    [out]. *)
Definition iq_received (c : t) (out in_ : list complex)
    : result (t * list complex) :=
  match dec c with
  | None => Abort Undefined
  | Some ms =>
      '(p, out') ← DecimatorMS.decimate ms (decs c) out in_;
      Ok ({| decs := p; dec := Some ms |}, out')
  end.

End Channelizer960.
End Channelizer960.

(** A pointer member.  A constructor without an initializer for it leaves
    it without a value, and [delete] has no defined behaviour on it then. *)
Inductive pointer (A : Type) : Type :=
| Uninitialized
| Null
| Object (a : A).
Arguments Uninitialized {A}.
Arguments Null {A}.
Arguments Object {A} a.

Module Channelizer2400.
Inductive member : Set :=
| dec_2400k_800k | dec_800k_160k | dec_160k_32k | dec_32k_16k
| ch_filt | ch_filt_narr | ch_filt_6k.

#[global] Instance member_eq_dec : EqDecision member.
Proof. solve_decision. Defined.

Section Channelizer2400.
Context `{Arith} `{!ComplexArith} (fc : FilterCoeffs).

Record t : Type := mk {
  decs : member -> Decimator complex;
  dec : pointer (DecimatorMS.t member);     (* DecimatorMS<...> *dec *)
}.

Definition members (m : member) : Decimator complex :=
  match m with
  | dec_2400k_800k =>
      Decimator_new 3 (coeff_dec_2400k_800k fc) (cnt (coeff_dec_2400k_800k fc))
  | dec_800k_160k =>
      Decimator_new 5 (coeff_dec_800k_160k fc) (cnt (coeff_dec_800k_160k fc))
  | dec_160k_32k =>
      Decimator_new 5 (coeff_dec_160k_32k fc) (cnt (coeff_dec_160k_32k fc))
  | dec_32k_16k =>
      Decimator_new 2 (coeff_dec_32k_16k fc) (cnt (coeff_dec_32k_16k fc))
  | ch_filt =>
      Decimator_new 1 (coeff_25k_channel fc) (cnt (coeff_25k_channel fc))
  | ch_filt_narr =>
      Decimator_new 1 (coeff_12k5_channel fc) (cnt (coeff_12k5_channel fc))
  | ch_filt_6k =>
      Decimator_new 1 (coeff_ssb_channel fc) (cnt (coeff_ssb_channel fc))
  end.

(** The [switch] of [setBw]: the cascade created for a bandwidth. *)
Definition cascade (bw : Bandwidth) : DecimatorMS.t member :=
  match bw with
  | BW_WIDE => DecimatorMS.DecimatorMS2 dec_2400k_800k dec_800k_160k
  | BW_20K =>
      DecimatorMS.DecimatorMS4 dec_2400k_800k dec_800k_160k dec_160k_32k
                               ch_filt
  | BW_10K =>
      DecimatorMS.DecimatorMS5 dec_2400k_800k dec_800k_160k dec_160k_32k
                               dec_32k_16k ch_filt_narr
  | BW_6K =>
      DecimatorMS.DecimatorMS5 dec_2400k_800k dec_800k_160k dec_160k_32k
                               dec_32k_16k ch_filt_6k
  end.

(** [setBw(bw)]: [delete dec; dec = 0;], then the [switch]. *)
Definition setBw (c : t) (bw : Bandwidth) : result t :=
  match dec c with
  | Uninitialized => Abort Undefined
  | Null | Object _ => Ok {| decs := decs c; dec := Object (cascade bw) |}
  end.

(** [Channelizer2400(void)]: the member initializers, none of them for
    [dec], then [setBw(BW_20K)]. *)
Definition new : result t :=
  setBw {| decs := members; dec := Uninitialized |} BW_20K.

Definition decFact (c : t) : result Z :=
  match dec c with
  | Uninitialized | Null => Abort Undefined
  | Object ms => Ok (DecimatorMS.decFact ms (decs c))
  end.

(** [2400000 / dec->decFact()], an [int], returned as [unsigned]. *)
Definition chSampRate (c : t) : result Z :=
  f ← decFact c;
  _ ← assert (negb (f =? 0)) Undefined;
  Ok (to_unsigned (2400000 ÷ f)).

Definition iq_received (c : t) (out in_ : list complex)
    : result (t * list complex) :=
  match dec c with
  | Uninitialized | Null => Abort Undefined
  | Object ms =>
      '(p, out') ← DecimatorMS.decimate ms (decs c) out in_;
      Ok ({| decs := p; dec := Object ms |}, out')
  end.

End Channelizer2400.
End Channelizer2400.

(** [&v[0]], the address of the first element of a vector: an empty vector
    has no first element. *)
Definition first_element {A : Type} (v : list A) : result unit :=
  match v with
  | [] => Abort Undefined
  | _ :: _ => Ok tt
  end.

(** ** DemodulatorFm *)

Module DemodulatorFm.
Section DemodulatorFm.
Context `{Arith} `{!ComplexArith} (fc : FilterCoeffs).

Record t : Type := mk {
  iold : float;
  qold : float;
  audio_dec_wb : Decimator float;
  audio_dec : Decimator float;
  wb_mode : bool;
}.

(** [adj_db] of [setDemodParams]. *)
Definition adj_db (samp_rate : Z) (max_dev : double) : double :=
  let adj := d_div (d_of_Z samp_rate)
                   (d_mul (d_mul (d_of_Z 2) d_pi) max_dev) in
  let adj := d_div adj (d_of_Z 2) in
  d_mul (d_of_Z 20) (d_log10 adj).

(** [setDemodParams(unsigned samp_rate, double max_dev)] *)
Definition setDemodParams (d : t) (samp_rate : Z) (max_dev : double) : t :=
  let audio_dec' := setGain (audio_dec d) (adj_db samp_rate max_dev) in
  let wb_mode' := 32000 <? samp_rate in
  let audio_dec_wb' :=
    if samp_rate =? 160000 then
      setDecimatorParams (audio_dec_wb d) 5 (coeff_dec_160k_32k fc)
                         (cnt (coeff_dec_160k_32k fc))
    else if samp_rate =? 192000 then
      setDecimatorParams (audio_dec_wb d) 6 (coeff_dec_192k_32k fc)
                         (cnt (coeff_dec_192k_32k fc))
    else audio_dec_wb d in
  {| iold := iold d; qold := qold d; audio_dec_wb := audio_dec_wb';
     audio_dec := audio_dec'; wb_mode := wb_mode' |}.

(** [DemodulatorFm(unsigned samp_rate, double max_dev)] *)
Definition new (samp_rate : Z) (max_dev : double) : t :=
  setDemodParams
    {| iold := f_one; qold := f_one;
       audio_dec_wb := Decimator_default;
       audio_dec := Decimator_new 2 (coeff_dec_audio_32k_16k fc)
                                  (cnt (coeff_dec_audio_32k_16k fc));
       wb_mode := false |}
    samp_rate max_dev.

(** One iteration of the sample loop of [iq_received], on the state
    [(iold, qold, audio)]. *)
Definition demod_sample (st : float * float * list float) (sample : complex)
    : float * float * list float :=
  let '(iold', qold', audio) := st in
  let samp := c_div_f sample (c_abs sample) in
  let i := real samp in
  let q := imag samp in
  let demod := atan2 (f_sub (f_mul q iold') (f_mul i qold'))
                     (f_add (f_mul i iold') (f_mul q qold')) in
  (i, q, audio ++ [d2f demod]).

(** The decimation of the demodulated batch. *)
Definition decimate_audio (d : t) (audio : list float)
    : result (Decimator float * Decimator float * list float) :=
  if wb_mode d then
    '(wb, dec_audio1) ← decimate (audio_dec_wb d) [] audio;
    '(ad, dec_audio) ← decimate (audio_dec d) [] dec_audio1;
    Ok (wb, ad, dec_audio)
  else
    '(ad, dec_audio) ← decimate (audio_dec d) [] audio;
    Ok (audio_dec_wb d, ad, dec_audio).

(** [iq_received(samples)]: the new state and the samples handed to
    [sinkWriteSamples]. *)
Definition iq_received (d : t) (samples : list complex)
    : result (t * list float) :=
  let '(iold', qold', audio) :=
    foldl demod_sample (iold d, qold d, []) samples in
  '(wb, ad, dec_audio) ← decimate_audio d audio;
  _ ← first_element dec_audio;             (* &dec_audio[0] *)
  Ok ({| iold := iold'; qold := qold'; audio_dec_wb := wb; audio_dec := ad;
         wb_mode := wb_mode d |}, dec_audio).

End DemodulatorFm.
End DemodulatorFm.

(** ** DemodulatorAm *)

Module DemodulatorAm.
Section DemodulatorAm.
Context `{Arith} `{!ComplexArith} (fc : FilterCoeffs).

Record t : Type := mk {
  audio_dec : Decimator float;
}.

(** [DemodulatorAm(void)] *)
Definition new : t :=
  {| audio_dec :=
       setGain (Decimator_new 2 (coeff_dec_32k_16k fc)
                              (cnt (coeff_dec_32k_16k fc)))
               (d_of_Z 10) |}.

(** One iteration of the sample loop of [iq_received]. *)
Definition demod_sample (audio : list float) (sample : complex) : list float :=
  let demod := c_abs sample in
  audio ++ [demod].

(** [iq_received(samples)]: the new state and the samples handed to
    [sinkWriteSamples]. *)
Definition iq_received (d : t) (samples : list complex)
    : result (t * list float) :=
  let audio := foldl demod_sample [] samples in
  _ ← first_element audio;                 (* &audio[0] *)
  Ok (d, audio).

End DemodulatorAm.
End DemodulatorAm.

(** ** Ddr::Channel *)

Inductive Modulation : Set := MOD_FM | MOD_WBFM | MOD_AM.

(** What the program prints on [cout] and [cerr]. *)
Inductive message : Type :=
| ErrUnsupportedRate (sample_rate : Z)
| ErrDuplicateName (name : string)
| ErrFqNotSet (name : string)
| ErrWbrxNotSet (name : string)
| ErrNoWbrx (wbrx name : string)
| ErrChannelInit (name : string)
| ErrUnknownModulation (modstr name : string)
| WarnNoFit (name tuner : string).

Module Channel.
Section Channel.
Context `{Arith} `{!ComplexArith} (fc : FilterCoeffs).

(** [Channelizer *]: one of the two subclasses. *)
Inductive Channelizer : Type :=
| Ch960 (c : Channelizer960.t)
| Ch2400 (c : Channelizer2400.t).

(** [Demodulator *demod]: null, [&fm_demod] or [&am_demod]. *)
Inductive demod_ref : Set := fm_demod_ref | am_demod_ref.

Record t : Type := mk {
  sample_rate : Z;
  channelizer : option Channelizer;
  fm_demod : DemodulatorFm.t;
  am_demod : DemodulatorAm.t;
  demod : option demod_ref;
  trans : Translate.t;
  enabled : bool;
}.

(** [Channel(int fq_offset, unsigned sample_rate)] *)
Definition new (fq_offset sample_rate' : Z) : result t :=
  tr ← Translate.new sample_rate' (f_of_int fq_offset);
  Ok {| sample_rate := sample_rate';
        channelizer := None;
        fm_demod := DemodulatorFm.new fc 32000 (d_of_Z 5000);
        am_demod := DemodulatorAm.new fc;
        demod := None;
        trans := tr;
        enabled := true |}.

(** [channelizer->setBw(bw)] *)
Definition channelizer_setBw (c : Channelizer) (bw : Bandwidth)
    : result Channelizer :=
  match c with
  | Ch960 c => Ok (Ch960 (Channelizer960.setBw c bw))
  | Ch2400 c => c ← Channelizer2400.setBw c bw; Ok (Ch2400 c)
  end.

(** [channelizer->chSampRate()] *)
Definition channelizer_chSampRate (c : Channelizer) : result Z :=
  match c with
  | Ch960 c => Channelizer960.chSampRate c
  | Ch2400 c => Channelizer2400.chSampRate c
  end.

(** [channelizer->iq_received(out, in)] *)
Definition channelizer_iq_received (c : Channelizer) (out in_ : list complex)
    : result (Channelizer * list complex) :=
  match c with
  | Ch960 c =>
      '(c, out') ← Channelizer960.iq_received c out in_; Ok (Ch960 c, out')
  | Ch2400 c =>
      '(c, out') ← Channelizer2400.iq_received c out in_; Ok (Ch2400 c, out')
  end.

Definition with_channelizer (ch : t) (c : Channelizer) : t :=
  {| sample_rate := sample_rate ch; channelizer := Some c;
     fm_demod := fm_demod ch; am_demod := am_demod ch; demod := demod ch;
     trans := trans ch; enabled := enabled ch |}.

(** [setModulation(mod)] *)
Definition setModulation (ch : t) (mod_ : Modulation) : result t :=
  match channelizer ch with
  | None => Abort Undefined
  | Some c =>
      match mod_ with
      | MOD_FM =>
          c ← channelizer_setBw c BW_20K;
          r ← channelizer_chSampRate c;
          Ok {| sample_rate := sample_rate ch; channelizer := Some c;
                fm_demod := DemodulatorFm.setDemodParams fc (fm_demod ch) r
                                                         (d_of_Z 5000);
                am_demod := am_demod ch; demod := Some fm_demod_ref;
                trans := trans ch; enabled := enabled ch |}
      | MOD_WBFM =>
          c ← channelizer_setBw c BW_WIDE;
          r ← channelizer_chSampRate c;
          Ok {| sample_rate := sample_rate ch; channelizer := Some c;
                fm_demod := DemodulatorFm.setDemodParams fc (fm_demod ch) r
                                                         (d_of_Z 75000);
                am_demod := am_demod ch; demod := Some fm_demod_ref;
                trans := trans ch; enabled := enabled ch |}
      | MOD_AM =>
          c ← channelizer_setBw c BW_10K;
          Ok {| sample_rate := sample_rate ch; channelizer := Some c;
                fm_demod := fm_demod ch;
                am_demod := am_demod ch; demod := Some am_demod_ref;
                trans := trans ch; enabled := enabled ch |}
      end
  end.

(** [initialize()]: the value returned, the new state, what was printed. *)
Definition initialize (ch : t) : result (bool * t * list message) :=
  if sample_rate ch =? 2400000 then
    c ← Channelizer2400.new fc;
    ch' ← setModulation (with_channelizer ch (Ch2400 c)) MOD_FM;
    Ok (true, ch', [])
  else if sample_rate ch =? 960000 then
    ch' ← setModulation (with_channelizer ch (Ch960 (Channelizer960.new fc)))
                        MOD_FM;
    Ok (true, ch', [])
  else
    Ok (false, ch, [ErrUnsupportedRate (sample_rate ch)]).

(** [setFqOffset(int fq_offset)] *)
Definition setFqOffset (ch : t) (fq_offset : Z) : result t :=
  tr ← Translate.setOffset (trans ch) fq_offset;
  Ok {| sample_rate := sample_rate ch; channelizer := channelizer ch;
        fm_demod := fm_demod ch; am_demod := am_demod ch; demod := demod ch;
        trans := tr; enabled := enabled ch |}.

Definition chSampRate (ch : t) : result Z :=
  match channelizer ch with
  | None => Abort Undefined
  | Some c => channelizer_chSampRate c
  end.

Definition set_enabled (ch : t) (b : bool) : t :=
  {| sample_rate := sample_rate ch; channelizer := channelizer ch;
     fm_demod := fm_demod ch; am_demod := am_demod ch; demod := demod ch;
     trans := trans ch; enabled := b |}.

Definition enable (ch : t) : t := set_enabled ch true.
Definition disable (ch : t) : t := set_enabled ch false.
Definition isEnabled (ch : t) : bool := enabled ch.

(** [iq_received(samples)]: the new state and the audio samples written to
    the sink of the channel. *)
Definition iq_received (ch : t) (samples : list complex)
    : result (t * list float) :=
  if enabled ch then
    '(tr, translated) ← Translate.iq_received (trans ch) [] samples;
    match channelizer ch, demod ch with
    | Some c, Some dm =>
        '(c, channelized) ← channelizer_iq_received c [] translated;
        match dm with
        | fm_demod_ref =>
            '(fm, audio) ← DemodulatorFm.iq_received (fm_demod ch) channelized;
            Ok ({| sample_rate := sample_rate ch; channelizer := Some c;
                   fm_demod := fm; am_demod := am_demod ch;
                   demod := demod ch; trans := tr; enabled := enabled ch |},
                audio)
        | am_demod_ref =>
            '(am, audio) ← DemodulatorAm.iq_received (am_demod ch) channelized;
            Ok ({| sample_rate := sample_rate ch; channelizer := Some c;
                   fm_demod := fm_demod ch; am_demod := am;
                   demod := demod ch; trans := tr; enabled := enabled ch |},
                audio)
        end
    | _, _ => Abort Undefined
    end
  else Ok (ch, []).

End Channel.
End Channel.

(** ** Collaborators of Ddr *)

(** Addresses of [Ddr] objects ([Ddr *]). *)
Definition addr : Set := positive.

(** [Async::Config], through the two instances of [getValue] that [Ddr] uses:
    the value of a configuration variable read as a [double] and as a string,
    [None] when [getValue] returns [false].  A [double] read from the
    configuration is a rational number. *)
Record Config : Type := {
  getValue_double : string -> string -> option Q;
  getValue_string : string -> string -> option string;
}.

(** Modelled from the spec: the tuner class [WbRxRtlSdr], of which the sources
    at hand hold only the calls.  The spec gives it a name, [sampleRate()],
    [centerFq()] (a [uint32] in Hz), and [registerDdr] / [unregisterDdr],
    which maintain the set of DDRs that listen to the tuner. *)
Record WbRxRtlSdr : Type := {
  wbrx_name : string;
  centerFq : Z;
  sampleRate : Z;
  listeners : gset addr;
}.

(** What a run of [Ddr] methods depends on and cannot change. *)
Record Env : Type := {
  cfg : Config;
  (** the tuner [WbRxRtlSdr::instance] creates for a name not yet in use,
      [None] when it cannot create one *)
  wbrx_create : string -> option WbRxRtlSdr;
  (** the value [LocalRxBase::initialize()] returns for a receiver name *)
  LocalRxBase_initialize : string -> bool;
}.

(** The state shared by all DDRs of the process. *)
Record Process : Type := {
  ddr_map : gmap string addr;              (* Ddr::ddr_map *)
  wbrx_map : gmap string WbRxRtlSdr;       (* the tuners, by name *)
  console : list message;                  (* cout and cerr *)
}.

Definition print (g : Process) (msgs : list message) : Process :=
  {| ddr_map := ddr_map g; wbrx_map := wbrx_map g;
     console := console g ++ msgs |}.

Definition with_ddr_map (g : Process) (m : gmap string addr) : Process :=
  {| ddr_map := m; wbrx_map := wbrx_map g; console := console g |}.

Definition with_wbrx_map (g : Process) (m : gmap string WbRxRtlSdr) : Process :=
  {| ddr_map := ddr_map g; wbrx_map := m; console := console g |}.

(** Modelled from the spec: [WbRxRtlSdr::instance(cfg, name)] obtains the
    tuner of that name, creating it when there is none yet; the result is the
    key of the tuner, [None] for a null pointer. *)
Definition WbRxRtlSdr_instance (env : Env) (g : Process) (wbrx : string)
    : option string * Process :=
  match wbrx_map g !! wbrx with
  | Some _ => (Some wbrx, g)
  | None =>
      match wbrx_create env wbrx with
      | Some tuner => (Some wbrx, with_wbrx_map g (<[wbrx := tuner]> (wbrx_map g)))
      | None => (None, g)
      end
  end.

Definition set_listeners (tuner : WbRxRtlSdr) (l : gset addr) : WbRxRtlSdr :=
  {| wbrx_name := wbrx_name tuner; centerFq := centerFq tuner;
     sampleRate := sampleRate tuner; listeners := l |}.

(** Modelled from the spec: [rtl->registerDdr(this)]. *)
Definition registerDdr (g : Process) (rtl : string) (self : addr) : Process :=
  with_wbrx_map g
    (alter (fun tuner => set_listeners tuner ({[ self ]} ∪ listeners tuner))
           rtl (wbrx_map g)).

(** Modelled from the spec: [rtl->unregisterDdr(this)]. *)
Definition unregisterDdr (g : Process) (rtl : string) (self : addr) : Process :=
  with_wbrx_map g
    (alter (fun tuner => set_listeners tuner (listeners tuner ∖ {[ self ]}))
           rtl (wbrx_map g)).

(** ** Arithmetic on [double] values *)

(** [2^s] for an integer [s] of either sign. *)
Definition pow2 (s : Z) : Q :=
  if 0 <=? s then inject_Z (2 ^ s) else 1 # Z.to_pos (2 ^ (- s)).

(** The numerator and the denominator of [(a / b) / 2^s]. *)
Definition scaled_num (a s : Z) : Z := if 0 <=? s then a else a * 2 ^ (- s).
Definition scaled_den (b s : Z) : Z := if 0 <=? s then b * 2 ^ s else b.

(** The exponent of the unit in the last place of [a / b], for positive [a]
    and [b]: the [s] with [2^52 <= (a / b) / 2^s < 2^53]. *)
Definition ulp_exponent (a b : Z) : Z :=
  let s1 := Z.log2 a - Z.log2 b - 52 in
  if scaled_num a s1 <? 2 ^ 52 * scaled_den b s1 then s1 - 1 else s1.

(** The integer nearest to [n / d], the even one of two that are equally
    near, for [n >= 0] and [d > 0]. *)
Definition nearest_even (n d : Z) : Z :=
  let m := n / d in
  let r := n mod d in
  if 2 * r <? d then m
  else if d <? 2 * r then m + 1
  else if Z.even m then m else m + 1.

(** The binary64 value a result is rounded to: the nearest number with 53
    significant bits, ties to even.  (The exponent range is not limited:
    the differences below neither overflow nor lose bits in the subnormal
    range.) *)
Definition round64 (q : Q) : Q :=
  let a := Z.abs (Qnum q) in
  let b := Zpos (Qden q) in
  if a =? 0 then 0%Q
  else
    let s := ulp_exponent a b in
    let m := nearest_even (scaled_num a s) (scaled_den b s) in
    let v := (inject_Z m * pow2 s)%Q in
    if Qnum q <? 0 then Qopp v else v.

(** [x - y] on [double] values. *)
Definition double_sub (x y : Q) : Q := round64 (x - y).

(** Conversion of a [double] to [int]: the fractional part is discarded; a
    value that does not fit has no defined result. *)
Definition double_to_int (q : Q) : result Z :=
  let z := Qnum q ÷ Zpos (Qden q) in
  if (INT_MIN <=? z) && (z <=? INT_MAX) then Ok z else Abort Undefined.

(** ** Ddr *)

Module Ddr.
Section Ddr.
Context `{Arith} `{!ComplexArith} (fc : FilterCoeffs) (env : Env).

Record t : Type := mk {
  name : string;                  (* LocalRxBase: name() *)
  channel : option Channel.t;     (* Channel *channel *)
  rtl : option string;            (* WbRxRtlSdr *rtl *)
  fq : Q;                         (* double fq *)
}.

(** [Ddr::find(name)] *)
Definition find (g : Process) (name' : string) : option addr :=
  ddr_map g !! name'.

(** [Ddr(cfg, name)] *)
Definition new (name' : string) : t :=
  {| name := name'; channel := None; rtl := None; fq := 0 |}.

Definition with_channel (d : t) (ch : option Channel.t) : t :=
  {| name := name d; channel := ch; rtl := rtl d; fq := fq d |}.
Definition with_rtl (d : t) (r : option string) : t :=
  {| name := name d; channel := channel d; rtl := r; fq := fq d |}.
Definition with_fq (d : t) (fq' : Q) : t :=
  {| name := name d; channel := channel d; rtl := rtl d; fq := fq' |}.

(** [(rtl->sampleRate() / 2) - 12500], in [unsigned] arithmetic. *)
Definition fit_limit (tuner : WbRxRtlSdr) : Z :=
  to_unsigned (to_unsigned (sampleRate tuner) / 2 - 12500).

(** [tunerFqChanged(uint32_t center_fq)] *)
Definition tunerFqChanged (d : t) (g : Process) (center_fq : Z)
    : result (t * Process) :=
  match channel d with
  | None => Ok (d, g)
  | Some ch =>
      let new_offset := double_sub (fq d) (inject_Z center_fq) in
      match rtl d ≫= (fun r => wbrx_map g !! r) with
      | None => Abort Undefined
      | Some tuner =>
          if negb (Qle_bool (Qabs new_offset) (inject_Z (fit_limit tuner)))
          then
            if Channel.isEnabled ch then
              Ok (with_channel d (Some (Channel.disable ch)),
                  print g [WarnNoFit (name d) (wbrx_name tuner)])
            else Ok (d, g)
          else
            fq_offset ← double_to_int new_offset;
            ch ← Channel.setFqOffset ch fq_offset;
            Ok (with_channel d (Some (Channel.enable ch)), g)
      end
  end.

(** The part of [initialize()] that follows the creation of the channel:
    the [MODULATION] variable, the base class, the first tuning. *)
Definition initialize_modulation (d : t) (g : Process) (ch : Channel.t)
    (tuner : WbRxRtlSdr) : result (bool * t * Process) :=
  let modstr :=
    default "FM"%string (getValue_string (cfg env) (name d) "MODULATION") in
  let after_modulation (ch : Channel.t) : result (bool * t * Process) :=
    if negb (LocalRxBase_initialize env (name d)) then
      Ok (false, with_channel d None, g)
    else
      '(d, g) ← tunerFqChanged (with_channel d (Some ch)) g (centerFq tuner);
      Ok (true, d, g) in
  if String.eqb modstr "FM" then
    ch ← Channel.setModulation fc ch MOD_FM; after_modulation ch
  else if String.eqb modstr "WBFM" then
    ch ← Channel.setModulation fc ch MOD_WBFM; after_modulation ch
  else if String.eqb modstr "AM" then
    ch ← Channel.setModulation fc ch MOD_AM; after_modulation ch
  else
    Ok (false, with_channel d None,
        print g [ErrUnknownModulation modstr (name d)]).

(** [initialize()] of the DDR at address [self]: the value returned, the
    new state of the object and of the process. *)
Definition initialize (self : addr) (d : t) (g : Process)
    : result (bool * t * Process) :=
  match ddr_map g !! name d with
  | Some _ => Ok (false, d, print g [ErrDuplicateName (name d)])
  | None =>
      let g := with_ddr_map g (<[name d := self]> (ddr_map g)) in
      match getValue_double (cfg env) (name d) "FQ" with
      | None => Ok (false, d, print g [ErrFqNotSet (name d)])
      | Some fq' =>
          let d := with_fq d fq' in
          match getValue_string (cfg env) (name d) "WBRX" with
          | None => Ok (false, d, print g [ErrWbrxNotSet (name d)])
          | Some wbrx =>
              match WbRxRtlSdr_instance env g wbrx with
              | (None, g) =>
                  Ok (false, with_rtl d None, print g [ErrNoWbrx wbrx (name d)])
              | (Some r, g) =>
                  let d := with_rtl d (Some r) in
                  let g := registerDdr g r self in
                  match wbrx_map g !! r with
                  | None => Abort Undefined
                  | Some tuner =>
                      fq_offset ←
                        double_to_int
                          (double_sub (fq d) (inject_Z (centerFq tuner)));
                      ch ← Channel.new fc fq_offset (sampleRate tuner);
                      '(ok, ch, msgs) ← Channel.initialize fc ch;
                      if negb ok then
                        Ok (false, with_channel d None,
                            print g (msgs ++ [ErrChannelInit (name d)]))
                      else initialize_modulation d g ch tuner
                  end
              end
          end
      end
  end.

(** [~Ddr()] of the DDR at address [self]. *)
Definition destroy (self : addr) (d : t) (g : Process) : Process :=
  let g := match rtl d with
           | Some r => unregisterDdr g r self
           | None => g
           end in
  match ddr_map g !! name d with
  | Some _ => with_ddr_map g (delete (name d) (ddr_map g))
  | None => g
  end.

(** [setModulation(mod)] *)
Definition setModulation (d : t) (mod_ : Modulation) : result t :=
  match channel d with
  | None => Abort Undefined
  | Some ch =>
      ch ← Channel.setModulation fc ch mod_; Ok (with_channel d (Some ch))
  end.

(** [preDemodSampleRate()] *)
Definition preDemodSampleRate (d : t) : result Z :=
  match channel d with
  | None => Abort Undefined
  | Some ch => Channel.chSampRate ch
  end.

(** [audioSampleRate()] *)
Definition audioSampleRate : Z := 16000.

End Ddr.
End Ddr.

(** * Specifications *)

(** ** The FIR decimator, as the spec describes it *)

Section DecimatorSpec.
Context `{Arith} {T : Type} `{!Sample T}.

(** The sum of [coeffs[t] * z[t]] over the taps, from tap 0 upwards. *)
Definition fir (c : list float) (z : list T) : T :=
  foldl s_add s_zero (zip_with s_scale c z).

(** The delay line of [Tn] taps after the [M] samples [chunk] are shifted
    in: they occupy the taps [0 .. M-1], the most recent at tap 0, and the
    older contents move up by [M]. *)
Definition shift_in (M Tn : nat) (z chunk : list T) : list T :=
  reverse chunk ++ take (Tn - M) z.

(** The [k] outputs for an input of [k * M] samples, and the delay line
    left behind. *)
Fixpoint fir_outputs (M Tn : nat) (c : list float) (z : list T) (k : nat)
    (input : list T) : list T * list T :=
  match k with
  | O => ([], z)
  | S k' =>
      let z' := shift_in M Tn z (take M input) in
      let '(outs, zf) := fir_outputs M Tn c z' k' (drop M input) in
      (fir c z' :: outs, zf)
  end.

(** The decimators constructed with factor [M] and [Tn] taps, in any state
    they reach by [setGain] and [decimate]. *)
Inductive constructed (M Tn : Z) : Decimator T -> Prop :=
| constructed_new (table : list float) :
    0 <= Tn -> Tn <= cnt table ->
    constructed M Tn (Decimator_new M table Tn)
| constructed_params (d : Decimator T) (table : list float) :
    0 <= Tn -> Tn <= cnt table ->
    constructed M Tn (setDecimatorParams d M table Tn)
| constructed_setGain (d : Decimator T) (g : double) :
    constructed M Tn d -> constructed M Tn (setGain d g)
| constructed_decimate (d d' : Decimator T) (out in_ out' : list T) :
    constructed M Tn d -> decimate d out in_ = Ok (d', out') ->
    constructed M Tn d'.

(** What [constructed] guarantees of the state. *)
Definition dec_wf (M Tn : Z) (d : Decimator T) : Prop :=
  dec_fact d = M /\ taps d = Tn /\ 0 <= Tn /\
  length (p_Z d) = Z.to_nat Tn /\ length (coeff d) = Z.to_nat Tn /\
  length (set_coeff d) = Z.to_nat Tn.

(** The delay line after the first [j] groups of [M] input samples. *)
Fixpoint delay_line (M Tn : nat) (z : list T) (j : nat) (input : list T)
    : list T :=
  match j with
  | O => z
  | S j' => delay_line M Tn (shift_in M Tn z (take M input)) j' (drop M input)
  end.

Definition with_p_Z (d : Decimator T) (z : list T) : Decimator T :=
  {| dec_fact := dec_fact d; p_Z := z; taps := taps d;
     set_coeff := set_coeff d; coeff := coeff d |}.

End DecimatorSpec.

(** ** An implementation of the floating point interface *)

(** Exact integer arithmetic in the place of floating point, to run the model
    on concrete inputs.  It is no floating point format: the operations that
    have no integer counterpart get simple integer stand-ins.  The theorems
    below hold for every implementation of the interface. *)
Module ExactInt.
Definition arith : Arith :=
  {| float := Z; double := Z;
     f_zero := 0; f_one := 1;
     f_add := Z.add; f_sub := Z.sub; f_mul := Z.mul;
     f_of_int := fun z => z;
     f_to_int := fun z =>
       if (INT_MIN <=? z) && (z <=? INT_MAX) then Ok z else Abort Undefined;
     f2d := fun z => z; d2f := fun z => z;
     d_of_Z := fun z => z;
     d_pi := 3;
     d_mul := Z.mul; d_div := Z.div;
     d_log10 := Z.log2; d_pow := Z.pow;
     atan2 := fun y x => y - x |}.

Definition re (a : @complex arith) : Z := @real arith a.
Definition im (a : @complex arith) : Z := @imag arith a.

Definition complex_arith : @ComplexArith arith :=
  {| c_add := fun a b => @Complex arith (re a + re b) (im a + im b);
     c_scale := fun c a => @Complex arith (c * re a) (c * im a);
     c_mul := fun a b =>
       @Complex arith (re a * re b - im a * im b) (re a * im b + im a * re b);
     c_div_f := fun a c => @Complex arith (re a / c) (im a / c);
     c_abs := fun a => Z.abs (re a) + Z.abs (im a);
     c_exp := fun a => a |}.

(** Tables of [n] coefficients, all equal to one. *)
Definition ones (n : nat) : list (@float arith) := replicate n 1.

Definition tables (n : nat) : @FilterCoeffs arith :=
  {| coeff_dec_audio_32k_16k := ones n; coeff_dec_160k_32k := ones n;
     coeff_dec_192k_32k := ones n; coeff_dec_32k_16k := ones n;
     coeff_dec_960k_192k := ones n; coeff_dec_192k_64k := ones n;
     coeff_dec_64k_32k := ones n; coeff_dec_192k_48k := ones n;
     coeff_dec_48k_16k := ones n; coeff_dec_2400k_800k := ones n;
     coeff_dec_800k_160k := ones n; coeff_25k_channel := ones n;
     coeff_12k5_channel := ones n; coeff_ssb_channel := ones n |}.

(** A configuration with one tuner, [WBRX1], at 960 kHz around 100 MHz,
    and receivers that all use it; [fq] and [modulation] are the values of
    the variables [FQ] and [MODULATION], when set. *)
Definition config (fq : option Q) (modulation : option string) : Config :=
  {| getValue_double := fun _ tag =>
       if String.eqb tag "FQ" then fq else None;
     getValue_string := fun _ tag =>
       if String.eqb tag "WBRX" then Some "WBRX1"%string
       else if String.eqb tag "MODULATION" then modulation
       else None |}.

Definition wbrx1 : WbRxRtlSdr :=
  {| wbrx_name := "WBRX1"; centerFq := 100000000; sampleRate := 960000;
     listeners := ∅ |}.

Definition environment (fq : option Q) (modulation : option string) : Env :=
  {| cfg := config fq modulation;
     wbrx_create := fun name =>
       if String.eqb name "WBRX1" then Some wbrx1 else None;
     LocalRxBase_initialize := fun _ => true |}.

(** A process in which nothing has been created yet. *)
Definition fresh : Process :=
  {| ddr_map := ∅; wbrx_map := ∅; console := [] |}.

(** A real-valued decimator by 2 with the three taps 1, 2, 3. *)
Definition dec3 : @Decimator arith Z :=
  @Decimator_new arith Z (@float_sample arith) 2 [1; 2; 3] 3.

#[local] Existing Instance arith.
#[local] Existing Instance complex_arith.

Definition sample (re' im' : Z) : complex := Complex re' im'.

(** The channel of a DDR on the tuner [WBRX1], as [Ddr::initialize] leaves
    it when the offset to the tuner is less than 1 Hz: FM, enabled, the
    translator passing the samples through. *)
Definition channel1 : Channel.t :=
  {| Channel.sample_rate := 960000;
     Channel.channelizer :=
       Some (Channel.Ch960 (Channelizer960.new (tables 5)));
     Channel.fm_demod :=
       DemodulatorFm.setDemodParams (tables 5)
         (DemodulatorFm.setDemodParams (tables 5)
            (DemodulatorFm.new (tables 5) 32000 5000) 32000 5000)
         32000 5000;
     Channel.am_demod := DemodulatorAm.new (tables 5);
     Channel.demod := Some Channel.fm_demod_ref;
     Channel.trans := Translate.mk 960000 [] 0;
     Channel.enabled := true |}.

(** The DDR [RX1] with that channel, tuned to [fq]. *)
Definition rx1 (fq : Q) : Ddr.t :=
  {| Ddr.name := "RX1"; Ddr.channel := Some channel1;
     Ddr.rtl := Some "WBRX1"%string; Ddr.fq := fq |}.

(** The process once [RX1], at address 1, is initialized. *)
Definition running : Process :=
  {| ddr_map := {[ "RX1"%string := 1%positive ]};
     wbrx_map :=
       {[ "WBRX1"%string :=
            {| wbrx_name := "WBRX1"; centerFq := 100000000;
               sampleRate := 960000; listeners := {[ 1%positive ]} |} ]};
     console := [] |}.
End ExactInt.

(** Further inputs for runs of the model. *)
Module ExactRuns.
#[local] Existing Instance ExactInt.arith.
#[local] Existing Instance ExactInt.complex_arith.

(** The channel [Channel(0, 960000)] as [initialize()] leaves it, over
    tables of six coefficients. *)
Definition channel6 : Channel.t :=
  {| Channel.sample_rate := 960000;
     Channel.channelizer :=
       Some (Channel.Ch960 (Channelizer960.new (ExactInt.tables 6)));
     Channel.fm_demod :=
       DemodulatorFm.setDemodParams (ExactInt.tables 6)
         (DemodulatorFm.new (ExactInt.tables 6) 32000 5000) 32000 5000;
     Channel.am_demod := DemodulatorAm.new (ExactInt.tables 6);
     Channel.demod := Some Channel.fm_demod_ref;
     Channel.trans := Translate.mk 960000 [] 0;
     Channel.enabled := true |}.

(** The channel [Channel(0, 2400000)] before [initialize()]. *)
Definition channel2400 : Channel.t :=
  {| Channel.sample_rate := 2400000;
     Channel.channelizer := None;
     Channel.fm_demod := DemodulatorFm.new (ExactInt.tables 6) 32000 5000;
     Channel.am_demod := DemodulatorAm.new (ExactInt.tables 6);
     Channel.demod := None;
     Channel.trans := Translate.mk 2400000 [] 0;
     Channel.enabled := true |}.

(** A batch of [n] equal samples. *)
Definition carrier (n : nat) : list complex :=
  replicate n (ExactInt.sample 1 0).

(** A process whose tuner [WBRX1] runs at 1 MHz, a rate the channel does not
    support. *)
Definition slow_tuner : WbRxRtlSdr :=
  {| wbrx_name := "WBRX1"; centerFq := 100000000; sampleRate := 1000000;
     listeners := ∅ |}.

Definition slow_process : Process :=
  {| ddr_map := ∅; wbrx_map := {[ "WBRX1"%string := slow_tuner ]};
     console := [] |}.

(** An environment in which the tuner [WBRX1] is created at 1 MHz. *)
Definition slow_environment (fq : option Q) : Env :=
  {| cfg := ExactInt.config fq None;
     wbrx_create := fun name =>
       if String.eqb name "WBRX1" then Some slow_tuner else None;
     LocalRxBase_initialize := fun _ => true |}.
End ExactRuns.

(** ** The cascades of the channelizers, as the spec tabulates them *)

Module Spec960.
Section Spec960.
Context `{Arith} `{!ComplexArith} (fc : FilterCoeffs).
Import Channelizer960.

(** The decimation factor each member is constructed with. *)
Definition factor (m : member) : Z :=
  match m with
  | dec_960k_192k => 5 | dec_192k_64k => 3 | dec_64k_32k => 2
  | dec_192k_48k => 4 | dec_48k_16k => 3
  | ch_filt => 1 | ch_filt_narr => 1 | ch_filt_6k => 1
  end.

(** The coefficient table each member is constructed with. *)
Definition table (m : member) : list float :=
  match m with
  | dec_960k_192k => coeff_dec_960k_192k fc
  | dec_192k_64k => coeff_dec_192k_64k fc
  | dec_64k_32k => coeff_dec_64k_32k fc
  | dec_192k_48k => coeff_dec_192k_48k fc
  | dec_48k_16k => coeff_dec_48k_16k fc
  | ch_filt => coeff_25k_channel fc
  | ch_filt_narr => coeff_12k5_channel fc
  | ch_filt_6k => coeff_ssb_channel fc
  end.

(** The overall decimation of the spec table for the 960 kHz tuner. *)
Definition overall (bw : Bandwidth) : Z :=
  match bw with
  | BW_WIDE => 5 | BW_20K => 30 | BW_10K => 60 | BW_6K => 60
  end.

(** The states a [Channelizer960] goes through. *)
Inductive reachable : t -> Prop :=
| reachable_new : reachable (new fc)
| reachable_setBw (c : t) (bw : Bandwidth) :
    reachable c -> reachable (setBw c bw)
| reachable_iq_received (c c' : t) (out in_ out' : list complex) :
    reachable c -> iq_received c out in_ = Ok (c', out') -> reachable c'.

End Spec960.
End Spec960.

Module Spec2400.
Section Spec2400.
Context `{Arith} `{!ComplexArith} (fc : FilterCoeffs).
Import Channelizer2400.

Definition factor (m : member) : Z :=
  match m with
  | dec_2400k_800k => 3 | dec_800k_160k => 5 | dec_160k_32k => 5
  | dec_32k_16k => 2
  | ch_filt => 1 | ch_filt_narr => 1 | ch_filt_6k => 1
  end.

Definition table (m : member) : list float :=
  match m with
  | dec_2400k_800k => coeff_dec_2400k_800k fc
  | dec_800k_160k => coeff_dec_800k_160k fc
  | dec_160k_32k => coeff_dec_160k_32k fc
  | dec_32k_16k => coeff_dec_32k_16k fc
  | ch_filt => coeff_25k_channel fc
  | ch_filt_narr => coeff_12k5_channel fc
  | ch_filt_6k => coeff_ssb_channel fc
  end.

(** The overall decimation of the spec table for the 2.4 MHz tuner. *)
Definition overall (bw : Bandwidth) : Z :=
  match bw with
  | BW_WIDE => 15 | BW_20K => 75 | BW_10K => 150 | BW_6K => 150
  end.

(** The states the member decimators go through: as the member initializers
    of the constructor leave them, then after any number of runs of a
    cascade of [setBw] over them. *)
Inductive reachable : (member -> Decimator complex) -> Prop :=
| reachable_members : reachable (members fc)
| reachable_decimate (p p' : member -> Decimator complex) (bw : Bandwidth)
    (out in_ out' : list complex) :
    reachable p ->
    DecimatorMS.decimate (cascade bw) p out in_ = Ok (p', out') ->
    reachable p'.

End Spec2400.
End Spec2400.

Section CascadeSpec.
Context `{Arith} {T : Type} `{!Sample T} {Id : Type} `{!EqDecision Id}.

(** The product of the decimation factors of a list of stages. *)
Definition factor_product (p : Id -> Decimator T) (ids : list Id) : Z :=
  foldr Z.mul 1 ((fun d => decFact (p d)) <$> ids).

(** A list of stages run one after the other, each on the output of the
    one before. *)
Fixpoint chain (ids : list Id) (p : Id -> Decimator T) (in_ : list T)
    : result ((Id -> Decimator T) * list T) :=
  match ids with
  | [] => Ok (p, in_)
  | d :: rest =>
      '(p, dec_samp) ← DecimatorMS.stage p d [] in_;
      chain rest p dec_samp
  end.

(** Every decimator of the pool is in a well-formed state, with the factor
    and the number of taps it was constructed with. *)
Definition pool_wf (factor ntaps : Id -> Z) (p : Id -> Decimator T) : Prop :=
  forall d, dec_wf (factor d) (ntaps d) (p d).

End CascadeSpec.

(** ** The translator, as the spec describes it *)

Section TranslateSpec.
Context `{Arith} `{!ComplexArith}.

(** The period [N = R / gcd(R, |f|)] of the lookup table. *)
Definition lut_period (R f : Z) : Z := R / Z.gcd R (Z.abs f).

(** The translators at sample rate [R] whose offset was last set to [f],
    after any number of batches. *)
Inductive tuned (R f : Z) : Translate.t -> Prop :=
| tuned_setOffset (tr0 tr : Translate.t) :
    Translate.samp_rate tr0 = R -> Translate.setOffset tr0 f = Ok tr ->
    tuned R f tr
| tuned_iq_received (tr tr' : Translate.t) (out in_ out' : list complex) :
    tuned R f tr -> Translate.iq_received tr out in_ = Ok (tr', out') ->
    tuned R f tr'.

End TranslateSpec.

(** ** The demodulators, as the spec describes them *)

Section DemodSpec.
Context `{Arith} `{!ComplexArith} (fc : FilterCoeffs).

(** Step 1: [s <- s / |s|]. *)
Definition normalize (s : complex) : complex := c_div_f s (c_abs s).

(** Step 2: [atan2(q*i_prev - i*q_prev, i*i_prev + q*q_prev)], as the
    [float] that is emitted. *)
Definition psi (i_prev q_prev i q : float) : float :=
  d2f (atan2 (f_sub (f_mul q i_prev) (f_mul i q_prev))
             (f_add (f_mul i i_prev) (f_mul q q_prev))).

(** The values emitted for a batch, in order, from the previous-sample
    state [(i_prev, q_prev)]; step 3 stores [(i, q)] for the next sample. *)
Fixpoint psi_seq (i_prev q_prev : float) (samples : list complex)
    : list float :=
  match samples with
  | [] => []
  | s :: rest =>
      let i := real (normalize s) in
      let q := imag (normalize s) in
      psi i_prev q_prev i q :: psi_seq i q rest
  end.

(** The previous-sample state a batch leaves behind. *)
Fixpoint last_iq (i_prev q_prev : float) (samples : list complex)
    : float * float :=
  match samples with
  | [] => (i_prev, q_prev)
  | s :: rest => last_iq (real (normalize s)) (imag (normalize s)) rest
  end.

(** The previous-sample state sample [k] of a batch is compared with. *)
Definition prev_iq (i_prev q_prev : float) (samples : list complex) (k : nat)
    : float * float :=
  match k with
  | O => (i_prev, q_prev)
  | S k' =>
      match samples !! k' with
      | Some s => (real (normalize s), imag (normalize s))
      | None => (i_prev, q_prev)
      end
  end.

(** The states an FM demodulator goes through. *)
Inductive fm_reachable : DemodulatorFm.t -> Prop :=
| fm_reachable_new (samp_rate : Z) (max_dev : double) :
    fm_reachable (DemodulatorFm.new fc samp_rate max_dev)
| fm_reachable_setDemodParams (d : DemodulatorFm.t) (samp_rate : Z)
    (max_dev : double) :
    fm_reachable d ->
    fm_reachable (DemodulatorFm.setDemodParams fc d samp_rate max_dev)
| fm_reachable_iq_received (d d' : DemodulatorFm.t) (samples : list complex)
    (audio : list float) :
    fm_reachable d -> DemodulatorFm.iq_received d samples = Ok (d', audio) ->
    fm_reachable d'.



End DemodSpec.

(** ** The channel, by modulation *)

Section ChannelSpec.
Context `{Arith} `{!ComplexArith}.

(** The bandwidth [setModulation] selects. *)
Definition modulation_bw (m : Modulation) : Bandwidth :=
  match m with
  | MOD_FM => BW_20K
  | MOD_WBFM => BW_WIDE
  | MOD_AM => BW_10K
  end.

(** The demodulator [setModulation] selects. *)
Definition modulation_demod (m : Modulation) : Channel.demod_ref :=
  match m with
  | MOD_FM | MOD_WBFM => Channel.fm_demod_ref
  | MOD_AM => Channel.am_demod_ref
  end.

(** The rate of the channelizer output behind a 960 kHz tuner, by
    modulation. *)
Definition modulation_rate (m : Modulation) : Z :=
  match m with
  | MOD_FM => 32000
  | MOD_WBFM => 192000
  | MOD_AM => 16000
  end.

End ChannelSpec.

(** ** The channel of a DDR, in the states it goes through *)

Section ChannelStates.
Context `{Arith} `{!ComplexArith} (fc : FilterCoeffs).

(** The channels of a DDR: created for a tuner and initialized, then driven
    through the functions of the class.  The index is the modulation that
    was set last. *)
Inductive channel_reachable : Modulation -> Channel.t -> Prop :=
| channel_initialized (fq_offset R : Z) (ch0 ch : Channel.t)
    (msgs : list message) :
    Channel.new fc fq_offset R = Ok ch0 ->
    Channel.initialize fc ch0 = Ok (true, ch, msgs) ->
    channel_reachable MOD_FM ch
| channel_setModulation (m0 m : Modulation) (ch ch' : Channel.t) :
    channel_reachable m0 ch -> Channel.setModulation fc ch m = Ok ch' ->
    channel_reachable m ch'
| channel_setFqOffset (m : Modulation) (ch ch' : Channel.t) (fq_offset : Z) :
    channel_reachable m ch -> Channel.setFqOffset ch fq_offset = Ok ch' ->
    channel_reachable m ch'
| channel_enable (m : Modulation) (ch : Channel.t) :
    channel_reachable m ch -> channel_reachable m (Channel.enable ch)
| channel_disable (m : Modulation) (ch : Channel.t) :
    channel_reachable m ch -> channel_reachable m (Channel.disable ch)
| channel_iq_received (m : Modulation) (ch ch' : Channel.t)
    (samples : list complex) (audio : list float) :
    channel_reachable m ch -> Channel.iq_received ch samples = Ok (ch', audio) ->
    channel_reachable m ch'.

(** No coefficient table is shorter than the factor of a decimator that is
    constructed over it. *)
Definition tables_fit : Prop :=
  (forall m, Spec960.factor m <= cnt (Spec960.table fc m)) /\
  2 <= cnt (coeff_dec_audio_32k_16k fc) /\
  6 <= cnt (coeff_dec_192k_32k fc).

(** A translator whose phase index points into its table. *)
Definition translate_ready (tr : Translate.t) : Prop :=
  let N := Z.of_nat (length (Translate.exp_lut tr)) in
  0 < Translate.samp_rate tr < 2 ^ 32 /\ N <= Translate.samp_rate tr /\
  (N = 0 \/ 0 <= Translate.n tr < N).

(** What [channel_reachable] guarantees of the state: the channel is that
    of a 960 kHz tuner, with the cascade and the demodulator of its
    modulation. *)
Definition channel_inv (m : Modulation) (ch : Channel.t) : Prop :=
  exists c : Channelizer960.t,
    Channel.channelizer ch = Some (Channel.Ch960 c) /\
    Spec960.reachable fc c /\
    Channel.sample_rate ch = 960000 /\
    Channelizer960.setBw c (modulation_bw m) = c /\
    Channel.demod ch = Some (modulation_demod m) /\
    Translate.samp_rate (Channel.trans ch) = 960000 /\
    translate_ready (Channel.trans ch) /\
    dec_wf 2 (cnt (coeff_dec_audio_32k_16k fc))
           (DemodulatorFm.audio_dec (Channel.fm_demod ch)) /\
    match m with
    | MOD_FM => DemodulatorFm.wb_mode (Channel.fm_demod ch) = false
    | MOD_WBFM =>
        DemodulatorFm.wb_mode (Channel.fm_demod ch) = true /\
        dec_wf 6 (cnt (coeff_dec_192k_32k fc))
               (DemodulatorFm.audio_dec_wb (Channel.fm_demod ch))
    | MOD_AM => True
    end.

End ChannelStates.

(** ** Rounding to binary64 *)

(** [v] is the binary64 value nearest to [x]: zero for zero; otherwise
    [|v| = m * 2^s] with a significand [m] of 53 bits, [2^52 <= m <= 2^53],
    at most half a unit of the last place, [2^s / 2], away from [x], and
    with [m] even when [x] lies midway between two such values. *)
Definition nearest_double (x v : Q) : Prop :=
  ((x == 0)%Q -> (v == 0)%Q) /\
  (~ (x == 0)%Q ->
   exists m s : Z,
     2 ^ 52 <= m <= 2 ^ 53 /\
     (Qabs v == inject_Z m * (2 # 1) ^ s)%Q /\
     (2 * Qabs (v - x) <= (2 # 1) ^ s)%Q /\
     ((2 * Qabs (v - x) == (2 # 1) ^ s)%Q -> Z.even m = true)).

(** ** The DDR, by its configuration *)

Section DdrSpec.
Context (env : Env).

(** The modulation the variable [MODULATION] of a receiver stands for, [FM]
    when it is not set; [None] for a value [initialize] rejects. *)
Definition configured_modulation (name' : string) : option Modulation :=
  let modstr :=
    default "FM"%string (getValue_string (cfg env) name' "MODULATION") in
  if String.eqb modstr "FM" then Some MOD_FM
  else if String.eqb modstr "WBFM" then Some MOD_WBFM
  else if String.eqb modstr "AM" then Some MOD_AM
  else None.

End DdrSpec.

(** * Properties *)

(** ** Machine integers and runs *)

Lemma to_int_small (z : Z) : INT_MIN <= z <= INT_MAX -> to_int z = z.
Proof.
  unfold to_int, INT_MIN, INT_MAX. intros Hz.
  rewrite Z.mod_small; lia.
Qed.

Lemma to_unsigned_small (z : Z) : 0 <= z < 2 ^ 32 -> to_unsigned z = z.
Proof. intros Hz. unfold to_unsigned. by apply Z.mod_small. Qed.

Lemma size_t_of_small (z : Z) : 0 <= z < 2 ^ 64 -> size_t_of z = z.
Proof. intros Hz. unfold size_t_of. by apply Z.mod_small. Qed.

Lemma bind_Ok {A B : Type} (f : A -> result B) (a : A) : Ok a ≫= f = f a.
Proof. reflexivity. Qed.

Lemma bind_Abort {A B : Type} (f : A -> result B) (e : abort) :
  Abort e ≫= f = Abort e.
Proof. reflexivity. Qed.

Lemma bind_Ok_inv {A B : Type} (f : A -> result B) (m : result A) (b : B) :
  m ≫= f = Ok b -> exists a, m = Ok a /\ f a = Ok b.
Proof. destruct m as [a|e]; [eauto | discriminate]. Qed.

Lemma assert_Ok_inv (b : bool) (e : abort) (u : unit) :
  assert b e = Ok u -> b = true.
Proof. by destruct b. Qed.

(** ** The delay line *)

Section DecimatorFacts.
Context `{Arith} {T : Type} `{!Sample T}.
Implicit Types (d : Decimator T) (z src out : list T).

Lemma drop_insert_here z (i : nat) (x : T) :
  (i < length z)%nat -> drop i (<[i := x]> z) = x :: drop (S i) z.
Proof.
  revert i. induction z as [|y z IH]; intros [|i] Hi; simpl in *; try lia.
  - reflexivity.
  - apply IH. lia.
Qed.

(** The copy loop writes the next [n] samples, newest first, below the
    cells it leaves alone. *)
Lemma copy_samples_Ok (n : nat) z src :
  (n <= length z)%nat -> (n <= length src)%nat ->
  copy_samples n z src = Ok (reverse (take n src) ++ drop n z, drop n src).
Proof.
  revert z src. induction n as [|n IH]; intros z src Hz Hsrc.
  - by rewrite !take_0, !drop_0.
  - destruct src as [|x src]; simpl in Hsrc; [lia|].
    cbn [copy_samples]. rewrite IH by (rewrite ?length_insert; lia).
    rewrite drop_insert_here by lia.
    cbn [take drop]. rewrite reverse_cons, <- app_assoc. reflexivity.
Qed.

(** The copy loop meets its assertion when the input runs out. *)
Lemma copy_samples_short (n : nat) z src :
  (length src < n)%nat -> copy_samples n z src = Abort AssertSrc.
Proof.
  revert z src. induction n as [|n IH]; intros z src Hn; [lia|].
  destruct src as [|x src]; [reflexivity|]. simpl in *. apply IH. lia.
Qed.

Lemma shift_then_copy d src (M Tn : Z) :
  dec_wf M Tn d -> 0 < M <= Tn -> (Z.to_nat M <= length src)%nat ->
  copy_samples (Z.to_nat (dec_fact d)) (shift_delay_line d) src
  = Ok (shift_in (Z.to_nat M) (Z.to_nat Tn) (p_Z d) (take (Z.to_nat M) src),
        drop (Z.to_nat M) src).
Proof.
  intros (HM & HT & HT0 & Hz & _) HMT Hsrc.
  unfold shift_delay_line, shift_in. rewrite HM, HT.
  rewrite copy_samples_Ok.
  - rewrite drop_app_length'; [|rewrite length_take; lia].
    by rewrite Z2Nat.inj_sub by lia.
  - rewrite length_app, !length_take. lia.
  - done.
Qed.

Lemma foldl_seq_shift {A : Type} (F : A -> nat -> A) (a : A) (i n : nat) :
  foldl F a (seq i n) = foldl (fun s t => F s (i + t)%nat) a (seq 0 n).
Proof.
  revert F. induction i as [|i IH]; intros F; [reflexivity|].
  rewrite <- fmap_S_seq, foldl_fmap. apply (IH (fun s t => F s (S t))).
Qed.

Lemma tap_loop_zip (n : nat) (c : list float) z (a : T) :
  length c = n -> length z = n ->
  foldl (fun sum tap =>
           s_add sum (s_scale (nth tap c f_zero) (nth tap z s_zero)))
        a (seq 0 n)
  = foldl s_add a (zip_with s_scale c z).
Proof.
  revert c z a. induction n as [|n IH]; intros c z a Hc Hz.
  - by destruct c, z.
  - destruct c as [|c0 c], z as [|z0 z]; simpl in Hc, Hz; try lia.
    cbn [seq foldl zip_with nth]. rewrite foldl_seq_shift.
    cbn [Nat.add nth]. apply IH; lia.
Qed.

(** The tap loop computes the sum the spec writes. *)
Lemma fir_sum_fir (Tn : Z) (c : list float) z :
  length c = Z.to_nat Tn -> length z = Z.to_nat Tn ->
  fir_sum Tn c z = fir c z.
Proof. intros Hc Hz. by apply tap_loop_zip. Qed.

Lemma shift_in_length (M Tn : nat) z chunk :
  length z = Tn -> length chunk = M -> (M <= Tn)%nat ->
  length (shift_in M Tn z chunk) = Tn.
Proof.
  intros Hz Hc HM. unfold shift_in.
  rewrite length_app, length_reverse, length_take. lia.
Qed.

Lemma with_p_Z_wf (M Tn : Z) d z :
  dec_wf M Tn d -> length z = Z.to_nat Tn -> dec_wf M Tn (with_p_Z d z).
Proof. intros (?&?&?&?&?&?) Hz. by repeat split. Qed.

Lemma with_p_Z_id d : with_p_Z d (p_Z d) = d.
Proof. by destruct d. Qed.

Lemma with_p_Z_twice d z z' : with_p_Z (with_p_Z d z) z' = with_p_Z d z'.
Proof. reflexivity. Qed.

Lemma fir_outputs_length (M Tn : nat) (c : list float) z (k : nat) src :
  length (fir_outputs M Tn c z k src).1 = k.
Proof.
  revert z src. induction k as [|k IH]; intros z src; [reflexivity|].
  cbn [fir_outputs]. specialize (IH (shift_in M Tn z (take M src)) (drop M src)).
  destruct (fir_outputs M Tn c _ k _) as [outs zf]. simpl in *. lia.
Qed.

Lemma fir_outputs_delay_length (M Tn : nat) (c : list float) z (k : nat) src :
  length z = Tn -> (M <= Tn)%nat -> length src = (k * M)%nat ->
  length (fir_outputs M Tn c z k src).2 = Tn.
Proof.
  revert z src. induction k as [|k IH]; intros z src Hz HM Hsrc; [done|].
  cbn [fir_outputs].
  specialize (IH (shift_in M Tn z (take M src)) (drop M src)).
  destruct (fir_outputs M Tn c _ k _) as [outs zf]. simpl in *.
  apply IH; [|done|rewrite length_drop; lia].
  apply shift_in_length; [done| |done]. rewrite length_take. lia.
Qed.

(** One pass of the [while] loop per output sample. *)
Lemma decimate_loop_Ok (M Tn : Z) (k : nat) d src out (num : Z) (bound : nat) :
  dec_wf M Tn d -> 0 < M <= Tn ->
  length src = (k * Z.to_nat M)%nat -> (length src <= bound)%nat ->
  decimate_loop bound d src out num
  = Ok (with_p_Z d (fir_outputs (Z.to_nat M) (Z.to_nat Tn) (coeff d)
                                (p_Z d) k src).2,
        out ++ (fir_outputs (Z.to_nat M) (Z.to_nat Tn) (coeff d)
                            (p_Z d) k src).1,
        num + Z.of_nat k).
Proof.
  revert d src out num bound.
  induction k as [|k IH]; intros d src out num bound Hwf HMT Hsrc Hbound.
  - destruct src; [|discriminate]. destruct bound; cbn.
    all: by rewrite with_p_Z_id, app_nil_r, Z.add_0_r.
  - destruct src as [|x src]; [simpl in Hsrc; lia|].
    destruct bound as [|bound]; [simpl in Hbound; lia|].
    cbn [decimate_loop]. unfold decimate_body.
    rewrite (shift_then_copy d (x :: src) M Tn) by (done || lia).
    rewrite bind_Ok. cbn beta iota. rewrite bind_Ok. cbn beta iota.
    set (z' := shift_in _ _ _ _).
    assert (Hz' : length z' = Z.to_nat Tn).
    { apply shift_in_length; [apply Hwf| |lia]. rewrite length_take. lia. }
    fold (with_p_Z d z').
    rewrite (IH (with_p_Z d z')).
    + cbn [fir_outputs]. fold z'. cbn [with_p_Z coeff p_Z].
      destruct (fir_outputs _ _ _ z' k _) as [outs zf]. cbn [fst snd].
      rewrite (fir_sum_fir (taps d)).
      * rewrite <- app_assoc. do 2 f_equal. lia.
      * destruct Hwf as (_ & -> & _ & _ & -> & _). done.
      * destruct Hwf as (_ & -> & _). done.
    + by apply with_p_Z_wf.
    + done.
    + rewrite length_drop. lia.
    + rewrite length_drop. cbn [length] in *. lia.
Qed.

(** [decimate] on a batch of [k * M] samples, for a decimator in a
    well-formed state. *)
Lemma decimate_wf_Ok (M Tn : Z) (k : nat) d out in_ :
  dec_wf M Tn d -> 0 < M <= Tn -> M <= INT_MAX ->
  length in_ = (k * Z.to_nat M)%nat -> Z.of_nat (length in_) <= INT_MAX ->
  decimate d out in_
  = Ok (with_p_Z d (fir_outputs (Z.to_nat M) (Z.to_nat Tn) (coeff d)
                                (p_Z d) k in_).2,
        (fir_outputs (Z.to_nat M) (Z.to_nat Tn) (coeff d) (p_Z d) k in_).1).
Proof.
  intros Hwf HMT HMmax Hlen Hmax. unfold decimate.
  assert (HM : dec_fact d = M) by apply Hwf.
  assert (HT : taps d = Tn) by apply Hwf.
  assert (Hk : Z.of_nat (length in_) = Z.of_nat k * M) by lia.
  assert (HkM : Z.of_nat k <= Z.of_nat k * M) by nia.
  unfold INT_MAX in Hmax, HMmax.
  rewrite HM, HT.
  rewrite size_t_of_small by lia.
  replace (negb (M =? 0)) with true by (symmetry; apply negb_true_iff; lia).
  cbn [assert]. rewrite bind_Ok.
  replace (Z.of_nat (length in_) mod M =? 0) with true.
  2:{ symmetry. apply Z.eqb_eq. rewrite Hk. apply Z.mod_mul. lia. }
  cbn [assert]. rewrite bind_Ok.
  replace (M <=? Tn) with true by (symmetry; apply Z.leb_le; lia).
  cbn [assert]. rewrite bind_Ok.
  rewrite (decimate_loop_Ok M Tn k) by (done || lia).
  rewrite bind_Ok. cbn beta iota.
  rewrite to_int_small by (unfold INT_MIN, INT_MAX; lia).
  replace (0 + Z.of_nat k =? Z.of_nat (length in_) ÷ M) with true; [done|].
  symmetry. apply Z.eqb_eq. rewrite Hk, Z.quot_mul; lia.
Qed.

(** A decimator with fewer taps than its factor stops at the assertion on
    the taps, whatever the batch of [k * M] samples. *)
Lemma decimate_few_taps (M : Z) (k : nat) d out in_ :
  dec_fact d = M -> 0 < M <= INT_MAX -> taps d < M ->
  length in_ = (k * Z.to_nat M)%nat ->
  decimate d out in_ = Abort AssertTaps.
Proof.
  intros HM HM0 HT Hlen. unfold decimate. rewrite HM.
  assert (Hk : Z.of_nat (length in_) = Z.of_nat k * M) by lia.
  unfold INT_MAX in HM0. rewrite size_t_of_small by lia.
  replace (negb (M =? 0)) with true by (symmetry; apply negb_true_iff; lia).
  replace (Z.of_nat (length in_) mod M =? 0) with true.
  2:{ symmetry. apply Z.eqb_eq. rewrite Hk. apply Z.mod_mul. lia. }
  replace (M <=? taps d) with false by (symmetry; apply Z.leb_gt; lia).
  reflexivity.
Qed.

Lemma copy_samples_length (n : nat) z src z' src' :
  copy_samples n z src = Ok (z', src') -> length z' = length z.
Proof.
  revert z src. induction n as [|n IH]; intros z src Hc; cbn in Hc.
  - by inversion Hc.
  - destruct src as [|x src]; [discriminate|].
    apply IH in Hc. by rewrite length_insert in Hc.
Qed.

Lemma decimate_loop_wf (M Tn : Z) (bound : nat) d src out num d' out' num' :
  dec_wf M Tn d -> M <= Tn ->
  decimate_loop bound d src out num = Ok (d', out', num') ->
  dec_wf M Tn d'.
Proof.
  intros Hwf HMT. revert d src out num Hwf.
  induction bound as [|bound IH]; intros d src out num Hwf Hloop.
  - destruct src; cbn in Hloop; [by inversion Hloop; subst|discriminate].
  - destruct src as [|x src]; cbn [decimate_loop] in Hloop.
    { by inversion Hloop; subst. }
    unfold decimate_body in Hloop.
    destruct (copy_samples _ _ _) as [[z1 src1]|e] eqn:Hcopy;
      [|discriminate].
    rewrite bind_Ok in Hloop. cbn beta iota in Hloop.
    rewrite bind_Ok in Hloop. cbn beta iota in Hloop.
    apply IH in Hloop; [done|].
    apply copy_samples_length in Hcopy.
    destruct Hwf as (HM & HT & HT0 & Hz & Hc & Hs).
    repeat split; try done. cbn [p_Z]. rewrite Hcopy.
    unfold shift_delay_line. rewrite length_app, !length_take. lia.
Qed.

Lemma decimate_wf (M Tn : Z) d out in_ d' out' :
  dec_wf M Tn d -> decimate d out in_ = Ok (d', out') -> dec_wf M Tn d'.
Proof.
  intros Hwf Hdec. unfold decimate in Hdec.
  apply bind_Ok_inv in Hdec as (? & _ & Hdec).
  apply bind_Ok_inv in Hdec as (? & _ & Hdec).
  apply bind_Ok_inv in Hdec as (? & Htaps & Hdec).
  apply assert_Ok_inv, Z.leb_le in Htaps.
  apply bind_Ok_inv in Hdec as ([[d1 out1] num1] & Hloop & Hdec).
  cbn beta iota in Hdec.
  apply bind_Ok_inv in Hdec as (? & _ & Hdec). inversion Hdec; subst.
  apply (decimate_loop_wf M Tn) in Hloop; [done..|].
  destruct Hwf as (<- & <- & _). done.
Qed.

Lemma setDecimatorParams_wf (M Tn : Z) d (table : list float) :
  0 <= Tn -> Tn <= cnt table -> dec_wf M Tn (setDecimatorParams d M table Tn).
Proof.
  unfold cnt. intros HT Htable. repeat split; cbn; try done.
  - by rewrite length_replicate.
  - rewrite length_take. lia.
  - rewrite length_take. lia.
Qed.

Lemma setGain_wf (M Tn : Z) d (g : double) :
  dec_wf M Tn d -> dec_wf M Tn (setGain d g).
Proof.
  intros (?&?&?&?&?&?). repeat split; cbn; try done.
  by rewrite length_fmap.
Qed.

Lemma constructed_wf (M Tn : Z) d : constructed M Tn d -> dec_wf M Tn d.
Proof.
  induction 1 as [table|d table| |d d' out in_ out' _ IH Hdec].
  - by apply setDecimatorParams_wf.
  - by apply setDecimatorParams_wf.
  - by apply setGain_wf.
  - by apply (decimate_wf M Tn d out in_ d' out').
Qed.

Lemma fir_outputs_lookup (M Tn : nat) (c : list float) z (k j : nat) src :
  (j < k)%nat ->
  (fir_outputs M Tn c z k src).1 !! j
  = Some (fir c (delay_line M Tn z (S j) src)).
Proof.
  revert z src j. induction k as [|k IH]; intros z src j Hj; [lia|].
  cbn [fir_outputs].
  specialize (IH (shift_in M Tn z (take M src)) (drop M src)).
  destruct (fir_outputs M Tn c _ k _) as [outs zf]. cbn [fst] in *.
  destruct j as [|j]; [reflexivity|].
  cbn [lookup list_lookup]. rewrite IH by lia. reflexivity.
Qed.

(** C1.  A decimator constructed with factor [M] and [Tn >= M] taps, given a
    batch of [k * M] samples with [k] positive (and a length an [int] can
    hold), discards what [out] held and produces exactly
    [k = in.size() / M] output samples; output [j] is the FIR sum over the
    delay line of [Tn] taps after the [M] newest input samples have been
    shifted in. *)
Theorem decimate_fir_outputs (M Tn : Z) (k : nat) d out in_ :
  constructed M Tn d -> 0 < M <= Tn -> (0 < k)%nat ->
  length in_ = (k * Z.to_nat M)%nat -> Z.of_nat (length in_) <= INT_MAX ->
  exists d' out',
    decimate d out in_ = Ok (d', out') /\
    length out' = k /\
    Z.of_nat (length out') = Z.of_nat (length in_) / M /\
    (forall j, (j < k)%nat ->
       out' !! j
       = Some (fir (coeff d)
                   (delay_line (Z.to_nat M) (Z.to_nat Tn) (p_Z d) (S j) in_))) /\
    p_Z d' = delay_line (Z.to_nat M) (Z.to_nat Tn) (p_Z d) k in_ /\
    constructed M Tn d'.
Proof.
  intros Hc HMT Hk Hlen Hmax.
  pose proof (constructed_wf M Tn d Hc) as Hwf.
  assert (HMmax : M <= INT_MAX) by (unfold INT_MAX in *; nia).
  pose proof (decimate_wf_Ok M Tn k d out in_ Hwf HMT HMmax Hlen Hmax) as Hd.
  eexists _, _. split; [exact Hd|].
  split; [apply fir_outputs_length|].
  split.
  { rewrite fir_outputs_length.
    replace (Z.of_nat (length in_)) with (Z.of_nat k * M) by lia.
    rewrite Z.div_mul; lia. }
  split; [intros j Hj; by apply fir_outputs_lookup|].
  split.
  - cbn [p_Z with_p_Z]. clear. generalize (p_Z d) as z. revert in_.
    induction k as [|k IH]; intros src z; [reflexivity|].
    cbn [fir_outputs delay_line].
    specialize (IH (drop (Z.to_nat M) src)
                   (shift_in (Z.to_nat M) (Z.to_nat Tn) z
                             (take (Z.to_nat M) src))).
    destruct (fir_outputs _ _ _ _ k _) as [outs zf]. exact IH.
  - by apply (constructed_decimate M Tn d _ out in_ _ Hc Hd).
Qed.

Lemma copy_samples_consumes (n : nat) z src z' src' :
  copy_samples n z src = Ok (z', src') -> length src = (n + length src')%nat.
Proof.
  revert z src. induction n as [|n IH]; intros z src Hc; cbn in Hc.
  - by inversion Hc.
  - destruct src as [|x src]; [discriminate|].
    apply IH in Hc. cbn. lia.
Qed.

Lemma copy_samples_abort (n : nat) z src (e : abort) :
  copy_samples n z src = Abort e -> e = AssertSrc.
Proof.
  revert z src. induction n as [|n IH]; intros z src Hc; cbn in Hc.
  - discriminate.
  - destruct src as [|x src]; [by inversion Hc|]. by eapply IH.
Qed.

(** The bound given to the [while] loop is enough: every pass takes
    [dec_fact >= 1] samples from the input. *)
Lemma decimate_loop_bounded (bound : nat) d src out (num : Z) :
  0 < dec_fact d -> (length src <= bound)%nat ->
  decimate_loop bound d src out num <> Abort LoopBound.
Proof.
  revert d src out num.
  induction bound as [|bound IH]; intros d src out num Hd Hb.
  - destruct src; [done|]. cbn in Hb. lia.
  - destruct src as [|x src]; [done|]. cbn [decimate_loop].
    unfold decimate_body.
    destruct (copy_samples _ _ _) as [[z1 src1]|e] eqn:Hcopy.
    + rewrite bind_Ok. cbn beta iota. rewrite bind_Ok. cbn beta iota.
      apply copy_samples_consumes in Hcopy.
      apply IH; [done|]. cbn [length] in *. lia.
    + rewrite !bind_Abort. apply copy_samples_abort in Hcopy. by subst e.
Qed.

(** [decimate] returns or stops at an assertion, whatever the decimator and
    the batch (of a size a vector can have). *)
Lemma decimate_terminates d out in_ :
  INT_MIN <= dec_fact d <= INT_MAX -> Z.of_nat (length in_) < 2 ^ 63 ->
  decimate d out in_ <> Abort LoopBound.
Proof.
  unfold INT_MIN, INT_MAX. intros Hd Hlen. unfold decimate.
  destruct (size_t_of (dec_fact d) =? 0) eqn:Hm0; [done|].
  cbn [negb assert]. rewrite bind_Ok.
  destruct (Z.of_nat (length in_) mod size_t_of (dec_fact d) =? 0) eqn:Hmod;
    [|done].
  cbn [assert]. rewrite bind_Ok.
  destruct (dec_fact d <=? taps d); [|done]. cbn [assert]. rewrite bind_Ok.
  assert (Hloop : decimate_loop (length in_) d in_ [] 0 <> Abort LoopBound).
  { destruct (Z_lt_le_dec 0 (dec_fact d)) as [Hpos|Hneg].
    - by apply decimate_loop_bounded.
    - apply Z.eqb_neq in Hm0. apply Z.eqb_eq in Hmod. unfold size_t_of in *.
      assert (Hne : dec_fact d <> 0) by (intros E; rewrite E in Hm0; done).
      assert (Hm : dec_fact d mod 2 ^ 64 = dec_fact d + 2 ^ 64).
      { symmetry. apply Z.mod_unique_pos with (q := -1); lia. }
      rewrite Hm in Hmod. rewrite Z.mod_small in Hmod by lia.
      destruct in_; [done|]. cbn in Hmod. lia. }
  destruct (decimate_loop _ _ _ _ _) as [[[d1 out1] num1]|e].
  - rewrite bind_Ok. cbn beta iota. by destruct (num1 =? _).
  - rewrite bind_Abort. intros E. apply Hloop. by inversion E.
Qed.

End DecimatorFacts.

(** The decimator [ExactInt.dec3] on the batch 1, 2, 3, 4. *)
Example decimate_dec3 :
  (decimate ExactInt.dec3 [7] [1; 2; 3; 4]) ≫= (fun r => Ok r.2) = Ok [4; 16].
Proof. reflexivity. Qed.

Lemma decimate_fir_outputs_witness :
  exists d' out',
    decimate ExactInt.dec3 [7] [1; 2; 3; 4] = Ok (d', out') /\
    length out' = 2%nat /\
    Z.of_nat (length out') = Z.of_nat (length [1; 2; 3; 4]) / 2 /\
    (forall j, (j < 2)%nat ->
       out' !! j
       = Some (fir (coeff ExactInt.dec3)
                   (delay_line (Z.to_nat 2) (Z.to_nat 3) (p_Z ExactInt.dec3)
                               (S j) [1; 2; 3; 4]))) /\
    p_Z d' = delay_line (Z.to_nat 2) (Z.to_nat 3) (p_Z ExactInt.dec3) 2
                        [1; 2; 3; 4] /\
    constructed 2 3 d'.
Proof.
  apply (@decimate_fir_outputs ExactInt.arith Z _ 2 3 2 ExactInt.dec3 [7]
           [1; 2; 3; 4]).
  - apply constructed_new; [lia | unfold cnt; simpl; lia].
  - lia.
  - lia.
  - reflexivity.
  - unfold INT_MAX. simpl. lia.
Defined.

(** ** Cascades *)

Section CascadeFacts.
Context `{Arith} {T : Type} `{!Sample T} {Id : Type} `{!EqDecision Id}.
Implicit Types (p : Id -> Decimator T) (ids : list Id).
Variables (factor ntaps : Id -> Z).

(** Each of the five cascade classes runs its stages in order. *)
Lemma decimate_chain (ms : DecimatorMS.t Id) p out in_ :
  DecimatorMS.decimate ms p out in_ = chain (DecimatorMS.stages ms) p in_.
Proof.
  assert (Hout : forall p d i,
             DecimatorMS.stage p d out i = DecimatorMS.stage p d [] i)
    by reflexivity.
  destruct ms; cbn [DecimatorMS.decimate DecimatorMS.stages chain].
  all: repeat (rewrite ?Hout;
               destruct (DecimatorMS.stage _ _ [] _) as [[? ?]|?];
               rewrite ?bind_Ok, ?bind_Abort; cbn beta iota; try done).
Qed.

(** The factor of a cascade is the product of the factors of its stages. *)
Lemma decFact_product (ms : DecimatorMS.t Id) p :
  DecimatorMS.decFact ms p = factor_product p (DecimatorMS.stages ms).
Proof.
  destruct ms; unfold factor_product; cbn; lia.
Qed.

Lemma factor_product_wf p ids :
  pool_wf factor ntaps p ->
  factor_product p ids = foldr Z.mul 1 (factor <$> ids).
Proof.
  intros Hp. unfold factor_product. induction ids as [|d ids IH]; [done|].
  cbn. rewrite IH. unfold decFact. by destruct (Hp d) as (-> & _).
Qed.

Lemma stage_wf p d out in_ p' out' :
  pool_wf factor ntaps p -> DecimatorMS.stage p d out in_ = Ok (p', out') ->
  pool_wf factor ntaps p'.
Proof.
  intros Hp Hs. unfold DecimatorMS.stage in Hs.
  apply bind_Ok_inv in Hs as ([d1 out1] & Hdec & Hs). inversion Hs; subst.
  intros d'. destruct (decide (d = d')) as [<-|Hne].
  - rewrite fn_lookup_insert. by eapply decimate_wf.
  - by rewrite fn_lookup_insert_ne.
Qed.

Lemma chain_wf ids p in_ p' out' :
  pool_wf factor ntaps p -> chain ids p in_ = Ok (p', out') ->
  pool_wf factor ntaps p'.
Proof.
  revert p in_. induction ids as [|d ids IH]; intros p in_ Hp Hc.
  - by injection Hc as <- <-.
  - cbn [chain] in Hc.
    apply bind_Ok_inv in Hc as ([p1 s1] & Hs & Hc).
    eapply IH; [|exact Hc]. by eapply stage_wf.
Qed.

(** A stage given a multiple of its factor produces one sample per group,
    unless its decimator has fewer taps than its factor. *)
Lemma stage_run p d out in_ (k : Z) :
  pool_wf factor ntaps p -> 0 < factor d <= INT_MAX -> 0 <= k ->
  Z.of_nat (length in_) = k * factor d -> Z.of_nat (length in_) <= INT_MAX ->
  (factor d <= ntaps d ->
   exists p' out', DecimatorMS.stage p d out in_ = Ok (p', out') /\
                   pool_wf factor ntaps p' /\ Z.of_nat (length out') = k) /\
  (ntaps d < factor d -> DecimatorMS.stage p d out in_ = Abort AssertTaps).
Proof.
  intros Hp Hf Hk Hlen Hmax.
  assert (Hlen' : length in_ = (Z.to_nat k * Z.to_nat (factor d))%nat) by nia.
  split; intros Ht.
  - pose proof (decimate_wf_Ok (factor d) (ntaps d) (Z.to_nat k) (p d) out in_
                  (Hp d) ltac:(lia) ltac:(lia) Hlen' Hmax) as Hd.
    eexists _, _. split; [|split].
    + unfold DecimatorMS.stage. rewrite Hd. reflexivity.
    + eapply stage_wf; [exact Hp|].
      unfold DecimatorMS.stage. rewrite Hd. reflexivity.
    + rewrite fir_outputs_length. lia.
  - unfold DecimatorMS.stage.
    rewrite (decimate_few_taps (factor d) (Z.to_nat k)); try done.
    + apply (Hp d).
    + destruct (Hp d) as (_ & -> & _). done.
Qed.

Lemma factors_positive ids :
  Forall (fun d => 0 < factor d <= INT_MAX) ids ->
  0 < foldr Z.mul 1 (factor <$> ids).
Proof. induction 1; cbn; [lia|nia]. Qed.

(** A chain given a multiple of the product of its factors: every stage
    receives a multiple of its own factor.  The run ends with one sample
    per group, or at a decimator that has fewer taps than its factor. *)
Lemma chain_run ids p in_ (k : Z) :
  pool_wf factor ntaps p ->
  Forall (fun d => 0 < factor d <= INT_MAX) ids -> 0 <= k ->
  Z.of_nat (length in_) = k * foldr Z.mul 1 (factor <$> ids) ->
  Z.of_nat (length in_) <= INT_MAX ->
  (exists p' out', chain ids p in_ = Ok (p', out') /\
                   pool_wf factor ntaps p' /\ Z.of_nat (length out') = k) \/
  (chain ids p in_ = Abort AssertTaps /\
   Exists (fun d => ntaps d < factor d) ids).
Proof.
  revert p in_ k. induction ids as [|d ids IH]; intros p in_ k Hp Hf Hk Hlen Hmax.
  - left. exists p, in_. cbn in *. split; [done|]. split; [done|lia].
  - inversion Hf as [|? ? Hd Hids]; subst. cbn [fmap list_fmap foldr] in Hlen.
    pose proof (factors_positive ids Hids) as Hpos.
    set (P := foldr Z.mul 1 (factor <$> ids)) in *.
    destruct (stage_run p d [] in_ (k * P) Hp Hd ltac:(nia) ltac:(lia) Hmax)
      as [Hok Hfew].
    destruct (Z_le_gt_dec (factor d) (ntaps d)) as [Hle|Hgt].
    + destruct (Hok Hle) as (p1 & s1 & Hs & Hp1 & Hlen1).
      cbn [chain]. rewrite Hs, bind_Ok. cbn beta iota.
      destruct (IH p1 s1 k Hp1 Hids Hk Hlen1 ltac:(nia)) as [Hgood|[Hbad Hex]].
      * by left.
      * right. split; [done|]. by apply Exists_cons_tl.
    + right. cbn [chain]. rewrite Hfew by lia. split; [done|].
      apply Exists_cons_hd. lia.
Qed.

Lemma chain_run_Ok ids p in_ (k : Z) :
  pool_wf factor ntaps p ->
  Forall (fun d => 0 < factor d <= INT_MAX) ids -> 0 <= k ->
  Forall (fun d => factor d <= ntaps d) ids ->
  Z.of_nat (length in_) = k * foldr Z.mul 1 (factor <$> ids) ->
  Z.of_nat (length in_) <= INT_MAX ->
  exists p' out', chain ids p in_ = Ok (p', out') /\
                  pool_wf factor ntaps p' /\ Z.of_nat (length out') = k.
Proof.
  intros Hp Hf Hk Ht Hlen Hmax.
  destruct (chain_run ids p in_ k Hp Hf Hk Hlen Hmax) as [Hok|[_ Hex]];
    [done|].
  exfalso. apply Exists_exists in Hex as (d & Hin & Hlt).
  rewrite Forall_forall in Ht. specialize (Ht d Hin). lia.
Qed.

End CascadeFacts.

Section CascadeStages.
Context `{Arith} {T : Type} `{!Sample T} {Id : Type} `{!EqDecision Id}.
Implicit Types (p : Id -> Decimator T) (ids : list Id).
Variables (factor ntaps : Id -> Z).

Lemma chain_app ids1 ids2 p in_ :
  chain (ids1 ++ ids2) p in_
  = chain ids1 p in_ ≫= (fun '(p1, s1) => chain ids2 p1 s1).
Proof.
  revert p in_. induction ids1 as [|d ids1 IH]; intros p in_; [done|].
  cbn [app chain]. destruct (DecimatorMS.stage p d [] in_) as [[p1 s1]|e];
    [|done].
  rewrite !bind_Ok. cbn beta iota. apply IH.
Qed.

Lemma factors_app ids1 ids2 :
  foldr Z.mul 1 (factor <$> ids1 ++ ids2)
  = foldr Z.mul 1 (factor <$> ids1) * foldr Z.mul 1 (factor <$> ids2).
Proof. induction ids1 as [|d ids1 IH]; cbn; [lia|]. rewrite IH. lia. Qed.

(** The input a stage of a chain receives, when the chain is given a
    multiple of the product of its factors, is a multiple of the factor of
    that stage. *)
Lemma chain_stage_input pre d post p in_ (k : Z) p1 s1 :
  pool_wf factor ntaps p ->
  Forall (fun d => 0 < factor d <= INT_MAX) (pre ++ d :: post) -> 0 <= k ->
  Z.of_nat (length in_) = k * foldr Z.mul 1 (factor <$> pre ++ d :: post) ->
  Z.of_nat (length in_) <= INT_MAX ->
  chain pre p in_ = Ok (p1, s1) ->
  dec_fact (p1 d) = factor d /\
  Z.of_nat (length s1) mod size_t_of (dec_fact (p1 d)) = 0.
Proof.
  intros Hp Hf Hk Hlen Hmax Hpre.
  apply Forall_app in Hf as [Hf1 Hf2].
  pose proof (factors_positive factor _ Hf2) as Hpos2.
  inversion Hf2 as [|? ? Hd Hpost]; subst.
  pose proof (factors_positive factor _ Hpost) as Hpos3.
  rewrite factors_app in Hlen. cbn [fmap list_fmap foldr] in Hlen, Hpos2.
  set (P := foldr Z.mul 1 (factor <$> post)) in *.
  destruct (chain_run factor ntaps pre p in_ (k * (factor d * P)) Hp Hf1
              ltac:(nia) ltac:(lia) Hmax)
    as [(p' & out' & Hc & Hp' & Hlen')|[Hc _]]; [|congruence].
  rewrite Hpre in Hc. inversion Hc; subst p' out'.
  destruct (Hp' d) as (Hfd & _). split; [done|]. rewrite Hfd.
  unfold INT_MAX in Hd. rewrite size_t_of_small by lia.
  rewrite Hlen'. replace (k * (factor d * P)) with (k * P * factor d) by lia.
  apply Z.mod_mul. lia.
Qed.

End CascadeStages.

(** ** The channelizers *)

Section Channelizer960Facts.
Context `{Arith} `{!ComplexArith} (fc : FilterCoeffs).
Import Channelizer960.
Local Abbreviation ntaps := (fun m => cnt (Spec960.table fc m)).

Lemma members960_wf : pool_wf Spec960.factor ntaps (members fc).
Proof.
  intros m. destruct m; cbn [members Spec960.factor Spec960.table].
  all: apply setDecimatorParams_wf; unfold cnt; lia.
Qed.

Lemma reachable960_wf (c : t) :
  Spec960.reachable fc c -> pool_wf Spec960.factor ntaps (decs c).
Proof.
  induction 1 as [|c bw _ IH|c c' out in_ out' _ IH Hiq].
  - apply members960_wf.
  - exact IH.
  - unfold iq_received in Hiq. destruct (dec c) as [ms|]; [|discriminate].
    apply bind_Ok_inv in Hiq as ([p1 s1] & Hd & Hiq). inversion Hiq; subst.
    rewrite decimate_chain in Hd. cbn [decs]. by eapply chain_wf.
Qed.

Lemma factors960_positive (ids : list member) :
  Forall (fun d => 0 < Spec960.factor d <= INT_MAX) ids.
Proof.
  apply Forall_forall. intros m _. unfold INT_MAX. destruct m; cbn; lia.
Qed.

(** The cascade [setBw] selects, and the product of its factors. *)
Lemma setBw960_stages (c : t) (bw : Bandwidth) :
  exists ms, dec (setBw c bw) = Some ms /\
             foldr Z.mul 1 (Spec960.factor <$> DecimatorMS.stages ms)
             = Spec960.overall bw.
Proof. destruct bw; eexists; (split; [reflexivity|]); reflexivity. Qed.

End Channelizer960Facts.

Section Channelizer2400Facts.
Context `{Arith} `{!ComplexArith} (fc : FilterCoeffs).
Import Channelizer2400.
Local Abbreviation ntaps := (fun m => cnt (Spec2400.table fc m)).

Lemma members2400_wf : pool_wf Spec2400.factor ntaps (members fc).
Proof.
  intros m. destruct m; cbn [members Spec2400.factor Spec2400.table].
  all: apply setDecimatorParams_wf; unfold cnt; lia.
Qed.

Lemma reachable2400_wf (p : member -> Decimator complex) :
  Spec2400.reachable fc p -> pool_wf Spec2400.factor ntaps p.
Proof.
  induction 1 as [|p p' bw out in_ out' _ IH Hd].
  - apply members2400_wf.
  - rewrite decimate_chain in Hd. by eapply chain_wf.
Qed.

Lemma factors2400_positive (ids : list member) :
  Forall (fun d => 0 < Spec2400.factor d <= INT_MAX) ids.
Proof.
  apply Forall_forall. intros m _. unfold INT_MAX. destruct m; cbn; lia.
Qed.

(** The product of the factors of the cascade of a bandwidth. *)
Lemma cascade2400_stages (bw : Bandwidth) :
  foldr Z.mul 1 (Spec2400.factor <$> DecimatorMS.stages (cascade bw))
  = Spec2400.overall bw.
Proof. by destruct bw. Qed.

(** [setBw], when it returns. *)
Lemma setBw2400_Ok (c c' : t) (bw : Bandwidth) :
  setBw c bw = Ok c' ->
  dec c <> Uninitialized /\ decs c' = decs c /\ dec c' = Object (cascade bw).
Proof.
  unfold setBw. destruct (dec c); [discriminate| |];
    intros Hset; injection Hset as <-; done.
Qed.

Lemma setBw2400_initialized (c : t) (bw : Bandwidth) :
  dec c <> Uninitialized ->
  setBw c bw = Ok {| decs := decs c; dec := Object (cascade bw) |}.
Proof. unfold setBw. by destruct (dec c). Qed.

(** The constructor deletes the pointer it has not initialized. *)
Lemma new2400_undefined : new fc = Abort Undefined.
Proof. reflexivity. Qed.

End Channelizer2400Facts.

Section ChannelizerTheorems.
Context `{Arith} `{!ComplexArith} (fc : FilterCoeffs).

Lemma decFact960 (c : Channelizer960.t) (bw : Bandwidth) :
  Spec960.reachable fc c ->
  exists ms,
    Channelizer960.dec (Channelizer960.setBw c bw) = Some ms /\
    Channelizer960.decFact (Channelizer960.setBw c bw)
    = Ok (factor_product (Channelizer960.decs (Channelizer960.setBw c bw))
                         (DecimatorMS.stages ms)) /\
    Channelizer960.decFact (Channelizer960.setBw c bw)
    = Ok (Spec960.overall bw).
Proof.
  intros Hr. destruct (setBw960_stages c bw) as (ms & Hms & Hprod).
  pose proof (reachable960_wf fc c Hr) as Hwf.
  exists ms. split; [done|]. unfold Channelizer960.decFact. rewrite Hms.
  rewrite decFact_product. split; [done|].
  cbn [Channelizer960.decs Channelizer960.setBw].
  by rewrite (factor_product_wf _ _ _ _ Hwf), Hprod.
Qed.

Lemma decFact2400 (c c' : Channelizer2400.t) (bw : Bandwidth) :
  Spec2400.reachable fc (Channelizer2400.decs c) ->
  Channelizer2400.setBw c bw = Ok c' ->
  Channelizer2400.dec c' = Object (Channelizer2400.cascade bw) /\
  Channelizer2400.decs c' = Channelizer2400.decs c /\
  Channelizer2400.decFact c'
  = Ok (factor_product (Channelizer2400.decs c')
                       (DecimatorMS.stages (Channelizer2400.cascade bw))) /\
  Channelizer2400.decFact c' = Ok (Spec2400.overall bw).
Proof.
  intros Hr Hset. apply setBw2400_Ok in Hset as (_ & Hdecs & Hdec).
  pose proof (reachable2400_wf fc _ Hr) as Hwf.
  split; [done|]. split; [done|]. unfold Channelizer2400.decFact.
  rewrite Hdec, decFact_product. split; [done|].
  by rewrite Hdecs, (factor_product_wf _ _ _ _ Hwf), cascade2400_stages.
Qed.

Lemma chSampRate960 (c : Channelizer960.t) (bw : Bandwidth) :
  Spec960.reachable fc c ->
  Channelizer960.chSampRate (Channelizer960.setBw c bw)
  = Ok (960000 / Spec960.overall bw).
Proof.
  intros Hr. destruct (decFact960 c bw Hr) as (ms & _ & _ & Hf).
  unfold Channelizer960.chSampRate. rewrite Hf. by destruct bw.
Qed.

Lemma chSampRate2400 (c c' : Channelizer2400.t) (bw : Bandwidth) :
  Spec2400.reachable fc (Channelizer2400.decs c) ->
  Channelizer2400.setBw c bw = Ok c' ->
  Channelizer2400.chSampRate c' = Ok (2400000 / Spec2400.overall bw).
Proof.
  intros Hr Hset. destruct (decFact2400 c c' bw Hr Hset) as (_ & _ & _ & Hf).
  unfold Channelizer2400.chSampRate. rewrite Hf. by destruct bw.
Qed.

(** C2.  For every bandwidth mode of both channelizers, whatever state the
    member decimators are in, the cascade [setBw] selects has as its
    decimation factor the product of the factors of its stages, this is the
    value of the spec table (960 kHz tuner: 5, 30, 60, 60; 2.4 MHz tuner:
    15, 75, 150, 150), and [chSampRate()] times that factor is the tuner
    rate, 960000 or 2400000, exactly.  For the 960 kHz channelizer the
    states are those the constructor and the functions of the class lead
    to.  For the 2.4 MHz channelizer they are those in which [setBw]
    returns, which are those whose pointer [dec] holds null or a cascade:
    [setBw] begins with [delete dec].  The constructor of the 2.4 MHz
    channelizer is not among them: it has no initializer for [dec], and the
    [setBw(BW_20K)] of its body deletes the pointer as it finds it. *)
Theorem setBw_decimation_table (bw : Bandwidth) :
  (forall c : Channelizer960.t, Spec960.reachable fc c ->
     exists ms r,
       Channelizer960.dec (Channelizer960.setBw c bw) = Some ms /\
       Channelizer960.decFact (Channelizer960.setBw c bw)
       = Ok (factor_product (Channelizer960.decs (Channelizer960.setBw c bw))
                            (DecimatorMS.stages ms)) /\
       Channelizer960.decFact (Channelizer960.setBw c bw)
       = Ok (Spec960.overall bw) /\
       Channelizer960.chSampRate (Channelizer960.setBw c bw) = Ok r /\
       r * Spec960.overall bw = 960000) /\
  (forall c c' : Channelizer2400.t,
     Spec2400.reachable fc (Channelizer2400.decs c) ->
     Channelizer2400.setBw c bw = Ok c' ->
     exists ms r,
       Channelizer2400.dec c' = Object ms /\
       Channelizer2400.decs c' = Channelizer2400.decs c /\
       Channelizer2400.decFact c'
       = Ok (factor_product (Channelizer2400.decs c') (DecimatorMS.stages ms)) /\
       Channelizer2400.decFact c' = Ok (Spec2400.overall bw) /\
       Channelizer2400.chSampRate c' = Ok r /\
       r * Spec2400.overall bw = 2400000) /\
  (forall c : Channelizer2400.t,
     (exists c', Channelizer2400.setBw c bw = Ok c')
     <-> Channelizer2400.dec c <> Uninitialized) /\
  Channelizer2400.setBw
    {| Channelizer2400.decs := Channelizer2400.members fc;
       Channelizer2400.dec := Uninitialized |} bw = Abort Undefined /\
  Channelizer2400.new fc = Abort Undefined.
Proof.
  split; [|split; [|split; [|split; reflexivity]]].
  - intros c Hr. destruct (decFact960 c bw Hr) as (ms & Hms & Hprod & Hf).
    exists ms, (960000 / Spec960.overall bw).
    repeat split; try done; [by apply chSampRate960|by destruct bw].
  - intros c c' Hr Hset.
    destruct (decFact2400 c c' bw Hr Hset) as (Hms & Hdecs & Hprod & Hf).
    exists (Channelizer2400.cascade bw), (2400000 / Spec2400.overall bw).
    repeat split; try done; [by eapply chSampRate2400|by destruct bw].
  - intros c. split.
    + intros [c' Hset]. by apply setBw2400_Ok in Hset as (Hinit & _).
    + intros Hinit. eexists. by apply setBw2400_initialized.
Qed.

(** C8.  For every cascade either channelizer selects and every batch
    whose length is a positive multiple of the overall decimation factor
    of the cascade (and that an [int] can hold): the input every stage of
    the cascade receives has a length that is a multiple of the factor of
    that stage, so the run never stops at the assertion
    [in.size() % dec_fact == 0]; and when no coefficient table is shorter
    than the factor of its decimator the run completes, with one output
    sample per group.  The cascades of the 2.4 MHz channelizer are those
    of the [switch] of its [setBw], over its member decimators in any state
    the constructors of the members and the runs of the cascades lead to;
    they are what [iq_received] runs wherever [setBw] has returned. *)
Theorem cascade_batch_lengths (bw : Bandwidth) (out in_ : list complex)
    (k : Z) :
  (forall c : Channelizer960.t, Spec960.reachable fc c ->
     0 < k -> Z.of_nat (length in_) = k * Spec960.overall bw ->
     Z.of_nat (length in_) <= INT_MAX ->
     exists ms,
       Channelizer960.dec (Channelizer960.setBw c bw) = Some ms /\
       (forall pre d post p1 s1,
          DecimatorMS.stages ms = pre ++ d :: post ->
          chain pre (Channelizer960.decs c) in_ = Ok (p1, s1) ->
          Z.of_nat (length s1) mod size_t_of (dec_fact (p1 d)) = 0) /\
       Channelizer960.iq_received (Channelizer960.setBw c bw) out in_
       <> Abort AssertBatchLen /\
       ((forall m, Spec960.factor m <= cnt (Spec960.table fc m)) ->
        exists c' out',
          Channelizer960.iq_received (Channelizer960.setBw c bw) out in_
          = Ok (c', out') /\ Z.of_nat (length out') = k)) /\
  (forall p : Channelizer2400.member -> Decimator complex,
     Spec2400.reachable fc p ->
     0 < k -> Z.of_nat (length in_) = k * Spec2400.overall bw ->
     Z.of_nat (length in_) <= INT_MAX ->
     (forall pre d post p1 s1,
        DecimatorMS.stages (Channelizer2400.cascade bw) = pre ++ d :: post ->
        chain pre p in_ = Ok (p1, s1) ->
        Z.of_nat (length s1) mod size_t_of (dec_fact (p1 d)) = 0) /\
     DecimatorMS.decimate (Channelizer2400.cascade bw) p out in_
     <> Abort AssertBatchLen /\
     ((forall m, Spec2400.factor m <= cnt (Spec2400.table fc m)) ->
      exists p' out',
        DecimatorMS.decimate (Channelizer2400.cascade bw) p out in_
        = Ok (p', out') /\ Z.of_nat (length out') = k) /\
     (forall c c1 : Channelizer2400.t,
        Channelizer2400.decs c = p -> Channelizer2400.setBw c bw = Ok c1 ->
        Channelizer2400.dec c1 = Object (Channelizer2400.cascade bw) /\
        Channelizer2400.iq_received c1 out in_
        = DecimatorMS.decimate (Channelizer2400.cascade bw) p out in_
          ≫= (fun '(p', out') =>
                Ok ({| Channelizer2400.decs := p';
                       Channelizer2400.dec :=
                         Object (Channelizer2400.cascade bw) |}, out')))).
Proof.
  split.
  - intros c Hr Hk Hlen Hmax.
    destruct (setBw960_stages c bw) as (ms & Hms & Hprod).
    pose proof (reachable960_wf fc c Hr) as Hwf.
    rewrite <- Hprod in Hlen.
    exists ms. split; [done|]. split; [|split].
    + intros pre d post p1 s1 Hst Hpre. rewrite Hst in Hlen.
      by destruct (chain_stage_input _ _ pre d post _ in_ k p1 s1 Hwf
                     (factors960_positive _) ltac:(lia) Hlen Hmax Hpre)
        as [_ Hmod].
    + unfold Channelizer960.iq_received. rewrite Hms, decimate_chain.
      cbn [Channelizer960.decs Channelizer960.setBw].
      destruct (chain_run _ _ (DecimatorMS.stages ms) _ in_ k Hwf
                  (factors960_positive _) ltac:(lia) Hlen Hmax)
        as [(p' & out' & -> & _)|[-> _]]; done.
    + intros Htaps.
      destruct (chain_run_Ok _ _ (DecimatorMS.stages ms) _ in_ k Hwf
                  (factors960_positive _) ltac:(lia)
                  ltac:(apply Forall_forall; intros m _; apply Htaps)
                  Hlen Hmax) as (p' & out' & Hc & _ & Hlen').
      unfold Channelizer960.iq_received. rewrite Hms, decimate_chain.
      cbn [Channelizer960.decs Channelizer960.setBw]. rewrite Hc.
      by eexists _, _.
  - intros p Hr Hk Hlen Hmax.
    pose proof (reachable2400_wf fc _ Hr) as Hwf.
    rewrite <- (cascade2400_stages bw) in Hlen.
    split; [|split; [|split]].
    + intros pre d post p1 s1 Hst Hpre. rewrite Hst in Hlen.
      by destruct (chain_stage_input _ _ pre d post _ in_ k p1 s1 Hwf
                     (factors2400_positive _) ltac:(lia) Hlen Hmax Hpre)
        as [_ Hmod].
    + rewrite decimate_chain.
      destruct (chain_run _ _ (DecimatorMS.stages (Channelizer2400.cascade bw))
                  _ in_ k Hwf (factors2400_positive _) ltac:(lia) Hlen Hmax)
        as [(p' & out' & -> & _)|[-> _]]; done.
    + intros Htaps.
      destruct (chain_run_Ok _ _ (DecimatorMS.stages (Channelizer2400.cascade bw))
                  _ in_ k Hwf (factors2400_positive _) ltac:(lia)
                  ltac:(apply Forall_forall; intros m _; apply Htaps)
                  Hlen Hmax) as (p' & out' & Hc & _ & Hlen').
      rewrite decimate_chain, Hc. by eexists _, _.
    + intros c c1 Hdecs Hset.
      apply setBw2400_Ok in Hset as (_ & Hd & Hms). split; [done|].
      unfold Channelizer2400.iq_received. by rewrite Hms, Hd, Hdecs.
Qed.

End ChannelizerTheorems.

(** ** The translator *)

Section TranslateFacts.
Context `{Arith} `{!ComplexArith}.
Import Translate.

(** The recursive [gcd] computes the greatest common divisor, for any
    dividend and any divisor other than zero. *)
Lemma gcd_Z_gcd (dividend divisor : Z) :
  0 < divisor -> gcd dividend divisor = Ok (Z.gcd dividend divisor).
Proof.
  funelim (gcd dividend divisor); intros Hpos; try lia.
  - (* the remainder is zero *)
    f_equal. symmetry. rewrite Z.gcd_comm.
    apply Z.divide_gcd_iff; [lia|]. apply Z.mod_divide; [lia|done].
  - (* recursive call on (divisor, remainder) *)
    pose proof (Z.mod_pos_bound dividend divisor Hpos) as Hr.
    match goal with IH : _ -> gcd _ _ = Ok (Z.gcd _ _) |- _ =>
      rewrite IH by lia end.
    f_equal. rewrite Z.gcd_comm, Z.gcd_mod by lia. apply Z.gcd_comm.
Qed.

Lemma lut_period_bounds (R f : Z) :
  0 < R -> f <> 0 -> 1 <= lut_period R f <= R.
Proof.
  intros HR Hf. unfold lut_period.
  pose proof (Z.gcd_nonneg R (Z.abs f)) as Hg0.
  pose proof (Z.gcd_divide_l R (Z.abs f)) as [q Hq].
  assert (Hg : 0 < Z.gcd R (Z.abs f)).
  { destruct (Z.eq_dec (Z.gcd R (Z.abs f)) 0) as [E|]; [|lia].
    apply Z.gcd_eq_0_l in E. lia. }
  rewrite Hq at 1 3. rewrite Z.div_mul by lia. nia.
Qed.

(** [setOffset] with an offset other than zero. *)
Lemma setOffset_nonzero (tr : t) (f : Z) :
  f <> 0 -> INT_MIN < f <= INT_MAX ->
  setOffset tr f
  = Ok {| samp_rate := samp_rate tr;
          exp_lut := lut_entry f (samp_rate tr)
                       <$> seqZ 0 (lut_period (samp_rate tr) f);
          n := 0 |}.
Proof.
  unfold INT_MIN, INT_MAX. intros Hf Hrange. unfold setOffset.
  replace (f =? 0) with false by (symmetry; apply Z.eqb_neq; lia).
  replace (f =? INT_MIN) with false
    by (symmetry; apply Z.eqb_neq; unfold INT_MIN; lia).
  cbn [negb assert]. rewrite bind_Ok.
  rewrite to_unsigned_small by lia.
  rewrite gcd_Z_gcd by lia. reflexivity.
Qed.

(** [setOffset(0)] *)
Lemma setOffset_zero (tr : t) :
  setOffset tr 0 = Ok {| samp_rate := samp_rate tr; exp_lut := []; n := 0 |}.
Proof. reflexivity. Qed.

Lemma lut_lookup (R f i : Z) :
  0 <= i < lut_period R f ->
  (lut_entry f R <$> seqZ 0 (lut_period R f)) !! Z.to_nat i
  = Some (lut_entry f R i).
Proof.
  intros Hi. rewrite list_lookup_fmap, lookup_seqZ_lt by lia.
  cbn [fmap option_fmap option_map]. by rewrite Z.add_0_l, Z2Nat.id by lia.
Qed.

(** The sample loop: each sample is multiplied by the table entry at the
    phase index, which then advances by one, modulo the table length. *)
Lemma translate_loop_Ok (lut : list complex) (n0 : Z) (out in_ : list complex) :
  let N := Z.of_nat (length lut) in
  N < 2 ^ 32 -> 0 <= n0 < N ->
  exists out',
    translate_loop lut n0 out in_
    = Ok ((n0 + Z.of_nat (length in_)) mod N, out ++ out') /\
    length out' = length in_ /\
    forall (k : nat) x, in_ !! k = Some x ->
      exists e, lut !! Z.to_nat ((n0 + Z.of_nat k) mod N) = Some e /\
                out' !! k = Some (c_mul x e).
Proof.
  intros N HN. revert n0 out.
  induction in_ as [|x rest IH]; intros n0 out Hn0.
  - exists []. cbn. rewrite Z.add_0_r, Z.mod_small, app_nil_r by lia.
    repeat split. intros k x Hk. by rewrite lookup_nil in Hk.
  - cbn [translate_loop].
    destruct (lut !! Z.to_nat n0) as [e|] eqn:He.
    2:{ apply lookup_ge_None in He. lia. }
    rewrite to_unsigned_small by lia. fold N.
    set (n2 := if n0 + 1 =? N then 0 else n0 + 1).
    assert (Hn2 : n2 = (n0 + 1) mod N).
    { unfold n2. destruct (Z.eqb_spec (n0 + 1) N) as [->|Hne].
      - by rewrite Z.mod_same by lia.
      - by rewrite Z.mod_small by lia. }
    assert (Hn2' : 0 <= n2 < N) by (rewrite Hn2; apply Z.mod_pos_bound; lia).
    destruct (IH n2 (out ++ [c_mul x e]) Hn2') as (out' & Hloop & Hlen & Hidx).
    exists (c_mul x e :: out'). rewrite Hloop. split; [|split].
    + rewrite <- app_assoc. cbn [app length]. do 2 f_equal.
      rewrite Hn2, Zplus_mod_idemp_l. f_equal. lia.
    + cbn. by rewrite Hlen.
    + intros [|k] y Hk; cbn in Hk.
      * inversion Hk; subst y. exists e. split; [|done].
        rewrite Z.add_0_r, Z.mod_small by lia. done.
      * destruct (Hidx k y Hk) as (e' & He' & Hout). exists e'.
        split; [|done]. rewrite <- He'. do 2 f_equal.
        rewrite Hn2, Zplus_mod_idemp_l. f_equal. lia.
Qed.

(** What [tuned] guarantees of the state. *)
Lemma tuned_inv (R f : Z) (tr : t) :
  0 < R < 2 ^ 32 -> INT_MIN < f <= INT_MAX -> tuned R f tr ->
  samp_rate tr = R /\
  (f = 0 -> exp_lut tr = [] /\ n tr = 0) /\
  (f <> 0 -> exp_lut tr = lut_entry f R <$> seqZ 0 (lut_period R f) /\
             0 <= n tr < lut_period R f).
Proof.
  intros HR Hf. induction 1 as [tr0 tr HR0 Hset|tr tr' out in_ out' _ IH Hiq].
  - destruct (Z.eq_dec f 0) as [->|Hne].
    + rewrite setOffset_zero in Hset. inversion Hset; subst. cbn.
      repeat split; done.
    + rewrite setOffset_nonzero in Hset by (done || lia).
      inversion Hset; subst. cbn.
      pose proof (lut_period_bounds (samp_rate tr0) f ltac:(lia) Hne).
      repeat split; (done || lia).
  - destruct IH as (HRtr & Hz & Hnz). unfold iq_received in Hiq.
    destruct (Z.eq_dec f 0) as [->|Hne].
    + destruct (Hz eq_refl) as [Hlut Hn]. rewrite Hlut in Hiq. cbn in Hiq.
      inversion Hiq; subst. repeat split; done.
    + destruct (Hnz Hne) as [Hlut Hn].
      pose proof (lut_period_bounds R f ltac:(lia) Hne) as HN.
      assert (Hlen : Z.of_nat (length (exp_lut tr)) = lut_period R f).
      { rewrite Hlut, length_fmap, length_seqZ. lia. }
      replace (0 <? Z.of_nat (length (exp_lut tr))) with true in Hiq
        by (symmetry; apply Z.ltb_lt; lia).
      destruct (translate_loop_Ok (exp_lut tr) (n tr) [] in_)
        as (o & Hloop & _); [lia..|].
      rewrite Hloop, bind_Ok in Hiq. cbn beta iota in Hiq.
      inversion Hiq; subst. cbn. split; [done|]. split; [done|].
      intros _. split; [done|]. rewrite Hlen. apply Z.mod_pos_bound. lia.
Qed.

End TranslateFacts.

Section TranslateTheorem.
Context `{Arith} `{!ComplexArith}.
Import Translate.

(** C3.  For a translator at a sample rate [R] (positive, an [unsigned])
    and an [int] offset [f] (other than [INT_MIN], of which [abs] has no
    value): [setOffset(f)] resets the phase index to 0; with [f = 0] the
    table is empty and [iq_received] hands the input on unchanged; with
    [f <> 0] the table has exactly [N = R / gcd(R, |f|)] entries, entry [i]
    being [exp(-j*2*pi*f*i/R)], that is the complex exponential of the
    [complex<float>] with real part 0 and imaginary part
    [((-2.0 * pi * f) * i) / R] computed in [double] and stored as a
    [float]; output sample [k] of a batch is [in[k] * LUT[(n0 + k) mod N]],
    the product with the entry at the phase index, and after a batch of [K]
    samples the phase index is [(n0 + K) mod N]. *)
Theorem translate_phase_index (R f : Z) :
  0 < R < 2 ^ 32 -> INT_MIN < f <= INT_MAX ->
  let N := R / Z.gcd R (Z.abs f) in
  let LUT (i : Z) : complex :=
    c_exp (Complex f_zero
             (d2f (d_div (d_mul (d_mul (d_mul (d_of_Z (-2)) d_pi) (d_of_Z f))
                                (d_of_Z i))
                         (d_of_Z R)))) in
  (forall tr0 : t, samp_rate tr0 = R ->
     exists tr,
       setOffset tr0 f = Ok tr /\ n tr = 0 /\
       (f = 0 -> exp_lut tr = []) /\
       (f <> 0 ->
          Z.of_nat (length (exp_lut tr)) = N /\
          forall i, 0 <= i < N -> exp_lut tr !! Z.to_nat i = Some (LUT i))) /\
  (forall (tr : t) (out in_ : list complex), tuned R f tr ->
     exists tr' out',
       iq_received tr out in_ = Ok (tr', out') /\
       length out' = length in_ /\
       exp_lut tr' = exp_lut tr /\
       (f = 0 -> out' = in_ /\ tr' = tr) /\
       (f <> 0 ->
          n tr' = (n tr + Z.of_nat (length in_)) mod N /\
          forall (k : nat) x, in_ !! k = Some x ->
            out' !! k
            = Some (c_mul x (LUT ((n tr + Z.of_nat k) mod N))))).
Proof.
  intros HR Hf N LUT.
  assert (HLUT : LUT = lut_entry f R) by reflexivity.
  clearbody LUT. subst LUT. unfold N. clear N.
  fold (lut_period R f). split.
  - intros tr0 HR0. destruct (Z.eq_dec f 0) as [->|Hne].
    + eexists. rewrite setOffset_zero. repeat split; done.
    + eexists. rewrite setOffset_nonzero by (done || lia).
      pose proof (lut_period_bounds R f ltac:(lia) Hne) as HN.
      split; [done|]. split; [done|]. split; [done|]. intros _. cbn [exp_lut].
      rewrite HR0. split.
      * rewrite length_fmap, length_seqZ. lia.
      * intros i Hi. by apply lut_lookup.
  - intros tr out in_ Ht.
    destruct (tuned_inv R f tr HR Hf Ht) as (HRtr & Hz & Hnz).
    unfold iq_received. destruct (Z.eq_dec f 0) as [->|Hne].
    + destruct (Hz eq_refl) as [Hlut Hn]. rewrite Hlut. cbn.
      eexists _, _. repeat split; done.
    + destruct (Hnz Hne) as [Hlut Hn].
      pose proof (lut_period_bounds R f ltac:(lia) Hne) as HN.
      assert (Hlen : Z.of_nat (length (exp_lut tr)) = lut_period R f).
      { rewrite Hlut, length_fmap, length_seqZ. lia. }
      replace (0 <? Z.of_nat (length (exp_lut tr))) with true
        by (symmetry; apply Z.ltb_lt; lia).
      destruct (translate_loop_Ok (exp_lut tr) (n tr) [] in_)
        as (o & Hloop & Holen & Hidx); [lia..|].
      rewrite Hloop, bind_Ok. cbn beta iota. rewrite Hlen in *.
      eexists _, _. split; [reflexivity|]. cbn [n exp_lut app].
      split; [done|]. split; [done|]. split; [done|]. intros _.
      split; [done|]. intros k x Hk.
      destruct (Hidx k x Hk) as (e & He & Hout). rewrite Hout.
      rewrite Hlut, lut_lookup in He; [by inversion He|].
      apply Z.mod_pos_bound. lia.
Qed.

End TranslateTheorem.

(** ** The demodulators *)

Section DemodFacts.
Context `{Arith} `{!ComplexArith} (fc : FilterCoeffs).

Lemma decimate_loop_params {T : Type} `{!Sample T} (bound : nat)
    (d : Decimator T) src out num d' out' num' :
  decimate_loop bound d src out num = Ok (d', out', num') ->
  dec_fact d' = dec_fact d /\ taps d' = taps d /\
  set_coeff d' = set_coeff d /\ coeff d' = coeff d.
Proof.
  revert d src out num.
  induction bound as [|bound IH]; intros d src out num Hloop.
  - destruct src; cbn in Hloop; [by inversion Hloop; subst|discriminate].
  - destruct src as [|x src]; cbn [decimate_loop] in Hloop.
    { by inversion Hloop; subst. }
    unfold decimate_body in Hloop.
    destruct (copy_samples _ _ _) as [[z1 src1]|e]; [|discriminate].
    rewrite bind_Ok in Hloop. cbn beta iota in Hloop.
    rewrite bind_Ok in Hloop. cbn beta iota in Hloop.
    by apply IH in Hloop.
Qed.

(** [decimate] changes the delay line only. *)
Lemma decimate_params {T : Type} `{!Sample T} (d : Decimator T)
    out in_ d' out' :
  decimate d out in_ = Ok (d', out') ->
  dec_fact d' = dec_fact d /\ taps d' = taps d /\
  set_coeff d' = set_coeff d /\ coeff d' = coeff d.
Proof.
  intros Hdec. unfold decimate in Hdec.
  apply bind_Ok_inv in Hdec as (? & _ & Hdec).
  apply bind_Ok_inv in Hdec as (? & _ & Hdec).
  apply bind_Ok_inv in Hdec as (? & _ & Hdec).
  apply bind_Ok_inv in Hdec as ([[d1 out1] num1] & Hloop & Hdec).
  cbn beta iota in Hdec.
  apply bind_Ok_inv in Hdec as (? & _ & Hdec). inversion Hdec; subst.
  by apply decimate_loop_params in Hloop.
Qed.

(** The sample loop of the FM demodulator emits [psi_seq]. *)
Lemma foldl_demod_sample (samples : list complex) (i0 q0 : float)
    (audio : list float) :
  foldl DemodulatorFm.demod_sample (i0, q0, audio) samples
  = (last_iq i0 q0 samples, audio ++ psi_seq i0 q0 samples).
Proof.
  revert i0 q0 audio. induction samples as [|s rest IH]; intros i0 q0 audio.
  - cbn. by rewrite app_nil_r.
  - cbn [foldl psi_seq last_iq]. unfold DemodulatorFm.demod_sample at 2.
    rewrite IH, <- app_assoc. reflexivity.
Qed.

Lemma psi_seq_lookup (samples : list complex) (i0 q0 : float) (k : nat) s :
  samples !! k = Some s ->
  psi_seq i0 q0 samples !! k
  = Some (psi (prev_iq i0 q0 samples k).1 (prev_iq i0 q0 samples k).2
              (real (normalize s)) (imag (normalize s))).
Proof.
  revert i0 q0 k. induction samples as [|s0 rest IH]; intros i0 q0 k Hk.
  - by rewrite lookup_nil in Hk.
  - destruct k as [|k]; cbn in Hk.
    + inversion Hk; subst. reflexivity.
    + cbn [psi_seq lookup list_lookup]. rewrite (IH _ _ k Hk).
      destruct k as [|k]; [reflexivity|].
      assert (is_Some (rest !! k)) as [s' Hs'].
      { apply lookup_lt_is_Some. apply lookup_lt_Some in Hk. lia. }
      unfold prev_iq. rewrite (lookup_cons_ne_0 _ _ (S k)) by lia.
      cbn [pred]. by rewrite Hs'.
Qed.

Lemma psi_seq_length (samples : list complex) (i0 q0 : float) :
  length (psi_seq i0 q0 samples) = length samples.
Proof.
  revert i0 q0. induction samples as [|s rest IH]; intros i0 q0; [done|].
  cbn. by rewrite IH.
Qed.

(** [iq_received] hands the emitted values to the audio decimation. *)
Lemma iq_received_decimate_audio (d : DemodulatorFm.t) (samples : list complex) :
  DemodulatorFm.iq_received d samples
  = DemodulatorFm.decimate_audio d
      (psi_seq (DemodulatorFm.iold d) (DemodulatorFm.qold d) samples)
    ≫= (fun '(wb, ad, dec_audio) =>
          first_element dec_audio
          ≫= (fun _ =>
                Ok ({| DemodulatorFm.iold :=
                         (last_iq (DemodulatorFm.iold d) (DemodulatorFm.qold d)
                                  samples).1;
                       DemodulatorFm.qold :=
                         (last_iq (DemodulatorFm.iold d) (DemodulatorFm.qold d)
                                  samples).2;
                       DemodulatorFm.audio_dec_wb := wb;
                       DemodulatorFm.audio_dec := ad;
                       DemodulatorFm.wb_mode := DemodulatorFm.wb_mode d |},
                    dec_audio))).
Proof.
  unfold DemodulatorFm.iq_received.
  rewrite (foldl_demod_sample samples _ _ []). cbn [app].
  by destruct (last_iq _ _ samples) as [i' q'].
Qed.

Lemma first_element_Ok_inv {A : Type} (v : list A) (u : unit) :
  first_element v = Ok u -> v <> [].
Proof. by destruct v. Qed.

Lemma first_element_Ok {A : Type} (v : list A) :
  v <> [] -> first_element v = Ok tt.
Proof. by destruct v. Qed.

(** C4.  For every batch, the FM demodulator takes the samples in order:
    sample [s] is normalized to [s / |s|]; the value emitted for it is
    [atan2(q*i_prev - i*q_prev, i*i_prev + q*q_prev)] (the [double demod],
    stored as a [float] in the batch of audio) with [(i, q)] the
    normalized sample and [(i_prev, q_prev)] the normalized sample before
    it (for the first sample of a batch, the state left by the batch
    before); [(i_prev, q_prev)] is then set to [(i, q)].  A demodulator
    starts with [(i_prev, q_prev) = (1, 1)].  The sequence of values goes,
    in order, into the audio decimation: in narrow mode it is the input of
    [decimate] on the 32k->16k decimator, in wideband mode the input of
    [decimate] on the wideband decimator, whose output is the input of the
    32k->16k decimator; what the last decimator puts out goes to the sink
    (its first element is addressed, so it must not be empty), and the
    demodulator is left with the new previous-sample state and the new
    states of the decimators. *)
Theorem fm_phase_differences (d : DemodulatorFm.t) (samples : list complex) :
  foldl DemodulatorFm.demod_sample
        (DemodulatorFm.iold d, DemodulatorFm.qold d, []) samples
  = (last_iq (DemodulatorFm.iold d) (DemodulatorFm.qold d) samples,
     psi_seq (DemodulatorFm.iold d) (DemodulatorFm.qold d) samples) /\
  length (psi_seq (DemodulatorFm.iold d) (DemodulatorFm.qold d) samples)
  = length samples /\
  (forall (k : nat) s, samples !! k = Some s ->
     let prev := prev_iq (DemodulatorFm.iold d) (DemodulatorFm.qold d)
                         samples k in
     let i := real (c_div_f s (c_abs s)) in
     let q := imag (c_div_f s (c_abs s)) in
     psi_seq (DemodulatorFm.iold d) (DemodulatorFm.qold d) samples !! k
     = Some (d2f (atan2 (f_sub (f_mul q prev.1) (f_mul i prev.2))
                        (f_add (f_mul i prev.1) (f_mul q prev.2))))) /\
  (let emitted :=
     psi_seq (DemodulatorFm.iold d) (DemodulatorFm.qold d) samples in
   let after (wb ad : Decimator float) (dec_audio : list float) :=
     match dec_audio with
     | [] => Abort Undefined
     | _ :: _ =>
         Ok ({| DemodulatorFm.iold :=
                  (last_iq (DemodulatorFm.iold d) (DemodulatorFm.qold d)
                           samples).1;
                DemodulatorFm.qold :=
                  (last_iq (DemodulatorFm.iold d) (DemodulatorFm.qold d)
                           samples).2;
                DemodulatorFm.audio_dec_wb := wb;
                DemodulatorFm.audio_dec := ad;
                DemodulatorFm.wb_mode := DemodulatorFm.wb_mode d |},
             dec_audio)
     end in
   DemodulatorFm.iq_received d samples
   = if DemodulatorFm.wb_mode d then
       decimate (DemodulatorFm.audio_dec_wb d) [] emitted
       ≫= (fun '(wb, dec_audio1) =>
             decimate (DemodulatorFm.audio_dec d) [] dec_audio1
             ≫= (fun '(ad, dec_audio) => after wb ad dec_audio))
     else
       decimate (DemodulatorFm.audio_dec d) [] emitted
       ≫= (fun '(ad, dec_audio) =>
             after (DemodulatorFm.audio_dec_wb d) ad dec_audio)) /\
  (forall (samp_rate : Z) (max_dev : double),
     DemodulatorFm.iold (DemodulatorFm.new fc samp_rate max_dev) = f_one /\
     DemodulatorFm.qold (DemodulatorFm.new fc samp_rate max_dev) = f_one).
Proof.
  split; [apply (foldl_demod_sample samples _ _ [])|].
  split; [apply psi_seq_length|].
  split; [intros k s Hk; by apply psi_seq_lookup|].
  split; [|done]. cbv zeta. rewrite iq_received_decimate_audio.
  unfold DemodulatorFm.decimate_audio.
  destruct (DemodulatorFm.wb_mode d).
  - destruct (decimate (DemodulatorFm.audio_dec_wb d) [] _) as [[wb a1]|e];
      [|done].
    rewrite !bind_Ok. cbn beta iota.
    destruct (decimate (DemodulatorFm.audio_dec d) [] a1) as [[ad a]|e];
      [|done].
    rewrite !bind_Ok. cbn beta iota. by destruct a.
  - destruct (decimate (DemodulatorFm.audio_dec d) [] _) as [[ad a]|e];
      [|done].
    rewrite !bind_Ok. cbn beta iota. by destruct a.
Qed.

End DemodFacts.

Section DemodTheorems.
Context `{Arith} `{!ComplexArith} (fc : FilterCoeffs).

Lemma take_cnt {A : Type} (table : list A) :
  take (Z.to_nat (cnt table)) table = table.
Proof. unfold cnt. rewrite Nat2Z.id. by apply take_ge. Qed.

(** The audio decimator of an FM demodulator stays the 2:1 decimator over
    the table [coeff_dec_audio_32k_16k]. *)
Lemma fm_reachable_audio_dec (d : DemodulatorFm.t) :
  fm_reachable fc d ->
  dec_fact (DemodulatorFm.audio_dec d) = 2 /\
  set_coeff (DemodulatorFm.audio_dec d) = coeff_dec_audio_32k_16k fc.
Proof.
  induction 1 as [r dev|d r dev _ IH|d d' samples audio _ IH Hiq].
  - cbn. by rewrite take_cnt.
  - exact IH.
  - unfold DemodulatorFm.iq_received in Hiq.
    destruct (foldl _ _ samples) as [[i' q'] a].
    apply bind_Ok_inv in Hiq as ([[wb ad] da] & Hda & Hiq).
    cbn beta iota in Hiq. apply bind_Ok_inv in Hiq as (? & _ & Hiq).
    inversion Hiq; subst. cbn [DemodulatorFm.audio_dec].
    unfold DemodulatorFm.decimate_audio in Hda.
    destruct (DemodulatorFm.wb_mode d).
    + apply bind_Ok_inv in Hda as ([wb1 a1] & _ & Hda). cbn beta iota in Hda.
      apply bind_Ok_inv in Hda as ([ad1 a2] & Hdec & Hda).
      inversion Hda; subst.
      apply decimate_params in Hdec as (-> & _ & -> & _). exact IH.
    + apply bind_Ok_inv in Hda as ([ad1 a2] & Hdec & Hda).
      inversion Hda; subst.
      apply decimate_params in Hdec as (-> & _ & -> & _). exact IH.
Qed.

(** C5.  On every call of [setDemodParams(samp_rate, max_dev)] the FM
    demodulator sets on its 32k->16k audio decimator a gain of
    [20*log10((samp_rate / (2*pi*max_dev)) / 2)] dB: the working
    coefficients become the table scaled by [10^(gain/20)]; wideband mode
    is on exactly when [samp_rate > 32000]; the wideband stage becomes a
    5:1 decimator for [samp_rate = 160000] and a 6:1 decimator for
    [samp_rate = 192000]; and in either mode a batch reaches the sink
    through the 32k->16k decimator, after the wideband stage in wideband
    mode and directly otherwise. *)
Theorem fm_setDemodParams_gain_and_mode (d : DemodulatorFm.t)
    (samp_rate : Z) (max_dev : double) :
  fm_reachable fc d ->
  let d' := DemodulatorFm.setDemodParams fc d samp_rate max_dev in
  let gain :=
    d_mul (d_of_Z 20)
          (d_log10 (d_div (d_div (d_of_Z samp_rate)
                                 (d_mul (d_mul (d_of_Z 2) d_pi) max_dev))
                          (d_of_Z 2))) in
  DemodulatorFm.audio_dec d' = setGain (DemodulatorFm.audio_dec d) gain /\
  dec_fact (DemodulatorFm.audio_dec d') = 2 /\
  coeff (DemodulatorFm.audio_dec d')
  = (fun c => d2f (d_mul (f2d c)
                         (d_pow (d_of_Z 10) (d_div gain (d_of_Z 20)))))
      <$> coeff_dec_audio_32k_16k fc /\
  (DemodulatorFm.wb_mode d' = true <-> 32000 < samp_rate) /\
  (samp_rate = 160000 ->
     DemodulatorFm.audio_dec_wb d'
     = Decimator_new 5 (coeff_dec_160k_32k fc) (cnt (coeff_dec_160k_32k fc)) /\
     dec_fact (DemodulatorFm.audio_dec_wb d') = 5) /\
  (samp_rate = 192000 ->
     DemodulatorFm.audio_dec_wb d'
     = Decimator_new 6 (coeff_dec_192k_32k fc) (cnt (coeff_dec_192k_32k fc)) /\
     dec_fact (DemodulatorFm.audio_dec_wb d') = 6) /\
  (forall (samples : list complex) d2 (audio : list float),
     DemodulatorFm.iq_received d' samples = Ok (d2, audio) ->
     exists stage_in : list float,
       decimate (DemodulatorFm.audio_dec d') [] stage_in
       = Ok (DemodulatorFm.audio_dec d2, audio) /\
       (DemodulatorFm.wb_mode d' = false ->
        stage_in = psi_seq (DemodulatorFm.iold d') (DemodulatorFm.qold d')
                           samples) /\
       (DemodulatorFm.wb_mode d' = true ->
        decimate (DemodulatorFm.audio_dec_wb d') []
                 (psi_seq (DemodulatorFm.iold d') (DemodulatorFm.qold d')
                          samples)
        = Ok (DemodulatorFm.audio_dec_wb d2, stage_in))).
Proof.
  intros Hr d' gain.
  destruct (fm_reachable_audio_dec d Hr) as [Hfact Hset].
  split; [reflexivity|]. split; [exact Hfact|].
  split; [cbn; by rewrite Hset|].
  split; [cbn; apply Z.ltb_lt|].
  split; [intros ->; by cbn|]. split; [intros ->; by cbn|].
  intros samples d2 audio Hiq.
  rewrite iq_received_decimate_audio in Hiq.
  apply bind_Ok_inv in Hiq as ([[wb ad] da] & Hda & Hiq).
  cbn beta iota in Hiq. apply bind_Ok_inv in Hiq as (? & _ & Hiq).
  inversion Hiq; subst d2 audio. cbn [DemodulatorFm.audio_dec DemodulatorFm.audio_dec_wb].
  unfold DemodulatorFm.decimate_audio in Hda.
  destruct (DemodulatorFm.wb_mode d') eqn:Hwb.
  - apply bind_Ok_inv in Hda as ([wb1 a1] & Hdec1 & Hda). cbn beta iota in Hda.
    apply bind_Ok_inv in Hda as ([ad1 a2] & Hdec2 & Hda).
    inversion Hda; subst. exists a1. repeat split; done.
  - apply bind_Ok_inv in Hda as ([ad1 a2] & Hdec & Hda).
    inversion Hda; subst. eexists. repeat split; done.
Qed.

(** The sample loop of the AM demodulator emits the magnitudes. *)
Lemma foldl_am_demod_sample (samples : list complex) (audio : list float) :
  foldl DemodulatorAm.demod_sample audio samples = audio ++ (c_abs <$> samples).
Proof.
  revert audio. induction samples as [|s rest IH]; intros audio.
  - by rewrite app_nil_r.
  - cbn [foldl fmap list_fmap]. rewrite IH. unfold DemodulatorAm.demod_sample.
    by rewrite <- app_assoc.
Qed.




End DemodTheorems.

(** ** Rounding to binary64 *)

(** Lowering the exponent by one doubles the scaled value. *)
Lemma scaled_step (a b s : Z) :
  scaled_num a (s - 1) * scaled_den b s
  = 2 * (scaled_num a s * scaled_den b (s - 1)).
Proof.
  unfold scaled_num, scaled_den.
  destruct (Z.leb_spec 0 s) as [Hs|Hs]; destruct (Z.leb_spec 0 (s - 1)) as [Hs1|Hs1];
    try lia.
  - replace (2 ^ s) with (2 * 2 ^ (s - 1)); [ring|].
    rewrite <- (Z.pow_succ_r 2 (s - 1)) by lia. f_equal. lia.
  - assert (s = 0) as -> by lia.
    change (2 ^ (- (0 - 1))) with 2. change (2 ^ 0) with 1. ring.
  - replace (2 ^ (- (s - 1))) with (2 * 2 ^ (- s)); [ring|].
    rewrite <- (Z.pow_succ_r 2 (- s)) by lia. f_equal. lia.
Qed.

Lemma scaled_den_pos (b s : Z) : 0 < b -> 0 < scaled_den b s.
Proof.
  intros Hb. unfold scaled_den. destruct (Z.leb_spec 0 s); [|done].
  pose proof (Z.pow_pos_nonneg 2 s ltac:(lia) ltac:(lia)). nia.
Qed.

Lemma scaled_num_pos (a s : Z) : 0 < a -> 0 < scaled_num a s.
Proof.
  intros Ha. unfold scaled_num. destruct (Z.leb_spec 0 s); [done|].
  pose proof (Z.pow_pos_nonneg 2 (- s) ltac:(lia) ltac:(lia)). nia.
Qed.

(** The first guess of the exponent is right or one too large. *)
Lemma first_exponent (a b : Z) :
  0 < a -> 0 < b ->
  let s1 := Z.log2 a - Z.log2 b - 52 in
  2 ^ 51 * scaled_den b s1 < scaled_num a s1 < 2 ^ 53 * scaled_den b s1.
Proof.
  intros Ha Hb s1.
  pose proof (Z.log2_spec a Ha) as [Ha1 Ha2].
  pose proof (Z.log2_spec b Hb) as [Hb1 Hb2].
  pose proof (Z.log2_nonneg a) as Hla. pose proof (Z.log2_nonneg b) as Hlb.
  set (la := Z.log2 a) in *. set (lb := Z.log2 b) in *.
  rewrite Z.pow_succ_r in Ha2, Hb2 by lia.
  unfold scaled_num, scaled_den. destruct (Z.leb_spec 0 s1) as [Hs|Hs].
  - assert (E : 2 ^ la = 2 ^ lb * 2 ^ s1 * 2 ^ 52).
    { rewrite <- !Z.pow_add_r by lia. f_equal. lia. }
    pose proof (Z.pow_pos_nonneg 2 s1 ltac:(lia) ltac:(lia)).
    pose proof (Z.pow_pos_nonneg 2 lb ltac:(lia) ltac:(lia)).
    change (2 ^ 53) with (2 * 2 ^ 52). change (2 ^ 52) with (2 * 2 ^ 51) in *.
    nia.
  - assert (E : 2 ^ la * 2 ^ (- s1) = 2 ^ lb * 2 ^ 52).
    { rewrite <- !Z.pow_add_r by lia. f_equal. lia. }
    pose proof (Z.pow_pos_nonneg 2 (- s1) ltac:(lia) ltac:(lia)).
    pose proof (Z.pow_pos_nonneg 2 lb ltac:(lia) ltac:(lia)).
    change (2 ^ 53) with (2 * 2 ^ 52). change (2 ^ 52) with (2 * 2 ^ 51) in *.
    nia.
Qed.

(** The exponent of the unit in the last place. *)
Lemma ulp_exponent_spec (a b : Z) :
  0 < a -> 0 < b ->
  let s := ulp_exponent a b in
  2 ^ 52 * scaled_den b s <= scaled_num a s < 2 ^ 53 * scaled_den b s.
Proof.
  intros Ha Hb. unfold ulp_exponent.
  pose proof (first_exponent a b Ha Hb) as H1. cbn zeta in H1.
  set (s1 := Z.log2 a - Z.log2 b - 52) in *. cbn zeta.
  destruct (Z.ltb_spec (scaled_num a s1) (2 ^ 52 * scaled_den b s1)) as [Hlt|Hge];
    [|lia].
  pose proof (scaled_step a b s1) as Hstep.
  pose proof (scaled_den_pos b s1 Hb). pose proof (scaled_den_pos b (s1 - 1) Hb).
  pose proof (scaled_num_pos a s1 Ha). pose proof (scaled_num_pos a (s1 - 1) Ha).
  change (2 ^ 53) with (2 * 2 ^ 52). change (2 ^ 52) with (2 * 2 ^ 51) in *.
  nia.
Qed.

(** Rounding to the nearest integer. *)
Lemma nearest_even_spec (n d : Z) :
  0 <= n -> 0 < d ->
  let m := nearest_even n d in
  - d <= 2 * (m * d - n) <= d /\
  n / d <= m <= n / d + 1 /\
  (2 * Z.abs (m * d - n) = d -> Z.even m = true).
Proof.
  intros Hn Hd. unfold nearest_even.
  pose proof (Z.div_mod n d ltac:(lia)) as Hdiv.
  pose proof (Z.mod_pos_bound n d Hd) as Hmod.
  set (q := n / d) in *. set (r := n mod d) in *. cbn zeta.
  destruct (Z.ltb_spec (2 * r) d) as [H1|H1].
  - split; [nia|]. split; [lia|]. intros Htie. nia.
  - destruct (Z.ltb_spec d (2 * r)) as [H2|H2].
    + split; [nia|]. split; [lia|]. intros Htie. nia.
    + destruct (Z.even q) eqn:Heven.
      * split; [nia|]. split; [lia|]. done.
      * split; [nia|]. split; [lia|]. intros _.
        rewrite Z.even_add, Heven. reflexivity.
Qed.


Lemma pow2_Qpower (s : Z) : (pow2 s == (2 # 1) ^ s)%Q.
Proof.
  unfold pow2. destruct (Z.leb_spec 0 s) as [Hs|Hs].
  - by apply (Zpower_Qpower 2).
  - assert (E : ((2 # 1) ^ s == / (2 # 1) ^ (- s))%Q)
      by (rewrite <- Qpower_opp; by rewrite Z.opp_involutive).
    rewrite E, <- (Zpower_Qpower 2) by lia.
    pose proof (Z.pow_pos_nonneg 2 (- s) ltac:(lia) ltac:(lia)) as Ht.
    destruct (2 ^ (- s)) as [|t|t]; [lia| |lia]. reflexivity.
Qed.

(** The rounding, in terms of the powers of two it computes. *)
Lemma round64_nearest_pow2 (x : Q) :
  ((x == 0)%Q -> (round64 x == 0)%Q) /\
  (~ (x == 0)%Q ->
   exists m s : Z,
     2 ^ 52 <= m <= 2 ^ 53 /\
     (Qabs (round64 x) == inject_Z m * pow2 s)%Q /\
     (2 * Qabs (round64 x - x) <= pow2 s)%Q /\
     ((2 * Qabs (round64 x - x) == pow2 s)%Q -> Z.even m = true)).
Proof.
  destruct x as [p q0]. unfold round64. cbn [Qnum Qden].
  split.
  - intros Hx. unfold Qeq in Hx. cbn in Hx.
    assert (p = 0) as -> by lia. reflexivity.
  - intros Hx.
    assert (Hp : p <> 0).
    { intros ->. apply Hx. reflexivity. }
    destruct (Z.eqb_spec (Z.abs p) 0) as [|_]; [lia|].
    pose proof (ulp_exponent_spec (Z.abs p) (Zpos q0) ltac:(lia) ltac:(lia))
      as Hs. cbn zeta in Hs.
    set (s := ulp_exponent (Z.abs p) (Z.pos q0)) in *.
    pose proof (scaled_den_pos (Zpos q0) s ltac:(lia)) as Hd.
    pose proof (nearest_even_spec (scaled_num (Z.abs p) s)
                  (scaled_den (Zpos q0) s) ltac:(lia) Hd) as (Hnear & Hm & Htie).
    set (m := nearest_even _ _) in *.
    assert (Hm52 : 2 ^ 52 <= m <= 2 ^ 53).
    { pose proof (Z.div_le_lower_bound (scaled_num (Z.abs p) s)
                    (scaled_den (Zpos q0) s) (2 ^ 52) Hd ltac:(lia)).
      pose proof (Z.div_lt_upper_bound (scaled_num (Z.abs p) s)
                    (scaled_den (Zpos q0) s) (2 ^ 53) Hd ltac:(lia)).
      lia. }
    exists m, s. split; [exact Hm52|].
    assert (Hm0 : 0 < m) by (change (2 ^ 52) with 4503599627370496 in Hm52; lia).
    unfold pow2, scaled_num, scaled_den in *.
    destruct (Z.leb_spec 0 s) as [Hs0|Hs0].
    + pose proof (Z.pow_pos_nonneg 2 s ltac:(lia) Hs0) as Ht.
      set (t := 2 ^ s) in *. clearbody t.
      destruct (Z.ltb_spec p 0) as [Hneg|Hpos].
      * unfold Qeq, Qle, Qabs, Qminus, Qplus, Qopp, Qmult, inject_Z.
        cbn [Qnum Qden]. rewrite ?Pos2Z.inj_mul.
        split; [nia|]. split; [nia|]. intros E. apply Htie. nia.
      * unfold Qeq, Qle, Qabs, Qminus, Qplus, Qopp, Qmult, inject_Z.
        cbn [Qnum Qden]. rewrite ?Pos2Z.inj_mul.
        split; [nia|]. split; [nia|]. intros E. apply Htie. nia.
    + pose proof (Z.pow_pos_nonneg 2 (- s) ltac:(lia) ltac:(lia)) as Ht.
      assert (Htp : Zpos (Z.to_pos (2 ^ (- s))) = 2 ^ (- s)) by (by apply Z2Pos.id).
      set (t := 2 ^ (- s)) in *. set (tp := Z.to_pos t) in *. clearbody tp t.
      destruct (Z.ltb_spec p 0) as [Hneg|Hpos].
      * unfold Qeq, Qle, Qabs, Qminus, Qplus, Qopp, Qmult, inject_Z.
        cbn [Qnum Qden]. rewrite ?Pos2Z.inj_mul, ?Htp.
        split; [nia|]. split; [nia|]. intros E. apply Htie. nia.
      * unfold Qeq, Qle, Qabs, Qminus, Qplus, Qopp, Qmult, inject_Z.
        cbn [Qnum Qden]. rewrite ?Pos2Z.inj_mul, ?Htp.
        split; [nia|]. split; [nia|]. intros E. apply Htie. nia.
Qed.

Lemma round64_nearest (x : Q) : nearest_double x (round64 x).
Proof.
  destruct (round64_nearest_pow2 x) as [Hzero Hnear].
  split; [exact Hzero|]. intros Hx.
  destruct (Hnear Hx) as (m & s & Hm & Hv & Hd & Htie).
  exists m, s. split; [exact Hm|].
  split; [by rewrite <- pow2_Qpower|].
  split; [by rewrite <- pow2_Qpower|].
  intros E. apply Htie. by rewrite pow2_Qpower.
Qed.

Lemma nearest_even_exact (k d : Z) : 0 < d -> nearest_even (k * d) d = k.
Proof.
  intros Hd. unfold nearest_even.
  rewrite Z.div_mul, Z.mod_mul by lia. cbn zeta.
  destruct (Z.ltb_spec (2 * 0) d); [done|lia].
Qed.

(** A whole number below [2^53] is a binary64 value: rounding leaves it as
    it is. *)
Lemma round64_whole (x : Q) (z : Z) :
  Z.abs z < 2 ^ 53 -> (x == inject_Z z)%Q -> (round64 x == inject_Z z)%Q.
Proof.
  destruct x as [p q0]. intros Hz Hx. unfold Qeq in Hx. cbn in Hx.
  rewrite Z.mul_1_r in Hx. unfold round64. cbn [Qnum Qden].
  destruct (Z.eqb_spec (Z.abs p) 0) as [Hp0|Hp0].
  { assert (z = 0) as -> by nia. reflexivity. }
  assert (Ha : Z.abs p = Z.abs z * Zpos q0) by (rewrite Hx, Z.abs_mul; lia).
  pose proof (ulp_exponent_spec (Z.abs p) (Zpos q0) ltac:(lia) ltac:(lia))
    as Hs. cbn zeta in Hs.
  set (s := ulp_exponent (Z.abs p) (Z.pos q0)) in *. clearbody s.
  unfold pow2, scaled_num, scaled_den in *.
  destruct (Z.leb_spec 0 s) as [Hs0|Hs0].
  - assert (s = 0) as ->.
    { destruct (Z.eq_dec s 0) as [|Hne]; [done|]. exfalso.
      assert (Ht : 2 ^ 1 <= 2 ^ s) by (apply Z.pow_le_mono_r; lia).
      change (2 ^ 1) with 2 in Ht.
      change (2 ^ 53) with (2 * 2 ^ 52) in Hz. nia. }
    change (2 ^ 0) with 1. rewrite Z.mul_1_r, Ha.
    rewrite nearest_even_exact by lia.
    unfold Qeq, Qopp, Qmult, inject_Z. cbn [Qnum Qden].
    destruct (Z.ltb_spec p 0); cbn [Qnum Qden]; nia.
  - pose proof (Z.pow_pos_nonneg 2 (- s) ltac:(lia) ltac:(lia)) as Ht.
    assert (Htp : Zpos (Z.to_pos (2 ^ (- s))) = 2 ^ (- s)) by (by apply Z2Pos.id).
    set (t := 2 ^ (- s)) in *. set (tp := Z.to_pos t) in *. clearbody tp t.
    replace (Z.abs p * t) with (Z.abs z * t * Zpos q0) by (rewrite Ha; ring).
    rewrite nearest_even_exact by lia.
    unfold Qeq, Qopp, Qmult, inject_Z. cbn [Qnum Qden].
    destruct (Z.ltb_spec p 0); cbn [Qnum Qden]; rewrite ?Pos2Z.inj_mul, ?Htp;
      nia.
Qed.

(** ** The DDR: retuning *)

Section DdrFacts.
Context `{Arith} `{!ComplexArith} (fc : FilterCoeffs) (env : Env).

(** [setOffset] returns for every offset an [int] can hold, [INT_MIN]
    apart. *)
Lemma setOffset_total (tr : Translate.t) (f : Z) :
  INT_MIN < f <= INT_MAX -> exists tr', Translate.setOffset tr f = Ok tr'.
Proof.
  intros Hf. destruct (Z.eq_dec f 0) as [->|Hne].
  - eexists. apply setOffset_zero.
  - eexists. by apply setOffset_nonzero.
Qed.

(** The conversion to [int] of a [double] that is a whole number. *)
Lemma double_to_int_whole (q : Q) (z : Z) :
  (q == inject_Z z)%Q -> Qnum q ÷ Zpos (Qden q) = z.
Proof.
  unfold Qeq. cbn. intros Hq. rewrite Z.mul_1_r in Hq. rewrite Hq.
  apply Z.quot_mul. lia.
Qed.

(** The conversion to [int] discards the fractional part and nothing
    more. *)
Lemma double_to_int_trunc (q : Q) :
  let z := Qnum q ÷ Zpos (Qden q) in
  (Qabs (inject_Z z) <= Qabs q)%Q /\ (Qabs q < Qabs (inject_Z z) + 1)%Q.
Proof.
  destruct q as [a b]. cbn [Qnum Qden]. set (z := a ÷ Zpos b).
  assert (Habs : Z.abs z = Z.abs a ÷ Zpos b).
  { unfold z. rewrite <- Z.quot_abs by lia. reflexivity. }
  pose proof (Z.mul_quot_le (Z.abs a) (Zpos b) ltac:(lia) ltac:(lia)) as Hle.
  pose proof (Z.mul_succ_quot_gt (Z.abs a) (Zpos b) ltac:(lia) ltac:(lia))
    as Hgt.
  rewrite <- Habs in Hle, Hgt.
  unfold Qle, Qlt, Qabs, inject_Z, Qplus. cbn [Qnum Qden].
  split; lia.
Qed.

Lemma Qabs_le_int (q : Q) (limit : Z) :
  (Qabs q <= inject_Z limit)%Q -> Z.abs (Qnum q ÷ Zpos (Qden q)) <= limit.
Proof.
  intros Hq. pose proof (double_to_int_trunc q) as [Hlo _]. cbn zeta in Hlo.
  assert (Hz : (Qabs (inject_Z (Qnum q ÷ Zpos (Qden q))) <= inject_Z limit)%Q)
    by (eapply Qle_trans; eassumption).
  unfold Qle, Qabs, inject_Z in Hz. cbn [Qnum Qden] in Hz. lia.
Qed.

Lemma fit_limit_plain (tuner : WbRxRtlSdr) :
  25000 <= sampleRate tuner < 2 ^ 32 ->
  Ddr.fit_limit tuner = sampleRate tuner / 2 - 12500.
Proof.
  intros HR. unfold Ddr.fit_limit.
  rewrite (to_unsigned_small (sampleRate tuner)) by lia.
  apply to_unsigned_small.
  pose proof (Z.div_le_mono 25000 (sampleRate tuner) 2 ltac:(lia) ltac:(lia)).
  pose proof (Z.div_le_upper_bound (sampleRate tuner) 2 (2 ^ 32)
                ltac:(lia) ltac:(lia)).
  change (25000 / 2) with 12500 in *. lia.
Qed.

(** C6, as amended.  For every [tunerFqChanged(newCenter)] event on an
    initialized DDR with frequency [fq], bound to a tuner of rate [R], let
    [new_offset] be the [double] the code computes for [fq - newCenter]:
    the binary64 value nearest to the exact difference, which is the exact
    difference whenever that is a whole number of Hz.  When
    [|new_offset| > R/2 - 12500] the channel is disabled, and a warning is
    printed exactly when the channel was enabled before the event, so that
    a further event of the kind prints nothing; otherwise, the case
    [|new_offset| = R/2 - 12500] included, the translator offset is set to
    [new_offset] with its fractional part discarded (the translator takes
    an [int]) and the channel is enabled, nothing being printed. *)
Theorem tunerFqChanged_fit_or_disable (d : Ddr.t) (g : Process)
    (center_fq : Z) (ch : Channel.t) (r : string) (tuner : WbRxRtlSdr) :
  Ddr.channel d = Some ch -> Ddr.rtl d = Some r ->
  wbrx_map g !! r = Some tuner -> 25000 <= sampleRate tuner < 2 ^ 32 ->
  let exact := (Ddr.fq d - inject_Z center_fq)%Q in
  let new_offset := double_sub (Ddr.fq d) (inject_Z center_fq) in
  let limit := sampleRate tuner / 2 - 12500 in
  nearest_double exact new_offset /\
  (forall z : Z, Z.abs z < 2 ^ 53 -> (exact == inject_Z z)%Q ->
     (new_offset == inject_Z z)%Q) /\
  ((inject_Z limit < Qabs new_offset)%Q ->
     exists d' g',
       Ddr.tunerFqChanged d g center_fq = Ok (d', g') /\
       Ddr.channel d' = Some (Channel.disable ch) /\
       Ddr.rtl d' = Some r /\ Ddr.fq d' = Ddr.fq d /\
       ddr_map g' = ddr_map g /\ wbrx_map g' = wbrx_map g /\
       console g'
       = console g ++ (if Channel.isEnabled ch
                       then [WarnNoFit (Ddr.name d) (wbrx_name tuner)]
                       else []) /\
       Ddr.tunerFqChanged d' g' center_fq = Ok (d', g')) /\
  ((Qabs new_offset <= inject_Z limit)%Q ->
     exists (fq_offset : Z) (tr : Translate.t),
       fq_offset = Qnum new_offset ÷ Zpos (Qden new_offset) /\
       (forall z : Z, (new_offset == inject_Z z)%Q -> fq_offset = z) /\
       (Qabs (inject_Z fq_offset) <= Qabs new_offset)%Q /\
       (Qabs new_offset < Qabs (inject_Z fq_offset) + 1)%Q /\
       Translate.setOffset (Channel.trans ch) fq_offset = Ok tr /\
       Ddr.tunerFqChanged d g center_fq
       = Ok (Ddr.with_channel d
               (Some (Channel.enable
                        {| Channel.sample_rate := Channel.sample_rate ch;
                           Channel.channelizer := Channel.channelizer ch;
                           Channel.fm_demod := Channel.fm_demod ch;
                           Channel.am_demod := Channel.am_demod ch;
                           Channel.demod := Channel.demod ch;
                           Channel.trans := tr;
                           Channel.enabled := Channel.enabled ch |})),
             g)).
Proof.
  intros Hch Hrtl Htuner HR exact new_offset limit.
  split; [apply round64_nearest|].
  split; [intros z Hz Hx; by apply round64_whole|].
  assert (Hlimit : Ddr.fit_limit tuner = limit) by by apply fit_limit_plain.
  assert (Hlim31 : 0 <= limit < 2 ^ 31).
  { unfold limit.
    pose proof (Z.div_le_mono 25000 (sampleRate tuner) 2 ltac:(lia) ltac:(lia)).
    pose proof (Z.div_lt_upper_bound (sampleRate tuner) 2 (2 ^ 31)
                  ltac:(lia) ltac:(lia)).
    change (25000 / 2) with 12500 in *. lia. }
  split.
  - intros Hgt.
    assert (Htest : Qle_bool (Qabs new_offset) (inject_Z limit) = false).
    { destruct (Qle_bool _ _) eqn:E; [|done].
      apply Qle_bool_iff in E. exfalso. by apply (Qlt_not_le _ _ Hgt). }
    assert (Hstep : forall d0 ch0,
               Ddr.channel d0 = Some ch0 -> Ddr.rtl d0 = Some r ->
               Ddr.fq d0 = Ddr.fq d -> forall g0,
               wbrx_map g0 = wbrx_map g ->
               Ddr.tunerFqChanged d0 g0 center_fq
               = if Channel.isEnabled ch0
                 then Ok (Ddr.with_channel d0 (Some (Channel.disable ch0)),
                          print g0 [WarnNoFit (Ddr.name d0) (wbrx_name tuner)])
                 else Ok (d0, g0)).
    { intros d0 ch0 Hch0 Hrtl0 Hfq0 g0 Hg0. unfold Ddr.tunerFqChanged.
      rewrite Hch0, Hrtl0, Hfq0. cbn [mbind option_bind].
      rewrite Hg0, Htuner, Hlimit. fold new_offset. by rewrite Htest. }
    rewrite (Hstep d ch Hch Hrtl eq_refl g eq_refl).
    destruct (Channel.isEnabled ch) eqn:Hen.
    + exists (Ddr.with_channel d (Some (Channel.disable ch))),
             (print g [WarnNoFit (Ddr.name d) (wbrx_name tuner)]).
      do 7 (split; [done|]).
      by rewrite (Hstep (Ddr.with_channel d (Some (Channel.disable ch)))
                        (Channel.disable ch) eq_refl Hrtl eq_refl
                        (print g [WarnNoFit (Ddr.name d) (wbrx_name tuner)])
                        eq_refl).
    + exists d, g. split; [done|].
      assert (Hsame : Channel.disable ch = ch).
      { unfold Channel.isEnabled in Hen. destruct ch. cbn in *. by subst. }
      rewrite Hsame, app_nil_r. repeat split; try done.
      rewrite (Hstep d ch Hch Hrtl eq_refl g eq_refl). by rewrite Hen.
  - intros Hle.
    assert (Htest : Qle_bool (Qabs new_offset) (inject_Z limit) = true)
      by by apply Qle_bool_iff.
    pose proof (Qabs_le_int new_offset limit Hle) as Hoff.
    set (fq_offset := Qnum new_offset ÷ Zpos (Qden new_offset)) in *.
    destruct (setOffset_total (Channel.trans ch) fq_offset) as [tr Htr].
    { unfold INT_MIN, INT_MAX. lia. }
    exists fq_offset, tr. split; [done|].
    split; [intros z Hz; by apply double_to_int_whole|].
    pose proof (double_to_int_trunc new_offset) as [Hlo Hhi].
    split; [exact Hlo|]. split; [exact Hhi|]. split; [exact Htr|].
    unfold Ddr.tunerFqChanged.
    rewrite Hch, Hrtl. cbn [mbind option_bind]. rewrite Htuner, Hlimit.
    fold new_offset. rewrite Htest. cbn [negb].
    unfold double_to_int. fold fq_offset.
    replace ((INT_MIN <=? fq_offset) && (fq_offset <=? INT_MAX)) with true.
    2:{ symmetry. apply andb_true_iff. unfold INT_MIN, INT_MAX.
        split; [apply Z.leb_le|apply Z.leb_le]; lia. }
    rewrite bind_Ok. unfold Channel.setFqOffset. rewrite Htr. reflexivity.
Qed.

End DdrFacts.

(** ** The DDR: the registry of names *)

(** Case analysis on a run [H : ... = Ok _] of the model. *)
Ltac run_cases H :=
  repeat first
    [ progress (cbn beta iota zeta in H)
    | match type of H with
      | Ok _ = Ok _ => inversion H; subst; clear H
      | Abort _ = Ok _ => discriminate H
      | (_ ≫= _) = Ok _ =>
          let a := fresh "a" in
          let Ha := fresh "Ha" in
          apply bind_Ok_inv in H as (a & Ha & H)
      | context [match ?x with _ => _ end] => destruct x eqn:?
      end ].

Section RegistryFacts.
Context `{Arith} `{!ComplexArith} (fc : FilterCoeffs) (env : Env).

Lemma instance_ddr_map (g : Process) (wbrx : string) :
  ddr_map (WbRxRtlSdr_instance env g wbrx).2 = ddr_map g.
Proof.
  unfold WbRxRtlSdr_instance.
  destruct (wbrx_map g !! wbrx); [done|]. by destruct (wbrx_create env wbrx).
Qed.

(** Retuning touches neither the registry nor the name of the DDR. *)
Lemma tunerFqChanged_registry (d d' : Ddr.t) (g g' : Process) (center_fq : Z) :
  Ddr.tunerFqChanged d g center_fq = Ok (d', g') ->
  ddr_map g' = ddr_map g /\ Ddr.name d' = Ddr.name d.
Proof.
  intros Hrun. unfold Ddr.tunerFqChanged in Hrun. run_cases Hrun; done.
Qed.

Lemma initialize_modulation_registry (d d' : Ddr.t) (g g' : Process)
    (ch : Channel.t) (tuner : WbRxRtlSdr) (ok : bool) :
  Ddr.initialize_modulation fc env d g ch tuner = Ok (ok, d', g') ->
  ddr_map g' = ddr_map g /\ Ddr.name d' = Ddr.name d.
Proof.
  intros Hrun. unfold Ddr.initialize_modulation in Hrun.
  run_cases Hrun; try done.
  all: match goal with
       | Ht : Ddr.tunerFqChanged _ _ _ = Ok _ |- _ =>
           apply tunerFqChanged_registry in Ht as [-> ->]; done
       end.
Qed.

(** A DDR whose name is in the registry already: [initialize] reports the
    duplicate and returns [false] at once. *)
Lemma initialize_duplicate (self p : addr) (d : Ddr.t) (g : Process) :
  ddr_map g !! Ddr.name d = Some p ->
  Ddr.initialize fc env self d g
  = Ok (false, d, print g [ErrDuplicateName (Ddr.name d)]).
Proof. intros Hdup. unfold Ddr.initialize. by rewrite Hdup. Qed.

(** A DDR whose name is not in the registry yet: whatever [initialize]
    returns, the name is mapped to the DDR from then on. *)
Lemma initialize_registers (self : addr) (d d' : Ddr.t) (g g' : Process)
    (ok : bool) :
  ddr_map g !! Ddr.name d = None ->
  Ddr.initialize fc env self d g = Ok (ok, d', g') ->
  ddr_map g' = <[Ddr.name d := self]> (ddr_map g) /\
  Ddr.name d' = Ddr.name d.
Proof.
  intros Hfree Hrun. unfold Ddr.initialize in Hrun. rewrite Hfree in Hrun.
  destruct (getValue_double _ _ _) as [fq'|]; [|by inversion Hrun].
  cbn [Ddr.name Ddr.with_fq] in Hrun.
  destruct (getValue_string _ _ _) as [wbrx|]; [|by inversion Hrun].
  pose proof (instance_ddr_map
                (with_ddr_map g (<[Ddr.name d := self]> (ddr_map g))) wbrx)
    as Hinst.
  destruct (WbRxRtlSdr_instance _ _ wbrx) as [[r|] g1]; cbn [snd] in Hinst;
    [|by inversion Hrun].
  cbn [ddr_map with_ddr_map] in Hinst.
  destruct (wbrx_map (registerDdr g1 r self) !! r) as [tuner|];
    [|discriminate].
  apply bind_Ok_inv in Hrun as (fq_offset & _ & Hrun).
  apply bind_Ok_inv in Hrun as (ch & _ & Hrun).
  apply bind_Ok_inv in Hrun as ([[ok1 ch1] msgs] & _ & Hrun).
  cbn beta iota in Hrun. destruct ok1; cbn [negb] in Hrun.
  - apply initialize_modulation_registry in Hrun as [-> ->]. by cbn.
  - inversion Hrun; subst. by cbn.
Qed.

Lemma tunerFqChanged_keeps (d d' : Ddr.t) (g g' : Process) (center_fq : Z) :
  Ddr.tunerFqChanged d g center_fq = Ok (d', g') ->
  wbrx_map g' = wbrx_map g /\ Ddr.rtl d' = Ddr.rtl d /\
  (is_Some (Ddr.channel d) -> is_Some (Ddr.channel d')).
Proof.
  intros Hrun. unfold Ddr.tunerFqChanged in Hrun. run_cases Hrun; by eauto.
Qed.

Lemma Channel_new_sample_rate (fq_offset sample_rate' : Z) (ch : Channel.t) :
  Channel.new fc fq_offset sample_rate' = Ok ch ->
  Channel.sample_rate ch = sample_rate'.
Proof.
  unfold Channel.new. intros Hnew.
  apply bind_Ok_inv in Hnew as (tr & _ & Hnew). by inversion Hnew.
Qed.

Lemma Channel_initialize_rate (ch ch' : Channel.t) (msgs : list message) :
  Channel.initialize fc ch = Ok (true, ch', msgs) ->
  Channel.sample_rate ch = 960000 \/ Channel.sample_rate ch = 2400000.
Proof.
  unfold Channel.initialize. intros Hinit.
  destruct (Z.eqb_spec (Channel.sample_rate ch) 2400000); [by right|].
  destruct (Z.eqb_spec (Channel.sample_rate ch) 960000); [by left|].
  by inversion Hinit.
Qed.

(** What "initialized" means for a DDR: when [initialize] has returned
    [true] the DDR has a channel and is bound to a tuner of the process,
    whose rate is one of the two supported ones. *)
Lemma initialize_true_initialized (self : addr) (d d' : Ddr.t)
    (g g' : Process) :
  Ddr.initialize fc env self d g = Ok (true, d', g') ->
  exists (ch : Channel.t) (r : string) (tuner : WbRxRtlSdr),
    Ddr.channel d' = Some ch /\ Ddr.rtl d' = Some r /\
    wbrx_map g' !! r = Some tuner /\
    (sampleRate tuner = 960000 \/ sampleRate tuner = 2400000).
Proof.
  intros Hrun. unfold Ddr.initialize in Hrun.
  destruct (ddr_map g !! Ddr.name d); [by inversion Hrun|].
  destruct (getValue_double _ _ _) as [fq'|]; [|by inversion Hrun].
  cbn [Ddr.name Ddr.with_fq] in Hrun.
  destruct (getValue_string _ _ _) as [wbrx|]; [|by inversion Hrun].
  destruct (WbRxRtlSdr_instance _ _ wbrx) as [[r|] g1]; [|by inversion Hrun].
  destruct (wbrx_map (registerDdr g1 r self) !! r) as [tuner|] eqn:Htuner;
    [|discriminate].
  apply bind_Ok_inv in Hrun as (fq_offset & _ & Hrun).
  apply bind_Ok_inv in Hrun as (ch & Hnew & Hrun).
  apply bind_Ok_inv in Hrun as ([[ok1 ch1] msgs] & Hinit & Hrun).
  cbn beta iota in Hrun. destruct ok1; cbn [negb] in Hrun;
    [|by inversion Hrun].
  apply Channel_new_sample_rate in Hnew.
  apply Channel_initialize_rate in Hinit. rewrite Hnew in Hinit.
  unfold Ddr.initialize_modulation in Hrun.
  assert (Hafter : forall ch2 : Channel.t,
            (if negb (LocalRxBase_initialize env (Ddr.name
                        (Ddr.with_rtl (Ddr.with_fq d fq') (Some r))))
             then Ok (false, Ddr.with_channel
                               (Ddr.with_rtl (Ddr.with_fq d fq') (Some r)) None,
                      registerDdr g1 r self)
             else
               Ddr.tunerFqChanged
                 (Ddr.with_channel (Ddr.with_rtl (Ddr.with_fq d fq') (Some r))
                                   (Some ch2))
                 (registerDdr g1 r self) (centerFq tuner)
               ≫= (fun '(d, g) => Ok (true, d, g)))
            = Ok (true, d', g') ->
            exists ch r0 tuner0,
              Ddr.channel d' = Some ch /\ Ddr.rtl d' = Some r0 /\
              wbrx_map g' !! r0 = Some tuner0 /\
              (sampleRate tuner0 = 960000 \/ sampleRate tuner0 = 2400000)).
  { intros ch2 Hc. destruct (negb _); [by inversion Hc|].
    apply bind_Ok_inv in Hc as ([d2 g2] & Ht & Hc). inversion Hc; subst d2 g2.
    apply tunerFqChanged_keeps in Ht as (Hw & Hr & Hch).
    destruct (Hch ltac:(by eexists)) as [ch3 Hch3].
    exists ch3, r, tuner. rewrite Hw, Hr. by repeat split. }
  cbn zeta in Hrun.
  repeat match type of Hrun with
         | (if ?b then _ else _) = _ => destruct b
         end.
  1-3: apply bind_Ok_inv in Hrun as (ch2 & _ & Hrun); by eapply Hafter.
  by inversion Hrun.
Qed.

End RegistryFacts.

Section RegistryTheorems.
Context `{Arith} `{!ComplexArith} (fc : FilterCoeffs) (env : Env).

(** C9.  When a DDR of some name is in the registry of the process,
    [initialize()] of a second DDR of that name reports the duplicate name
    and returns [false], and does not touch the registry: the name is still
    mapped to the first DDR, and every other entry is as it was. *)
Theorem initialize_duplicate_name (self p : addr) (d : Ddr.t) (g : Process) :
  Ddr.find g (Ddr.name d) = Some p ->
  exists g',
    Ddr.initialize fc env self d g = Ok (false, d, g') /\
    console g' = console g ++ [ErrDuplicateName (Ddr.name d)] /\
    ddr_map g' = ddr_map g /\ wbrx_map g' = wbrx_map g /\
    Ddr.find g' (Ddr.name d) = Some p /\
    forall name' : string, Ddr.find g' name' = Ddr.find g name'.
Proof.
  intros Hdup. eexists. split; [by eapply initialize_duplicate|].
  by repeat split.
Qed.

Lemma unregisterDdr_ddr_map (g : Process) (r : string) (self : addr) :
  ddr_map (unregisterDdr g r self) = ddr_map g.
Proof. reflexivity. Qed.

Lemma destroy_unregisters (self : addr) (d : Ddr.t) (g : Process) :
  Ddr.find (Ddr.destroy self d g) (Ddr.name d) = None.
Proof.
  unfold Ddr.destroy, Ddr.find.
  set (g1 := match Ddr.rtl d with
             | Some r => unregisterDdr g r self
             | None => g
             end).
  destruct (ddr_map g1 !! Ddr.name d) eqn:Hl; [|done].
  cbn [ddr_map with_ddr_map]. apply lookup_delete_eq.
Qed.

(** C10.  [initialize()] enters the name of the DDR in the registry before
    it reads [FQ], [WBRX] and [MODULATION].  So when the name was free and
    [initialize()] returns [false], as it does when [FQ] or [WBRX] is
    missing or [MODULATION] has an unknown value, the name stays mapped to
    the DDR that failed: [Ddr::find(name)] returns that DDR, and
    [initialize()] of another DDR of that name fails with the duplicate
    name error.  The destructor of the DDR takes the name out again. *)
Theorem initialize_failure_keeps_name (self : addr) (d d' : Ddr.t)
    (g g' : Process) :
  Ddr.find g (Ddr.name d) = None ->
  let registered := with_ddr_map g (<[Ddr.name d := self]> (ddr_map g)) in
  (getValue_double (cfg env) (Ddr.name d) "FQ" = None ->
     Ddr.initialize fc env self d g
     = Ok (false, d, print registered [ErrFqNotSet (Ddr.name d)])) /\
  (forall fq' : Q,
     getValue_double (cfg env) (Ddr.name d) "FQ" = Some fq' ->
     getValue_string (cfg env) (Ddr.name d) "WBRX" = None ->
     Ddr.initialize fc env self d g
     = Ok (false, Ddr.with_fq d fq',
           print registered [ErrWbrxNotSet (Ddr.name d)])) /\
  (forall (d0 : Ddr.t) (g0 : Process) (ch : Channel.t) (tuner : WbRxRtlSdr)
          (modstr : string),
     getValue_string (cfg env) (Ddr.name d0) "MODULATION" = Some modstr ->
     modstr <> "FM"%string -> modstr <> "WBFM"%string ->
     modstr <> "AM"%string ->
     Ddr.initialize_modulation fc env d0 g0 ch tuner
     = Ok (false, Ddr.with_channel d0 None,
           print g0 [ErrUnknownModulation modstr (Ddr.name d0)])) /\
  (Ddr.initialize fc env self d g = Ok (false, d', g') ->
     ddr_map g' = <[Ddr.name d := self]> (ddr_map g) /\
     Ddr.find g' (Ddr.name d) = Some self /\
     (forall (other : addr) (d2 : Ddr.t),
        Ddr.name d2 = Ddr.name d ->
        Ddr.initialize fc env other d2 g'
        = Ok (false, d2, print g' [ErrDuplicateName (Ddr.name d2)])) /\
     Ddr.find (Ddr.destroy self d' g') (Ddr.name d) = None).
Proof.
  intros Hfree registered. unfold Ddr.find in *.
  split; [|split; [|split]].
  - intros Hfq. unfold Ddr.initialize. by rewrite Hfree, Hfq.
  - intros fq' Hfq Hwbrx. unfold Ddr.initialize.
    rewrite Hfree, Hfq. cbn [Ddr.name Ddr.with_fq]. by rewrite Hwbrx.
  - intros d0 g0 ch tuner modstr Hmod Hfm Hwbfm Ham.
    unfold Ddr.initialize_modulation. rewrite Hmod.
    change (default "FM"%string (Some modstr)) with modstr.
    apply String.eqb_neq in Hfm, Hwbfm, Ham. by rewrite Hfm, Hwbfm, Ham.
  - intros Hrun.
    destruct (initialize_registers fc env self d d' g g' false Hfree Hrun)
      as [Hmap Hname].
    split; [done|]. split; [rewrite Hmap; apply lookup_insert_eq|].
    split.
    + intros other d2 Hd2. apply (initialize_duplicate fc env other self).
      rewrite Hd2, Hmap. apply lookup_insert_eq.
    + rewrite <- Hname. apply destroy_unregisters.
Qed.

End RegistryTheorems.

(** * Runs on concrete inputs *)

Section Concrete.
  #[local] Existing Instance ExactInt.arith.
  #[local] Existing Instance ExactInt.complex_arith.
  Import ExactInt.

Example initialize_rx1 :
  Ddr.initialize (tables 5) (environment (Some (200000001 # 2)%Q) None)
                 1%positive (Ddr.new "RX1") fresh
  = Ok (true, rx1 (200000001 # 2)%Q, running).
Proof. reflexivity. Qed.

(** Scenario 6 of the spec: two DDRs named [RX1] initialized in sequence. *)
Example initialize_rx1_twice :
  Ddr.initialize (tables 5) (environment (Some (200000001 # 2)%Q) None)
                 2%positive (Ddr.new "RX1") running
  = Ok (false, Ddr.new "RX1", print running [ErrDuplicateName "RX1"]).
Proof. reflexivity. Qed.

(** An unknown value of [MODULATION]: [initialize] returns [false], the
    channel is gone, and the name is in the registry. *)
Example initialize_rx1_unknown_modulation :
  Ddr.initialize (tables 5)
                 (environment (Some (200000001 # 2)%Q) (Some "SSB"%string))
                 1%positive (Ddr.new "RX1") fresh
  ≫= (fun '(ok, d, g) =>
        Ok (ok, Ddr.channel d, Ddr.find g "RX1", console g))
  = Ok (false, None, Some 1%positive, [ErrUnknownModulation "SSB" "RX1"]).
Proof. reflexivity. Qed.

(** The boundary of the spec: an offset of exactly [R/2 - 12500] Hz fits. *)
Example tunerFqChanged_boundary_fits :
  Ddr.tunerFqChanged (rx1 (inject_Z 100467500)) running 100000000
  ≫= (fun '(d, g) =>
        Ok ((fun ch => (Channel.enabled ch,
                        length (Translate.exp_lut (Channel.trans ch))))
              <$> Ddr.channel d, console g))
  = Ok (Some (true, 384%nat), []).
Proof. reflexivity. Qed.

(** One Hz further out the channel does not fit. *)
Example tunerFqChanged_boundary_exceeded :
  Ddr.tunerFqChanged (rx1 (inject_Z 100467501)) running 100000000
  ≫= (fun '(d, g) => Ok (Channel.enabled <$> Ddr.channel d, console g))
  = Ok (Some false, [WarnNoFit "RX1" "WBRX1"]).
Proof. reflexivity. Qed.

(** The difference is rounded before it is converted.  [RX1] is at
    [100000 + 2^-36] Hz and the tuner reports the center 400000 Hz: the
    exact difference, [-300000 + 2^-36], is no binary64 value; the nearest
    one is [-300000], and that is the offset of the translator (a table of
    [960000 / 60000 = 16] entries), not [-299999]. *)
Example tunerFqChanged_rounded_offset :
  (double_sub (6871947673600001 # 68719476736) (inject_Z 400000)
   == inject_Z (-300000))%Q /\
  Ddr.tunerFqChanged (rx1 (6871947673600001 # 68719476736)) running 400000
  ≫= (fun '(d, g) =>
        Ok ((fun ch => (Channel.enabled ch,
                        length (Translate.exp_lut (Channel.trans ch))))
              <$> Ddr.channel d, console g))
  = Ok (Some (true, 16%nat), []).
Proof. split; reflexivity. Qed.

(** A DDR on a 2.4 MHz tuner: the constructor of the channelizer deletes a
    pointer it has not initialized. *)
Example initialize_2400_undefined :
  Channel.initialize (tables 5) ExactRuns.channel2400 = Abort Undefined.
Proof. reflexivity. Qed.

(** An empty batch: the demodulators address the first element of an empty
    vector. *)
Example iq_received_empty_batch :
  DemodulatorAm.iq_received (DemodulatorAm.new (tables 5)) []
  = Abort Undefined /\
  DemodulatorFm.iq_received (DemodulatorFm.new (tables 5) 32000 5000) []
  = Abort Undefined.
Proof. split; reflexivity. Qed.

Lemma setBw_decimation_table_witness :
  Spec960.reachable (tables 5) (Channelizer960.new (tables 5)) /\
  (exists r,
     Channelizer960.chSampRate
       (Channelizer960.setBw (Channelizer960.new (tables 5)) BW_10K) = Ok r /\
     r * Spec960.overall BW_10K = 960000) /\
  Spec2400.reachable (tables 5) (Channelizer2400.members (tables 5)) /\
  (exists c' r,
     Channelizer2400.setBw
       {| Channelizer2400.decs := Channelizer2400.members (tables 5);
          Channelizer2400.dec := Null |} BW_10K = Ok c' /\
     Channelizer2400.decFact c' = Ok 150 /\
     Channelizer2400.chSampRate c' = Ok r /\ r * 150 = 2400000) /\
  Channelizer2400.new (tables 5) = Abort Undefined.
Proof.
  split; [apply Spec960.reachable_new|]. split.
  { destruct (proj1 (setBw_decimation_table (tables 5) BW_10K)
                    (Channelizer960.new (tables 5))
                    (Spec960.reachable_new (tables 5)))
      as (ms & r & _ & _ & _ & Hr & Hmul).
    exists r. split; [exact Hr|exact Hmul]. }
  split; [apply Spec2400.reachable_members|].
  destruct (proj1 (proj2 (setBw_decimation_table (tables 5) BW_10K))
                  {| Channelizer2400.decs := Channelizer2400.members (tables 5);
                     Channelizer2400.dec := Null |}
                  {| Channelizer2400.decs := Channelizer2400.members (tables 5);
                     Channelizer2400.dec :=
                       Object (Channelizer2400.cascade BW_10K) |}
                  (Spec2400.reachable_members (tables 5)) eq_refl)
    as (ms & r & _ & _ & _ & Hf & Hr & Hmul).
  split.
  - eexists _, r. split; [reflexivity|]. split; [exact Hf|].
    split; [exact Hr|exact Hmul].
  - exact (proj2 (proj2 (proj2 (proj2
             (setBw_decimation_table (tables 5) BW_20K))))).
Defined.

Lemma translate_phase_index_witness :
  (0 < 8 < 2 ^ 32) /\ (INT_MIN < 2 <= INT_MAX) /\
  exists tr,
    Translate.setOffset (Translate.mk 8 [] 0) 2 = Ok tr /\
    Translate.n tr = 0 /\
    Z.of_nat (length (Translate.exp_lut tr)) = 8 / Z.gcd 8 (Z.abs 2) /\
    Translate.exp_lut tr !! 1%nat = Some (Complex 0 ((-2) * 3 * 2 * 1 / 8)).
Proof.
  assert (H8 : 0 < 8 < 2 ^ 32) by lia.
  assert (H2 : INT_MIN < 2 <= INT_MAX) by (unfold INT_MIN, INT_MAX; lia).
  split; [exact H8|]. split; [exact H2|].
  destruct (translate_phase_index 8 2 H8 H2) as [Hset _].
  destruct (Hset (Translate.mk 8 [] 0) eq_refl) as (tr & Htr & Hn & _ & Hlut).
  destruct (Hlut ltac:(lia)) as [Hlen Hentry].
  exists tr. split; [exact Htr|]. split; [exact Hn|]. split; [exact Hlen|].
  apply (Hentry 1). split; [lia|reflexivity].
Defined.

Lemma fm_setDemodParams_gain_and_mode_witness :
  fm_reachable (tables 5) (DemodulatorFm.new (tables 5) 32000 5000) /\
  DemodulatorFm.wb_mode
    (DemodulatorFm.setDemodParams (tables 5)
       (DemodulatorFm.new (tables 5) 32000 5000) 192000 75000) = true /\
  dec_fact (DemodulatorFm.audio_dec_wb
              (DemodulatorFm.setDemodParams (tables 5)
                 (DemodulatorFm.new (tables 5) 32000 5000) 192000 75000)) = 6.
Proof.
  assert (Hr : fm_reachable (tables 5) (DemodulatorFm.new (tables 5) 32000 5000))
    by apply fm_reachable_new.
  split; [exact Hr|].
  destruct (fm_setDemodParams_gain_and_mode (tables 5)
              (DemodulatorFm.new (tables 5) 32000 5000) 192000 75000 Hr)
    as (_ & _ & _ & Hwb & _ & H192 & _).
  split; [apply Hwb; lia|]. apply H192. reflexivity.
Defined.

Lemma tunerFqChanged_fit_or_disable_witness :
  (exists d' g',
     Ddr.tunerFqChanged (rx1 (inject_Z 100025000)) running 98000000
     = Ok (d', g') /\
     Ddr.channel d' = Some (Channel.disable channel1) /\
     console g' = [WarnNoFit "RX1" "WBRX1"]) /\
  (exists fq_offset tr d',
     (double_sub (Ddr.fq (rx1 (inject_Z 100025000))) (inject_Z 100000000)
      == inject_Z fq_offset)%Q /\
     Translate.setOffset (Channel.trans channel1) fq_offset = Ok tr /\
     Ddr.tunerFqChanged (rx1 (inject_Z 100025000)) running 100000000
     = Ok (d', running) /\
     (Channel.enabled <$> Ddr.channel d') = Some true /\
     (Channel.trans <$> Ddr.channel d') = Some tr).
Proof.
  split.
  - destruct (tunerFqChanged_fit_or_disable (rx1 (inject_Z 100025000)) running
                98000000 channel1 "WBRX1"
                {| wbrx_name := "WBRX1"; centerFq := 100000000;
                   sampleRate := 960000; listeners := {[ 1%positive ]} |}
                eq_refl eq_refl eq_refl ltac:(cbn; lia))
      as (_ & _ & Hdisable & _).
    destruct Hdisable
      as (d' & g' & Hrun & Hch & _ & _ & _ & _ & Hcon & _); [reflexivity|].
    exists d', g'. split; [exact Hrun|]. split; [exact Hch|exact Hcon].
  - destruct (tunerFqChanged_fit_or_disable (rx1 (inject_Z 100025000)) running
                100000000 channel1 "WBRX1"
                {| wbrx_name := "WBRX1"; centerFq := 100000000;
                   sampleRate := 960000; listeners := {[ 1%positive ]} |}
                eq_refl eq_refl eq_refl ltac:(cbn; lia))
      as (_ & Hwhole & _ & Henable).
    destruct Henable as (fq_offset & tr & Hoff & Hz & _ & _ & Hset & Hrun).
    { intros Hgt. discriminate Hgt. }
    pose proof (Hwhole 25000 ltac:(cbn; lia) ltac:(reflexivity)) as Hw.
    exists fq_offset, tr. eexists.
    split; [rewrite (Hz 25000 Hw); exact Hw|].
    split; [exact Hset|]. split; [exact Hrun|]. split; reflexivity.
Defined.

(** C6 as the spec has it fails in two ways.
    The offset is not [fq - newCenter] when that is not a whole number of
    Hz.  [RX1] is tuned to 100000000.5 Hz and the tuner reports the center
    100000000 Hz: the difference, 0.5 Hz, is a binary64 value and fits; the
    channel is enabled and its translator is given the offset 0 (it passes
    the samples through); there is no translator offset equal to
    [fq - newCenter].
    The comparison with the limit is not on [fq - newCenter] when that is
    no binary64 value.  [RX1] is tuned to [12500 - 2^-36] Hz and the tuner
    reports the center 480000 Hz: the difference exceeds the limit 467500
    by [2^-36]; the binary64 difference is [-467500]; the channel is
    enabled, with the offset [-467500] (a table of 384 entries), and
    nothing is printed. *)
Lemma tunerFqChanged_fractional_offset :
  ((Ddr.fq (rx1 (200000001 # 2)) - inject_Z 100000000 == 1 # 2)%Q /\
   (double_sub (Ddr.fq (rx1 (200000001 # 2))) (inject_Z 100000000) == 1 # 2)%Q /\
   exists d' ch',
     Ddr.tunerFqChanged (rx1 (200000001 # 2)) running 100000000
     = Ok (d', running) /\
     Ddr.channel d' = Some ch' /\ Channel.enabled ch' = true /\
     Translate.setOffset (Channel.trans channel1) 0 = Ok (Channel.trans ch') /\
     ~ exists fq_offset : Z,
         (inject_Z fq_offset
          == Ddr.fq (rx1 (200000001 # 2)) - inject_Z 100000000)%Q /\
         Translate.setOffset (Channel.trans channel1) fq_offset
         = Ok (Channel.trans ch')) /\
  ((inject_Z (960000 / 2 - 12500)
    < Qabs (Ddr.fq (rx1 (858993459199999 # 68719476736)) - inject_Z 480000))%Q /\
   (double_sub (Ddr.fq (rx1 (858993459199999 # 68719476736))) (inject_Z 480000)
    == inject_Z (-467500))%Q /\
   Ddr.tunerFqChanged (rx1 (858993459199999 # 68719476736)) running 480000
   ≫= (fun '(d, g) =>
         Ok ((fun ch => (Channel.enabled ch,
                         length (Translate.exp_lut (Channel.trans ch))))
               <$> Ddr.channel d, console g))
   = Ok (Some (true, 384%nat), [])).
Proof.
  split.
  - split; [reflexivity|]. split; [reflexivity|].
    eexists _, _. split; [reflexivity|].
    split; [reflexivity|]. split; [reflexivity|]. split; [reflexivity|].
    intros (fq_offset & Hq & _). revert Hq.
    unfold Qeq, Qminus, Qplus, Qopp, inject_Z. cbn. lia.
  - split; [reflexivity|]. split; reflexivity.
Qed.


Lemma cascade_batch_lengths_witness :
  (exists c' out',
     Channelizer960.iq_received
       (Channelizer960.setBw (Channelizer960.new (tables 5)) BW_20K) []
       (ExactRuns.carrier 60)
     = Ok (c', out') /\
     Z.of_nat (length out') = 2) /\
  (chain [Channelizer2400.dec_2400k_800k; Channelizer2400.dec_800k_160k;
          Channelizer2400.dec_160k_32k]
         (Channelizer2400.members (tables 5)) (ExactRuns.carrier 150)
   ≫= (fun '(p1, s1) =>
         Ok (length s1, dec_fact (p1 Channelizer2400.dec_32k_16k)))
   = Ok (2%nat, 2)) /\
  (forall p1 s1,
     chain [Channelizer2400.dec_2400k_800k; Channelizer2400.dec_800k_160k;
            Channelizer2400.dec_160k_32k]
           (Channelizer2400.members (tables 5)) (ExactRuns.carrier 150)
     = Ok (p1, s1) ->
     Z.of_nat (length s1) mod size_t_of (dec_fact (p1 Channelizer2400.dec_32k_16k))
     = 0) /\
  (exists p' out',
     DecimatorMS.decimate (Channelizer2400.cascade BW_10K)
       (Channelizer2400.members (tables 5)) [] (ExactRuns.carrier 150)
     = Ok (p', out') /\
     Z.of_nat (length out') = 1).
Proof.
  split.
  - destruct (proj1 (cascade_batch_lengths (tables 5) BW_20K []
                       (ExactRuns.carrier 60) 2)
                    (Channelizer960.new (tables 5))
                    (Spec960.reachable_new (tables 5))
                    ltac:(lia) ltac:(reflexivity)
                    ltac:(unfold INT_MAX; cbn; lia))
      as (ms & _ & _ & _ & Hrun).
    apply Hrun. intros m. destruct m; unfold cnt; cbn; lia.
  - destruct (proj2 (cascade_batch_lengths (tables 5) BW_10K []
                       (ExactRuns.carrier 150) 1)
                    (Channelizer2400.members (tables 5))
                    (Spec2400.reachable_members (tables 5))
                    ltac:(lia) ltac:(reflexivity)
                    ltac:(unfold INT_MAX; cbn; lia))
      as (Hstage & _ & Hrun & _).
    split; [reflexivity|]. split.
    + intros p1 s1.
      apply (Hstage [Channelizer2400.dec_2400k_800k;
                     Channelizer2400.dec_800k_160k;
                     Channelizer2400.dec_160k_32k]
                    Channelizer2400.dec_32k_16k
                    [Channelizer2400.ch_filt_narr]). reflexivity.
    + apply Hrun. intros m. destruct m; unfold cnt; cbn; lia.
Defined.

Lemma initialize_duplicate_name_witness :
  exists g',
    Ddr.initialize (tables 5) (environment (Some (inject_Z 100025000)) None)
                   2%positive (Ddr.new "RX1") running
    = Ok (false, Ddr.new "RX1", g') /\
    console g' = [ErrDuplicateName "RX1"] /\
    ddr_map g' = ddr_map running.
Proof.
  destruct (initialize_duplicate_name (tables 5)
              (environment (Some (inject_Z 100025000)) None)
              2%positive 1%positive (Ddr.new "RX1") running eq_refl)
    as (g' & Hrun & Hcon & Hmap & _).
  exists g'. split; [exact Hrun|]. split; [exact Hcon|exact Hmap].
Defined.

Lemma initialize_failure_keeps_name_witness :
  exists d' g',
    Ddr.initialize (tables 5) (environment None None) 1%positive
                   (Ddr.new "RX1") fresh = Ok (false, d', g') /\
    Ddr.find g' "RX1" = Some 1%positive /\
    Ddr.initialize (tables 5) (environment None None) 2%positive
                   (Ddr.new "RX1") g'
    = Ok (false, Ddr.new "RX1", print g' [ErrDuplicateName "RX1"]).
Proof.
  exists (Ddr.new "RX1"),
         (print (with_ddr_map fresh
                   (<["RX1"%string := 1%positive]> (ddr_map fresh)))
                [ErrFqNotSet "RX1"]).
  assert (Hrun : Ddr.initialize (tables 5) (environment None None) 1%positive
                   (Ddr.new "RX1") fresh
                 = Ok (false, Ddr.new "RX1",
                       print (with_ddr_map fresh
                                (<["RX1"%string := 1%positive]> (ddr_map fresh)))
                             [ErrFqNotSet "RX1"])) by reflexivity.
  destruct (initialize_failure_keeps_name (tables 5) (environment None None)
              1%positive (Ddr.new "RX1") (Ddr.new "RX1") fresh
              (print (with_ddr_map fresh
                        (<["RX1"%string := 1%positive]> (ddr_map fresh)))
                     [ErrFqNotSet "RX1"])
              eq_refl)
    as (_ & _ & _ & Hkeep).
  destruct (Hkeep Hrun) as (_ & Hfind & Hdup & _).
  split; [exact Hrun|]. split; [exact Hfind|].
  apply (Hdup 2%positive (Ddr.new "RX1")). reflexivity.
Defined.

End Concrete.

(** * Further properties of the code *)

(** Evaluation of the steps of a run that are known. *)
Ltac run_steps :=
  repeat (progress (rewrite ?bind_Ok, ?bind_Abort; cbn beta iota)).

(** ** The translator *)

Section TranslateExtras.
Context `{Arith} `{!ComplexArith}.
Import Translate.

Lemma gcd_zero_divisor (dividend : Z) : gcd dividend 0 = Abort Undefined.
Proof. by simp gcd. Qed.

(** X1.  [Translate::gcd] returns the greatest common divisor of its
    arguments for every divisor other than zero, whichever of the two is the
    larger (its comment asks for the dividend to be the larger; the first
    division swaps them otherwise).  For the divisor zero the first remainder
    is a division by zero. *)
Theorem gcd_any_order (dividend divisor : Z) :
  0 <= dividend -> 0 <= divisor ->
  (divisor = 0 -> gcd dividend divisor = Abort Undefined) /\
  (0 < divisor ->
     exists g,
       gcd dividend divisor = Ok g /\ 0 < g <= divisor /\
       Z.divide g dividend /\ Z.divide g divisor /\
       (forall c, Z.divide c dividend -> Z.divide c divisor -> Z.divide c g) /\
       (0 < dividend -> gcd divisor dividend = Ok g)).
Proof.
  intros Ha Hb. split; [intros ->; apply gcd_zero_divisor|].
  intros Hpos. exists (Z.gcd dividend divisor).
  split; [by apply gcd_Z_gcd|].
  pose proof (Z.gcd_nonneg dividend divisor) as Hg0.
  pose proof (Z.gcd_divide_l dividend divisor) as Hl.
  pose proof (Z.gcd_divide_r dividend divisor) as Hr.
  assert (Hg : 0 < Z.gcd dividend divisor).
  { destruct (Z.eq_dec (Z.gcd dividend divisor) 0) as [E|]; [|lia].
    apply Z.gcd_eq_0_r in E. lia. }
  split; [split; [done|by apply Z.divide_pos_le]|].
  split; [done|]. split; [done|].
  split; [intros c; apply Z.gcd_greatest|].
  intros Hd. rewrite gcd_Z_gcd by done. by rewrite Z.gcd_comm.
Qed.

Lemma gcd_result_positive (dividend divisor g : Z) :
  gcd dividend divisor = Ok g -> 0 < g.
Proof.
  funelim (gcd dividend divisor); intros Hg; try discriminate; eauto.
  inversion Hg; subst. lia.
Qed.

(** X2.  The table [setOffset] builds covers a whole number of turns of the
    oscillator, and no shorter table would: with [N] the number of entries,
    [R] divides [f * N] (the phase [2*pi*f*N/R] at the wrap-around is a
    multiple of [2*pi]), and [N] divides every [m > 0] for which [R] divides
    [f * m]. *)
Theorem lut_covers_whole_turns (tr tr' : t) (f : Z) :
  0 < samp_rate tr -> f <> 0 -> INT_MIN < f <= INT_MAX ->
  setOffset tr f = Ok tr' ->
  let N := Z.of_nat (length (exp_lut tr')) in
  0 < N /\
  Z.divide (samp_rate tr) (f * N) /\
  forall m : Z, 0 < m -> Z.divide (samp_rate tr) (f * m) ->
    Z.divide N m /\ N <= m.
Proof.
  intros HR Hf Hrange Hset N.
  rewrite setOffset_nonzero in Hset by done. inversion Hset; subst tr'.
  clear Hset. cbn [exp_lut] in N.
  pose proof (lut_period_bounds (samp_rate tr) f HR Hf) as HN.
  assert (HNeq : N = lut_period (samp_rate tr) f).
  { unfold N. rewrite length_fmap, length_seqZ. lia. }
  rewrite HNeq. clear N HNeq. unfold lut_period in *.
  set (R := samp_rate tr) in *. set (g := Z.gcd R (Z.abs f)) in *.
  pose proof (Z.gcd_nonneg R (Z.abs f)) as Hg0.
  assert (Hg : 0 < g).
  { destruct (Z.eq_dec g 0) as [E|]; [|lia].
    apply Z.gcd_eq_0_l in E. lia. }
  destruct (Z.gcd_divide_l R (Z.abs f)) as [r' Hr']. fold g in Hr'.
  destruct (Z.gcd_divide_r R (Z.abs f)) as [f' Hf']. fold g in Hf'.
  assert (HRg : R / g = r') by (rewrite Hr'; apply Z.div_mul; lia).
  assert (Hcop : Z.gcd r' f' = 1).
  { pose proof (Z.gcd_div_gcd R (Z.abs f) g ltac:(lia) eq_refl) as Hc.
    rewrite HRg in Hc. replace (Z.abs f / g) with f' in Hc; [done|].
    rewrite Hf'. symmetry. apply Z.div_mul. lia. }
  rewrite HRg in *. split; [lia|]. split.
  - (* R divides |f| * r' = f' * R, hence f * r' *)
    assert (Habs : Z.divide R (Z.abs f * r')).
    { exists f'. rewrite Hf', Hr'. lia. }
    assert (E : f * r' = Z.abs f * r' \/ f * r' = - (Z.abs f * r')) by lia.
    destruct E as [->| ->]; [done|]. by apply Z.divide_opp_r.
  - intros m Hm Hdiv.
    assert (Habs : Z.divide R (Z.abs f * m)).
    { assert (E : Z.abs f * m = f * m \/ Z.abs f * m = - (f * m)) by lia.
      destruct E as [->| ->]; [done|]. by apply Z.divide_opp_r. }
    assert (Hr'm : Z.divide r' (f' * m)).
    { destruct Habs as [q Hq]. exists q.
      rewrite Hf', Hr' in Hq. nia. }
    assert (Hdm : Z.divide r' m) by (eapply Z.gauss; eassumption).
    split; [done|]. apply Z.divide_pos_le; [lia|done].
Qed.

(** The loop carries the samples already written in front of those it
    writes. *)
Lemma translate_loop_acc (lut : list complex) (n0 : Z) (out in_ : list complex) :
  translate_loop lut n0 out in_
  = translate_loop lut n0 [] in_ ≫= (fun '(n1, o) => Ok (n1, out ++ o)).
Proof.
  revert n0 out. induction in_ as [|x rest IH]; intros n0 out.
  - cbn. by rewrite app_nil_r.
  - cbn [translate_loop]. destruct (lut !! Z.to_nat n0) as [e|]; [|done].
    rewrite (IH _ (out ++ [c_mul x e])), (IH _ ([] ++ [c_mul x e])).
    destruct (translate_loop lut _ [] rest) as [[n1 o]|]; [|done].
    run_steps. by rewrite <- app_assoc.
Qed.

Lemma translate_loop_app (lut : list complex) (n0 : Z) (in1 in2 : list complex) :
  translate_loop lut n0 [] (in1 ++ in2)
  = translate_loop lut n0 [] in1
    ≫= (fun '(n1, o1) =>
          translate_loop lut n1 [] in2 ≫= (fun '(n2, o2) => Ok (n2, o1 ++ o2))).
Proof.
  revert n0. induction in1 as [|x rest IH]; intros n0.
  - cbn [app translate_loop]. run_steps.
    by destruct (translate_loop lut n0 [] in2) as [[n2 o2]|].
  - cbn [app translate_loop]. destruct (lut !! Z.to_nat n0) as [e|]; [|done].
    set (n1 := if _ =? _ then 0 else _).
    rewrite (translate_loop_acc lut n1 [c_mul x e] (rest ++ in2)).
    rewrite (translate_loop_acc lut n1 [c_mul x e] rest).
    rewrite IH.
    destruct (translate_loop lut n1 [] rest) as [[n2 o1]|]; [|done].
    run_steps.
    destruct (translate_loop lut n2 [] in2) as [[n3 o2]|]; [|done].
    by run_steps.
Qed.

(** X3.  The translator does not depend on where a stream is cut into
    batches: a batch [in1 ++ in2] leaves the translator in the same state,
    and gives the same output, as the batch [in1] followed by the batch
    [in2]; what [out] held before a call does not matter. *)
Theorem translate_batches_compose (tr : t) (out in1 in2 : list complex) :
  iq_received tr out (in1 ++ in2)
  = iq_received tr [] in1
    ≫= (fun '(tr1, out1) =>
          iq_received tr1 [] in2
          ≫= (fun '(tr2, out2) => Ok (tr2, out1 ++ out2))).
Proof.
  unfold iq_received.
  destruct (0 <? Z.of_nat (length (exp_lut tr))) eqn:Hlut.
  - rewrite translate_loop_app.
    destruct (translate_loop (exp_lut tr) (n tr) [] in1) as [[n1 o1]|]; [|done].
    run_steps. cbn [exp_lut n]. rewrite Hlut.
    destruct (translate_loop (exp_lut tr) n1 [] in2) as [[n2 o2]|]; [|done].
    by run_steps.
  - run_steps. rewrite Hlut. by run_steps.
Qed.

End TranslateExtras.

(** ** The FIR decimator *)

Section DecimatorExtras.
Context `{Arith} {T : Type} `{!Sample T}.
Implicit Types (d : Decimator T) (z src out : list T).

(** The loop counts the samples it appends. *)
Lemma decimate_loop_count (bound : nat) d src out (num : Z) d' out' num' :
  decimate_loop bound d src out num = Ok (d', out', num') ->
  Z.of_nat (length out') = Z.of_nat (length out) + (num' - num).
Proof.
  revert d src out num.
  induction bound as [|bound IH]; intros d src out num Hloop.
  - destruct src; cbn in Hloop; [inversion Hloop; lia|discriminate].
  - destruct src as [|x src]; cbn [decimate_loop] in Hloop.
    { inversion Hloop; lia. }
    unfold decimate_body in Hloop.
    destruct (copy_samples _ _ _) as [[z1 src1]|e]; [|discriminate].
    rewrite bind_Ok in Hloop. cbn beta iota in Hloop.
    rewrite bind_Ok in Hloop. cbn beta iota in Hloop.
    apply IH in Hloop. rewrite length_app in Hloop. cbn [length] in Hloop. lia.
Qed.

(** X4.  [decimate] never returns on a batch it cannot decimate exactly.
    With a decimation factor [M >= 1] (and sizes an [int] holds): a batch
    whose length is not a multiple of [M] stops at the first assertion; a
    decimator with fewer taps than [M] stops at the second, even on an empty
    batch; and whenever [decimate] returns, the batch was a multiple of [M],
    [out] holds exactly [in.size() / M] samples, and factor, taps and both
    coefficient vectors are as before.  With the factor 0 of a
    default-constructed decimator the first assertion divides by zero. *)
Theorem decimate_outcomes d out in_ :
  Z.of_nat (length in_) <= INT_MAX ->
  (dec_fact d = 0 -> decimate d out in_ = Abort Undefined) /\
  (0 < dec_fact d <= INT_MAX ->
     (Z.of_nat (length in_) mod dec_fact d <> 0 ->
        decimate d out in_ = Abort AssertBatchLen) /\
     (Z.of_nat (length in_) mod dec_fact d = 0 -> taps d < dec_fact d ->
        decimate d out in_ = Abort AssertTaps) /\
     (forall d' out', decimate d out in_ = Ok (d', out') ->
        Z.of_nat (length in_) mod dec_fact d = 0 /\
        dec_fact d <= taps d /\
        Z.of_nat (length out') * dec_fact d = Z.of_nat (length in_) /\
        dec_fact d' = dec_fact d /\ taps d' = taps d /\
        set_coeff d' = set_coeff d /\ coeff d' = coeff d)).
Proof.
  unfold INT_MAX. intros Hmax. split.
  { intros Hz. unfold decimate. by rewrite Hz. }
  intros HM. unfold decimate. rewrite size_t_of_small by lia.
  replace (negb (dec_fact d =? 0)) with true
    by (symmetry; apply negb_true_iff, Z.eqb_neq; lia).
  cbn [assert]. rewrite bind_Ok.
  destruct (Z.eqb_spec (Z.of_nat (length in_) mod dec_fact d) 0) as [Hmod|Hmod].
  2:{ split; [done|]. split; [done|]. intros d' out' Hrun. discriminate. }
  cbn [assert]. rewrite bind_Ok.
  destruct (Z.leb_spec (dec_fact d) (taps d)) as [Htaps|Htaps].
  2:{ split; [done|]. split; [done|]. intros d' out' Hrun. discriminate. }
  cbn [assert]. rewrite bind_Ok.
  split; [done|]. split; [lia|]. intros d' out' Hrun.
  apply bind_Ok_inv in Hrun as ([[d1 out1] num1] & Hloop & Hrun).
  cbn beta iota in Hrun.
  apply bind_Ok_inv in Hrun as (? & Hnum & Hrun). inversion Hrun; subst d1 out1.
  apply assert_Ok_inv, Z.eqb_eq in Hnum.
  rewrite to_int_small in Hnum by (unfold INT_MIN, INT_MAX; lia).
  pose proof (decimate_loop_count _ _ _ _ _ _ _ _ Hloop) as Hcount.
  apply decimate_loop_params in Hloop as (Hf & Ht & Hs & Hc).
  split; [done|]. split; [done|]. split; [|done].
  cbn [length] in Hcount.
  rewrite Z.quot_div_nonneg in Hnum by lia.
  pose proof (Z.div_mod (Z.of_nat (length in_)) (dec_fact d) ltac:(lia)).
  nia.
Qed.

(** After [k] groups the delay line holds the most recent samples of the
    stream, newest first. *)
Lemma delay_line_recent (M Tn : nat) z (k : nat) src :
  length z = Tn -> (M <= Tn)%nat -> (k * M <= length src)%nat ->
  delay_line M Tn z k src = take Tn (reverse (take (k * M) src) ++ z).
Proof.
  revert z src. induction k as [|k IH]; intros z src Hz HM Hsrc.
  - cbn [delay_line Nat.mul]. rewrite take_0. cbn. by rewrite take_ge by lia.
  - cbn [delay_line]. rewrite IH.
    + unfold shift_in.
      replace (S k * M)%nat with (M + k * M)%nat by lia.
      rewrite <- (take_take_drop src M (k * M)), reverse_app, <- app_assoc.
      set (A := reverse (take (k * M) (drop M src))).
      set (B := reverse (take M src)).
      assert (HB : length B = M).
      { unfold B. rewrite length_reverse, length_take. lia. }
      rewrite !(take_app A). f_equal.
      rewrite !(take_app B). f_equal.
      rewrite take_take. f_equal. lia.
    + apply shift_in_length; [done| |done]. rewrite length_take. lia.
    + done.
    + rewrite length_drop. lia.
Qed.

(** The outputs of two batches one after the other. *)
Lemma fir_outputs_app (M Tn : nat) (c : list float) z (k1 k2 : nat) in1 in2 :
  length in1 = (k1 * M)%nat ->
  fir_outputs M Tn c z (k1 + k2) (in1 ++ in2)
  = ((fir_outputs M Tn c z k1 in1).1
       ++ (fir_outputs M Tn c (fir_outputs M Tn c z k1 in1).2 k2 in2).1,
     (fir_outputs M Tn c (fir_outputs M Tn c z k1 in1).2 k2 in2).2).
Proof.
  revert z in1. induction k1 as [|k1 IH]; intros z in1 Hlen.
  - destruct in1; [|discriminate]. cbn.
    by destruct (fir_outputs M Tn c z k2 in2).
  - cbn [Nat.add fir_outputs].
    assert (HM : (M <= length in1)%nat) by lia.
    rewrite take_app_le, drop_app_le by done.
    rewrite (IH _ (drop M in1)) by (rewrite length_drop; lia).
    destruct (fir_outputs M Tn c _ k1 (drop M in1)) as [o1 z1]. cbn [fst snd].
    by destruct (fir_outputs M Tn c z1 k2 in2) as [o2 z2].
Qed.

(** X5.  [decimate] is the convolution of the stream with the coefficients,
    taken at every [M]-th sample: for a decimator constructed with factor [M]
    and [Tn >= M] taps whose delay line holds [z], output [j] of a batch of
    [k * M] samples is the sum of [coeff[t] * x[t]] over the [Tn] most recent
    samples [x] of the stream up to input sample [(j+1)*M - 1], newest first
    (taken from [z] where the batch does not reach back far enough), and the
    delay line left behind holds the [Tn] most recent samples of all. *)
Theorem decimate_convolution (M Tn : Z) (k : nat) d out in_ :
  constructed M Tn d -> 0 < M <= Tn -> (0 < k)%nat ->
  length in_ = (k * Z.to_nat M)%nat -> Z.of_nat (length in_) <= INT_MAX ->
  exists d' out',
    decimate d out in_ = Ok (d', out') /\
    (forall j, (j < k)%nat ->
       out' !! j
       = Some (fir (coeff d)
                   (take (Z.to_nat Tn)
                         (reverse (take (S j * Z.to_nat M) in_) ++ p_Z d)))) /\
    p_Z d' = take (Z.to_nat Tn) (reverse in_ ++ p_Z d).
Proof.
  intros Hc HMT Hk Hlen Hmax.
  pose proof (constructed_wf M Tn d Hc) as Hwf.
  assert (Hz : length (p_Z d) = Z.to_nat Tn) by apply Hwf.
  assert (HMmax : M <= INT_MAX) by (unfold INT_MAX in *; nia).
  eexists _, _.
  split; [exact (decimate_wf_Ok M Tn k d out in_ Hwf HMT HMmax Hlen Hmax)|].
  split.
  - intros j Hj. rewrite fir_outputs_lookup by done. do 2 f_equal.
    apply delay_line_recent; [done|lia|nia].
  - cbn [p_Z with_p_Z].
    transitivity (delay_line (Z.to_nat M) (Z.to_nat Tn) (p_Z d) k in_).
    + clear. generalize (p_Z d) as z. revert in_.
      induction k as [|k IH]; intros src z; [reflexivity|].
      cbn [fir_outputs delay_line].
      specialize (IH (drop (Z.to_nat M) src)
                     (shift_in (Z.to_nat M) (Z.to_nat Tn) z
                               (take (Z.to_nat M) src))).
      destruct (fir_outputs _ _ _ _ k _) as [outs zf]. exact IH.
    + rewrite delay_line_recent by (done || lia).
      rewrite <- Hlen. by rewrite (take_ge in_) by lia.
Qed.

Lemma fir_outputs_delay (M Tn : nat) (c : list float) z (k : nat) src :
  (fir_outputs M Tn c z k src).2 = delay_line M Tn z k src.
Proof.
  revert z src. induction k as [|k IH]; intros z src; [reflexivity|].
  cbn [fir_outputs delay_line].
  specialize (IH (shift_in M Tn z (take M src)) (drop M src)).
  by destruct (fir_outputs M Tn c _ k _) as [outs zf].
Qed.

(** X6.  A decimator does not depend on where a stream is cut into batches:
    for a decimator constructed with factor [M] and [Tn >= M] taps, and two
    batches whose lengths are multiples of [M], the batch [in1 ++ in2] gives
    the output of [in1] followed by that of [in2], and leaves the same
    state. *)
Theorem decimate_batches_compose (M Tn : Z) (k1 k2 : nat) d out in1 in2 :
  constructed M Tn d -> 0 < M <= Tn -> M <= INT_MAX ->
  length in1 = (k1 * Z.to_nat M)%nat -> length in2 = (k2 * Z.to_nat M)%nat ->
  Z.of_nat (length (in1 ++ in2)) <= INT_MAX ->
  decimate d out (in1 ++ in2)
  = decimate d [] in1
    ≫= (fun '(d1, out1) =>
          decimate d1 [] in2 ≫= (fun '(d2, out2) => Ok (d2, out1 ++ out2))).
Proof.
  intros Hc HMT HMmax Hlen1 Hlen2 Hmax.
  pose proof (constructed_wf M Tn d Hc) as Hwf.
  assert (Hz : length (p_Z d) = Z.to_nat Tn) by apply Hwf.
  rewrite length_app in Hmax.
  rewrite (decimate_wf_Ok M Tn (k1 + k2) d out (in1 ++ in2))
    by (done || rewrite length_app; lia).
  rewrite (decimate_wf_Ok M Tn k1 d [] in1) by (done || lia).
  run_steps.
  set (z1 := (fir_outputs _ _ _ (p_Z d) k1 in1).2).
  assert (Hz1 : length z1 = Z.to_nat Tn).
  { apply fir_outputs_delay_length; [done|lia|done]. }
  rewrite (decimate_wf_Ok M Tn k2 (with_p_Z d z1) [] in2)
    by (done || lia || by apply with_p_Z_wf).
  run_steps. cbn [coeff p_Z with_p_Z].
  rewrite fir_outputs_app by done. reflexivity.
Qed.

(** X7.  The gain of a decimator is relative to the design coefficients and
    touches nothing else: [setGain] replaces an earlier gain instead of
    adding to it; and a decimator whose gain was set to [g] goes through the
    same delay lines as the one without, each output being the FIR sum with
    the design coefficients scaled by [10^(g/20)] where the other has the
    sum with its working coefficients. *)
Theorem setGain_relative_to_design (M Tn : Z) (k : nat) d out in_
    (g g' : double) :
  constructed M Tn d -> 0 < M <= Tn -> (0 < k)%nat ->
  length in_ = (k * Z.to_nat M)%nat -> Z.of_nat (length in_) <= INT_MAX ->
  setGain (setGain d g') g = setGain d g /\
  exists d1 out1 d2 out2,
    decimate d out in_ = Ok (d1, out1) /\
    decimate (setGain d g) out in_ = Ok (d2, out2) /\
    d2 = setGain d1 g /\ p_Z d2 = p_Z d1 /\
    forall j, (j < k)%nat ->
      exists x : list T,
        out1 !! j = Some (fir (coeff d) x) /\
        out2 !! j
        = Some (fir ((fun c => d2f (d_mul (f2d c)
                                 (d_pow (d_of_Z 10) (d_div g (d_of_Z 20)))))
                       <$> set_coeff d) x).
Proof.
  intros Hc HMT Hk Hlen Hmax. split; [reflexivity|].
  pose proof (constructed_wf M Tn d Hc) as Hwf.
  pose proof (setGain_wf M Tn d g Hwf) as Hwfg.
  assert (HMmax : M <= INT_MAX) by (unfold INT_MAX in *; nia).
  eexists _, _, _, _.
  split; [exact (decimate_wf_Ok M Tn k d out in_ Hwf HMT HMmax Hlen Hmax)|].
  split; [exact (decimate_wf_Ok M Tn k _ out in_ Hwfg HMT HMmax Hlen Hmax)|].
  cbn [p_Z coeff setGain with_p_Z]. rewrite !fir_outputs_delay.
  split; [reflexivity|]. split; [reflexivity|].
  intros j Hj. eexists. rewrite !fir_outputs_lookup by done.
  split; reflexivity.
Qed.

End DecimatorExtras.

(** ** Cascades *)

Section CascadeExtras.
Context `{Arith} {T : Type} `{!Sample T} {Id : Type} `{!EqDecision Id}.
Implicit Types (p : Id -> Decimator T) (ids : list Id).

Lemma stage_frame p d out in_ (p' : Id -> Decimator T) out' :
  DecimatorMS.stage p d out in_ = Ok (p', out') ->
  (forall m, m <> d -> p' m = p m) /\
  (forall m, dec_fact (p' m) = dec_fact (p m) /\ taps (p' m) = taps (p m) /\
             set_coeff (p' m) = set_coeff (p m) /\ coeff (p' m) = coeff (p m)).
Proof.
  intros Hs. unfold DecimatorMS.stage in Hs.
  apply bind_Ok_inv in Hs as ([d1 out1] & Hdec & Hs).
  injection Hs as <- <-.
  split.
  - intros m Hm. by rewrite fn_lookup_insert_ne.
  - intros m. destruct (decide (d = m)) as [<-|Hne].
    + rewrite fn_lookup_insert. by eapply decimate_params.
    + by rewrite fn_lookup_insert_ne.
Qed.

Lemma chain_frame ids p in_ (p' : Id -> Decimator T) out' :
  chain ids p in_ = Ok (p', out') ->
  (forall m, m ∉ ids -> p' m = p m) /\
  (forall m, dec_fact (p' m) = dec_fact (p m) /\ taps (p' m) = taps (p m) /\
             set_coeff (p' m) = set_coeff (p m) /\ coeff (p' m) = coeff (p m)).
Proof.
  revert p in_. induction ids as [|d ids IH]; intros p in_ Hc.
  - by injection Hc as <- <-.
  - cbn [chain] in Hc.
    apply bind_Ok_inv in Hc as ([p1 s1] & Hs & Hc).
    apply stage_frame in Hs as [Hs1 Hs2]. apply IH in Hc as [Hc1 Hc2].
    split.
    + intros m Hm. apply not_elem_of_cons in Hm as [Hmd Hm].
      rewrite Hc1 by done. by apply Hs1.
    + intros m. destruct (Hc2 m) as (-> & -> & -> & ->). apply Hs2.
Qed.

(** X8.  A cascade, of any of the five classes and over any decimators,
    touches only the delay lines of its own stages: when [decimate] returns,
    the decimators that are not stages of the cascade are as they were, every
    decimator has the factor, the taps and the coefficients it had, and
    [decFact()] is unchanged. *)
Theorem cascade_touches_own_delay_lines (ms : DecimatorMS.t Id) p
    (p' : Id -> Decimator T)
    (out in_ out' : list T) :
  DecimatorMS.decimate ms p out in_ = Ok (p', out') ->
  (forall m, m ∉ DecimatorMS.stages ms -> p' m = p m) /\
  (forall m, dec_fact (p' m) = dec_fact (p m) /\ taps (p' m) = taps (p m) /\
             set_coeff (p' m) = set_coeff (p m) /\ coeff (p' m) = coeff (p m)) /\
  DecimatorMS.decFact ms p' = DecimatorMS.decFact ms p.
Proof.
  rewrite decimate_chain. intros Hc. apply chain_frame in Hc as [Hout Hpar].
  split; [done|]. split; [done|].
  assert (Hfact : forall m, dec_fact (p' m) = dec_fact (p m))
    by (intros m; apply Hpar).
  destruct ms; unfold DecimatorMS.decFact, decFact; by rewrite !Hfact.
Qed.

End CascadeExtras.

(** ** The channel *)

Section ChannelExtras.
Context `{Arith} `{!ComplexArith} (fc : FilterCoeffs).

Lemma channelizer960_rate (c : Channelizer960.t) (m : Modulation) :
  Spec960.reachable fc c ->
  Channelizer960.chSampRate (Channelizer960.setBw c (modulation_bw m))
  = Ok (modulation_rate m).
Proof. intros Hr. rewrite (chSampRate960 fc) by done. by destruct m. Qed.

(** X9.  [Channel::initialize] accepts the tuner rate 960000.  It returns
    [true] without output, with a 960 kHz channelizer set to 20 kHz, the FM
    demodulator selected in narrow mode, and a channel rate of 32000;
    translator, enable state and AM demodulator are not touched.  For the
    rate 2400000 it constructs a [Channelizer2400], whose constructor
    deletes a pointer it has not initialized: what follows is not defined.
    For every other rate it prints the error, returns [false] and leaves
    the channel without channelizer and demodulator, as it was. *)
Theorem Channel_initialize_outcome (ch : Channel.t) :
  (Channel.sample_rate ch <> 960000 -> Channel.sample_rate ch <> 2400000 ->
     Channel.initialize fc ch
     = Ok (false, ch, [ErrUnsupportedRate (Channel.sample_rate ch)])) /\
  (Channel.sample_rate ch = 960000 ->
     exists ch' c,
       Channel.initialize fc ch = Ok (true, ch', []) /\
       Channel.channelizer ch' = Some (Channel.Ch960 c) /\
       Spec960.reachable fc c /\
       Channelizer960.dec c
       = Some (DecimatorMS.DecimatorMS4 Channelizer960.dec_960k_192k
                 Channelizer960.dec_192k_64k Channelizer960.dec_64k_32k
                 Channelizer960.ch_filt) /\
       Channel.chSampRate ch' = Ok 32000 /\
       Channel.demod ch' = Some Channel.fm_demod_ref /\
       DemodulatorFm.wb_mode (Channel.fm_demod ch') = false /\
       Channel.sample_rate ch' = Channel.sample_rate ch /\
       Channel.trans ch' = Channel.trans ch /\
       Channel.enabled ch' = Channel.enabled ch /\
       Channel.am_demod ch' = Channel.am_demod ch) /\
  (Channel.sample_rate ch = 2400000 ->
     Channelizer2400.new fc = Abort Undefined /\
     Channel.initialize fc ch = Abort Undefined).
Proof.
  split; [|split].
  - intros H960 H2400. unfold Channel.initialize.
    destruct (Z.eqb_spec (Channel.sample_rate ch) 2400000); [done|].
    by destruct (Z.eqb_spec (Channel.sample_rate ch) 960000).
  - intros Hr. unfold Channel.initialize. rewrite Hr. cbn [Z.eqb Pos.eqb].
    unfold Channel.setModulation.
    cbn [Channel.channelizer Channel.with_channelizer Channel.channelizer_setBw].
    run_steps. cbn [Channel.channelizer_chSampRate].
    rewrite (channelizer960_rate _ MOD_FM) by apply Spec960.reachable_new.
    run_steps. eexists _, _. split; [reflexivity|].
    cbn [Channel.channelizer Channel.demod Channel.fm_demod Channel.trans
         Channel.enabled Channel.am_demod Channel.sample_rate].
    split; [reflexivity|].
    split; [apply Spec960.reachable_setBw, Spec960.reachable_new|].
    split; [reflexivity|].
    split; [unfold Channel.chSampRate; cbn [Channel.channelizer
              Channel.channelizer_chSampRate];
            apply (channelizer960_rate _ MOD_FM), Spec960.reachable_new|].
    by repeat split.
  - intros Hr. split; [reflexivity|].
    unfold Channel.initialize. by rewrite Hr.
Qed.

End ChannelExtras.

(** ** The channel, from the tuner to the audio *)

Section ChannelRuns.
Context `{Arith} `{!ComplexArith} (fc : FilterCoeffs).

Lemma setOffset_ready (tr tr' : Translate.t) (f : Z) :
  0 < Translate.samp_rate tr < 2 ^ 32 ->
  Translate.setOffset tr f = Ok tr' ->
  Translate.samp_rate tr' = Translate.samp_rate tr /\ translate_ready tr'.
Proof.
  intros HR Hset. unfold Translate.setOffset in Hset.
  destruct (f =? 0).
  - injection Hset as <-. unfold translate_ready. cbn. lia.
  - apply bind_Ok_inv in Hset as (? & _ & Hset).
    apply bind_Ok_inv in Hset as (g & Hg & Hset).
    apply gcd_result_positive in Hg.
    injection Hset as <-. unfold translate_ready.
    cbn [Translate.samp_rate Translate.exp_lut Translate.n].
    rewrite length_fmap, length_seqZ.
    assert (0 <= Translate.samp_rate tr / g <= Translate.samp_rate tr).
    { split; [apply Z.div_pos; lia|].
      apply Z.div_le_upper_bound; [lia|]. nia. }
    lia.
Qed.

Lemma translate_run (tr : Translate.t) (in_ : list complex) :
  translate_ready tr ->
  exists tr' out',
    Translate.iq_received tr [] in_ = Ok (tr', out') /\
    length out' = length in_ /\
    Translate.samp_rate tr' = Translate.samp_rate tr /\ translate_ready tr'.
Proof.
  intros (HR & HN & Hn). unfold Translate.iq_received.
  destruct (Z.ltb_spec 0 (Z.of_nat (length (Translate.exp_lut tr)))) as [Hpos|Hz].
  - destruct (translate_loop_Ok (Translate.exp_lut tr) (Translate.n tr) [] in_)
      as (o & Hloop & Hlen & _); [lia..|].
    rewrite Hloop, bind_Ok. cbn beta iota. eexists _, _.
    split; [reflexivity|]. split; [done|]. split; [done|].
    unfold translate_ready.
    cbn [Translate.samp_rate Translate.exp_lut Translate.n].
    split; [done|]. split; [done|]. right. apply Z.mod_pos_bound. lia.
  - exists tr, in_. do 3 (split; [done|]). exact (conj HR (conj HN Hn)).
Qed.

Lemma translate_keeps_ready (tr tr' : Translate.t) (out in_ out' : list complex) :
  translate_ready tr -> Translate.iq_received tr out in_ = Ok (tr', out') ->
  Translate.samp_rate tr' = Translate.samp_rate tr /\ translate_ready tr'.
Proof.
  intros Hr Hiq. destruct (translate_run tr in_ Hr) as (tr1 & o1 & Hrun & _ & Hs & Hr1).
  assert (Hout : Translate.iq_received tr out in_ = Translate.iq_received tr [] in_)
    by reflexivity.
  rewrite Hout, Hrun in Hiq. by injection Hiq as <- <-.
Qed.

Lemma channelizer960_keeps (c c' : Channelizer960.t) (bw : Bandwidth)
    (out in_ out' : list complex) :
  Spec960.reachable fc c ->
  Channelizer960.iq_received c out in_ = Ok (c', out') ->
  Spec960.reachable fc c' /\
  (Channelizer960.setBw c bw = c -> Channelizer960.setBw c' bw = c').
Proof.
  intros Hok Hrun. split; [by eapply Spec960.reachable_iq_received|].
  unfold Channelizer960.iq_received in Hrun.
  destruct c as [p [ms|]]; cbn [Channelizer960.dec] in Hrun; [|discriminate].
  apply bind_Ok_inv in Hrun as ([p1 o2] & _ & Hrun). injection Hrun as <- <-.
  unfold Channelizer960.setBw. cbn [Channelizer960.decs].
  intros Hsel. injection Hsel as Hsel. by rewrite Hsel.
Qed.

(** The channelizer given [k] groups of samples puts out [k] samples. *)
Lemma channelizer960_run (c : Channelizer960.t) (m : Modulation)
    (in_ : list complex) (k : Z) :
  tables_fit fc -> Spec960.reachable fc c ->
  Channelizer960.setBw c (modulation_bw m) = c ->
  0 <= k -> Z.of_nat (length in_) = k * (960000 / modulation_rate m) ->
  Z.of_nat (length in_) <= INT_MAX ->
  exists c' out',
    Channelizer960.iq_received c [] in_ = Ok (c', out') /\
    Z.of_nat (length out') = k.
Proof.
  intros (Hfit960 & _) Hok Hsel Hk Hlen Hmax.
  assert (Hov : 960000 / modulation_rate m = Spec960.overall (modulation_bw m))
    by (by destruct m).
  rewrite Hov in Hlen. rewrite <- Hsel.
  destruct (setBw960_stages c (modulation_bw m)) as (ms & Hms & Hprod).
  pose proof (reachable960_wf fc c Hok) as Hwf.
  rewrite <- Hprod in Hlen.
  destruct (chain_run_Ok _ _ (DecimatorMS.stages ms) _ in_ k Hwf
              (factors960_positive _) Hk
              ltac:(apply Forall_forall; intros x _; apply Hfit960)
              Hlen Hmax) as (p' & out' & Hc & _ & Hlen').
  unfold Channelizer960.iq_received. rewrite Hms, decimate_chain.
  cbn [Channelizer960.decs Channelizer960.setBw]. rewrite Hc.
  by eexists _, _.
Qed.

(** One decimator, on [k] groups of samples. *)
Lemma decimate_count (M Tn k : Z) (d : Decimator float) (in_ : list float) :
  dec_wf M Tn d -> 0 < M <= Tn -> M <= INT_MAX -> 0 <= k ->
  Z.of_nat (length in_) = k * M -> Z.of_nat (length in_) <= INT_MAX ->
  exists d' out',
    decimate d [] in_ = Ok (d', out') /\ Z.of_nat (length out') = k.
Proof.
  intros Hwf HM HMmax Hk Hlen Hmax.
  rewrite (decimate_wf_Ok M Tn (Z.to_nat k)) by (done || nia).
  eexists _, _. split; [reflexivity|]. rewrite fir_outputs_length. lia.
Qed.

Lemma setBw_twice (c : Channelizer960.t) (bw : Bandwidth) :
  Channelizer960.setBw (Channelizer960.setBw c bw) bw
  = Channelizer960.setBw c bw.
Proof. reflexivity. Qed.

Lemma setDemodParams_twice (d : DemodulatorFm.t) (r : Z) (dev : double) :
  DemodulatorFm.setDemodParams fc (DemodulatorFm.setDemodParams fc d r dev) r dev
  = DemodulatorFm.setDemodParams fc d r dev.
Proof.
  unfold DemodulatorFm.setDemodParams.
  cbn [DemodulatorFm.iold DemodulatorFm.qold DemodulatorFm.audio_dec
       DemodulatorFm.audio_dec_wb DemodulatorFm.wb_mode].
  destruct (r =? 160000); [done|]. by destruct (r =? 192000).
Qed.

Lemma cnt_nonneg {A : Type} (table : list A) : 0 <= cnt table.
Proof. unfold cnt. lia. Qed.

(** [setModulation] on a channel that has a 960 kHz channelizer. *)
Lemma setModulation_from (m : Modulation) (ch : Channel.t)
    (c : Channelizer960.t) :
  Channel.channelizer ch = Some (Channel.Ch960 c) -> Spec960.reachable fc c ->
  Channel.sample_rate ch = 960000 ->
  Translate.samp_rate (Channel.trans ch) = 960000 ->
  translate_ready (Channel.trans ch) ->
  dec_wf 2 (cnt (coeff_dec_audio_32k_16k fc))
         (DemodulatorFm.audio_dec (Channel.fm_demod ch)) ->
  exists ch',
    Channel.setModulation fc ch m = Ok ch' /\
    channel_inv fc m ch' /\
    Channel.channelizer ch'
    = Some (Channel.Ch960 (Channelizer960.setBw c (modulation_bw m))) /\
    Channel.chSampRate ch' = Ok (modulation_rate m) /\
    Channel.demod ch' = Some (modulation_demod m) /\
    Channel.enabled ch' = Channel.enabled ch /\
    Channel.trans ch' = Channel.trans ch /\
    Channel.sample_rate ch' = Channel.sample_rate ch /\
    Channel.am_demod ch' = Channel.am_demod ch /\
    Channel.setModulation fc ch' m = Ok ch'.
Proof.
  intros Hc Hok Hrate Hsr Htr Haud.
  pose proof (channelizer960_rate fc c m Hok) as Hr.
  unfold Channel.setModulation. rewrite Hc.
  cbn [Channel.channelizer_setBw].
  destruct m; cbn [modulation_bw modulation_demod modulation_rate] in *;
    run_steps; cbn [Channel.channelizer_chSampRate]; rewrite ?Hr; run_steps.
  - (* FM *)
    eexists. split; [reflexivity|].
    cbn [Channel.channelizer Channel.demod Channel.enabled Channel.trans
         Channel.sample_rate Channel.am_demod Channel.fm_demod].
    split.
    { exists (Channelizer960.setBw c BW_20K).
      cbn [Channel.channelizer Channel.demod Channel.enabled Channel.trans
           Channel.sample_rate Channel.am_demod Channel.fm_demod
           modulation_bw modulation_demod].
      split; [done|]. split; [by apply Spec960.reachable_setBw|].
      do 5 (split; [done|]).
      split; [by apply setGain_wf|]. done. }
    split; [done|].
    split; [unfold Channel.chSampRate; cbn [Channel.channelizer
              Channel.channelizer_chSampRate]; exact Hr|].
    do 5 (split; [done|]).
    cbn [Channel.channelizer_setBw]. run_steps.
    cbn [Channel.channelizer_chSampRate]. rewrite setBw_twice, Hr. run_steps.
    by rewrite setDemodParams_twice.
  - (* WBFM *)
    eexists. split; [reflexivity|].
    cbn [Channel.channelizer Channel.demod Channel.enabled Channel.trans
         Channel.sample_rate Channel.am_demod Channel.fm_demod].
    split.
    { exists (Channelizer960.setBw c BW_WIDE).
      cbn [Channel.channelizer Channel.demod Channel.enabled Channel.trans
           Channel.sample_rate Channel.am_demod Channel.fm_demod
           modulation_bw modulation_demod].
      split; [done|]. split; [by apply Spec960.reachable_setBw|].
      do 5 (split; [done|]).
      split; [by apply setGain_wf|]. split; [done|].
      apply setDecimatorParams_wf; [apply cnt_nonneg|lia]. }
    split; [done|].
    split; [unfold Channel.chSampRate; cbn [Channel.channelizer
              Channel.channelizer_chSampRate]; exact Hr|].
    do 5 (split; [done|]).
    cbn [Channel.channelizer_setBw]. run_steps.
    cbn [Channel.channelizer_chSampRate]. rewrite setBw_twice, Hr. run_steps.
    by rewrite setDemodParams_twice.
  - (* AM *)
    eexists. split; [reflexivity|].
    cbn [Channel.channelizer Channel.demod Channel.enabled Channel.trans
         Channel.sample_rate Channel.am_demod Channel.fm_demod].
    split.
    { exists (Channelizer960.setBw c BW_10K).
      cbn [Channel.channelizer Channel.demod Channel.enabled Channel.trans
           Channel.sample_rate Channel.am_demod Channel.fm_demod
           modulation_bw modulation_demod].
      split; [done|]. split; [by apply Spec960.reachable_setBw|].
      by do 6 (split; [done|]). }
    split; [done|].
    split; [unfold Channel.chSampRate; cbn [Channel.channelizer
              Channel.channelizer_chSampRate]; exact Hr|].
    do 5 (split; [done|]).
    cbn [Channel.channelizer_setBw]. by run_steps.
Qed.

Lemma Channel_new_inv (fq_offset R : Z) (ch : Channel.t) :
  0 < R < 2 ^ 32 -> Channel.new fc fq_offset R = Ok ch ->
  Channel.sample_rate ch = R /\ Channel.channelizer ch = None /\
  Channel.enabled ch = true /\
  Translate.samp_rate (Channel.trans ch) = R /\
  translate_ready (Channel.trans ch) /\
  dec_wf 2 (cnt (coeff_dec_audio_32k_16k fc))
         (DemodulatorFm.audio_dec (Channel.fm_demod ch)).
Proof.
  intros HR Hnew. unfold Channel.new in Hnew.
  apply bind_Ok_inv in Hnew as (tr & Htr & Hnew). injection Hnew as <-.
  cbn [Channel.sample_rate Channel.channelizer Channel.enabled Channel.trans
       Channel.fm_demod].
  unfold Translate.new in Htr.
  apply bind_Ok_inv in Htr as (f & _ & Htr).
  apply setOffset_ready in Htr as [Hs Hready]; [|done].
  do 3 (split; [done|]). split; [done|]. split; [done|].
  apply setGain_wf, setDecimatorParams_wf; [apply cnt_nonneg|lia].
Qed.

Lemma Channel_initialize_inv (ch ch' : Channel.t) (msgs : list message) :
  Translate.samp_rate (Channel.trans ch) = Channel.sample_rate ch ->
  translate_ready (Channel.trans ch) ->
  dec_wf 2 (cnt (coeff_dec_audio_32k_16k fc))
         (DemodulatorFm.audio_dec (Channel.fm_demod ch)) ->
  Channel.initialize fc ch = Ok (true, ch', msgs) ->
  channel_inv fc MOD_FM ch' /\ Channel.enabled ch' = Channel.enabled ch /\
  Channel.sample_rate ch = 960000.
Proof.
  intros Hsr Htr Haud Hinit. unfold Channel.initialize in Hinit.
  destruct (Z.eqb_spec (Channel.sample_rate ch) 2400000) as [HR|_];
    [discriminate|].
  destruct (Z.eqb_spec (Channel.sample_rate ch) 960000) as [HR|_];
    [|discriminate].
  apply bind_Ok_inv in Hinit as (ch1 & Hmod & Hinit). injection Hinit as <- _.
  rewrite HR in Hsr.
  destruct (setModulation_from MOD_FM
              (Channel.with_channelizer ch
                 (Channel.Ch960 (Channelizer960.new fc)))
              (Channelizer960.new fc) eq_refl
              (Spec960.reachable_new fc) HR Hsr Htr Haud)
    as (ch2 & Hmod2 & Hinv & _ & _ & _ & Hen & _).
  rewrite Hmod2 in Hmod. injection Hmod as <-. done.
Qed.

(** The FM demodulator keeps its mode and the shape of its decimators. *)
Lemma fm_keeps (d d' : DemodulatorFm.t) (samples : list complex)
    (audio : list float) :
  DemodulatorFm.iq_received d samples = Ok (d', audio) ->
  DemodulatorFm.wb_mode d' = DemodulatorFm.wb_mode d /\
  (forall M Tn, dec_wf M Tn (DemodulatorFm.audio_dec d) ->
                dec_wf M Tn (DemodulatorFm.audio_dec d')) /\
  (forall M Tn, dec_wf M Tn (DemodulatorFm.audio_dec_wb d) ->
                dec_wf M Tn (DemodulatorFm.audio_dec_wb d')).
Proof.
  intros Hiq. rewrite iq_received_decimate_audio in Hiq.
  apply bind_Ok_inv in Hiq as ([[wb ad] da] & Hda & Hiq).
  cbn beta iota in Hiq. apply bind_Ok_inv in Hiq as (? & _ & Hiq).
  injection Hiq as <- <-.
  cbn [DemodulatorFm.wb_mode DemodulatorFm.audio_dec DemodulatorFm.audio_dec_wb].
  split; [done|]. unfold DemodulatorFm.decimate_audio in Hda.
  destruct (DemodulatorFm.wb_mode d).
  - apply bind_Ok_inv in Hda as ([wb1 a1] & Hdec1 & Hda). cbn beta iota in Hda.
    apply bind_Ok_inv in Hda as ([ad1 a2] & Hdec2 & Hda).
    injection Hda as <- <- <-.
    split; intros M Tn Hwf; by eapply decimate_wf.
  - apply bind_Ok_inv in Hda as ([ad1 a2] & Hdec & Hda).
    injection Hda as <- <- <-.
    split; intros M Tn Hwf; [by eapply decimate_wf|done].
Qed.

Lemma Channel_iq_received_inv (m : Modulation) (ch ch' : Channel.t)
    (samples : list complex) (audio : list float) :
  channel_inv fc m ch -> Channel.iq_received ch samples = Ok (ch', audio) ->
  channel_inv fc m ch' /\ Channel.enabled ch' = Channel.enabled ch.
Proof.
  intros (c & Hc & Hok & Hrate & Hsel & Hdm & Hsr & Htr & Haud & Hm) Hiq.
  unfold Channel.iq_received in Hiq.
  destruct (Channel.enabled ch) eqn:Hen.
  2:{ injection Hiq as <- <-. split; [|done]. by exists c. }
  apply bind_Ok_inv in Hiq as ([tr translated] & Htrans & Hiq).
  cbn beta iota in Hiq. rewrite Hc, Hdm in Hiq.
  cbn [Channel.channelizer_iq_received] in Hiq.
  apply bind_Ok_inv in Hiq as ([c2 channelized] & Hch & Hiq).
  cbn beta iota in Hiq.
  apply bind_Ok_inv in Hch as ([c3 o3] & Hch & Hc3). injection Hc3 as <- <-.
  apply translate_keeps_ready in Htrans as [Hsr2 Htr2]; [|done].
  apply (channelizer960_keeps c c3 (modulation_bw m)) in Hch
    as (Hok2 & Hsel2); [|done].
  destruct m; cbn [modulation_demod] in Hiq.
  - apply bind_Ok_inv in Hiq as ([fm a] & Hfm & Hiq). injection Hiq as <- <-.
    apply fm_keeps in Hfm as (Hwb & Hkeep & _).
    split; [|done]. exists c3.
    cbn [Channel.channelizer Channel.demod Channel.enabled Channel.trans
         Channel.sample_rate Channel.am_demod Channel.fm_demod].
    split; [done|]. split; [done|]. split; [done|].
    split; [by apply Hsel2|]. split; [done|]. split; [congruence|].
    split; [done|]. split; [by apply Hkeep|]. congruence.
  - apply bind_Ok_inv in Hiq as ([fm a] & Hfm & Hiq). injection Hiq as <- <-.
    apply fm_keeps in Hfm as (Hwb & Hkeep & Hkeepwb).
    split; [|done]. exists c3.
    cbn [Channel.channelizer Channel.demod Channel.enabled Channel.trans
         Channel.sample_rate Channel.am_demod Channel.fm_demod].
    split; [done|]. split; [done|]. split; [done|].
    split; [by apply Hsel2|]. split; [done|]. split; [congruence|].
    split; [done|]. split; [by apply Hkeep|].
    destruct Hm as [Hm1 Hm2]. split; [congruence|]. by apply Hkeepwb.
  - apply bind_Ok_inv in Hiq as ([am a] & Ham & Hiq). injection Hiq as <- <-.
    split; [|done]. exists c3.
    cbn [Channel.channelizer Channel.demod Channel.enabled Channel.trans
         Channel.sample_rate Channel.am_demod Channel.fm_demod].
    split; [done|]. split; [done|]. split; [done|].
    split; [by apply Hsel2|]. split; [done|]. split; [congruence|].
    by split.
Qed.

(** The invariant of the channels of a DDR. *)
Lemma channel_reachable_inv (m : Modulation) (ch : Channel.t) :
  channel_reachable fc m ch -> channel_inv fc m ch.
Proof.
  induction 1 as [off R ch0 ch msgs Hnew Hinit|m0 m ch ch' _ IH Hmod
                 |m ch ch' f _ IH Hset|m ch _ IH|m ch _ IH
                 |m ch ch' samples audio _ IH Hiq].
  - assert (HR : 0 < R < 2 ^ 32).
    { pose proof Hinit as Hrate. apply Channel_initialize_rate in Hrate.
      unfold Channel.new in Hnew.
      apply bind_Ok_inv in Hnew as (tr & _ & Hnew). injection Hnew as <-.
      cbn in Hrate. lia. }
    apply Channel_new_inv in Hnew as (Hsr & _ & _ & Hts & Htr & Haud); [|done].
    eapply Channel_initialize_inv; [| | |exact Hinit]; [congruence|done..].
  - destruct IH as (c & Hc & Hok & Hrate & _ & _ & Hsr & Htr & Haud & _).
    destruct (setModulation_from m ch c Hc Hok Hrate Hsr Htr Haud)
      as (ch2 & Hmod2 & Hinv & _).
    rewrite Hmod2 in Hmod. by injection Hmod as <-.
  - destruct IH as (c & Hc & Hok & Hrate & Hsel & Hdm & Hsr & Htr & Haud & Hm).
    unfold Channel.setFqOffset in Hset.
    apply bind_Ok_inv in Hset as (tr & Hoff & Hset). injection Hset as <-.
    apply setOffset_ready in Hoff as [Hs Hready]; [|lia].
    exists c.
    cbn [Channel.channelizer Channel.demod Channel.enabled Channel.trans
         Channel.sample_rate Channel.am_demod Channel.fm_demod].
    do 5 (split; [done|]). split; [congruence|]. by split.
  - exact IH.
  - exact IH.
  - by eapply Channel_iq_received_inv.
Qed.

(** X10.  The channel of a DDR, in any state it reaches, is that of a
    960 kHz tuner, and [setModulation] returns on it and selects the
    channelizer cascade and the demodulator of the modulation: the channel
    rate is then 32000 for FM, 192000 for WBFM and 16000 for AM, the tuner
    rate divided by the factor of the cascade.  It touches neither the
    translator nor the enable state, and setting the same modulation again
    changes nothing. *)
Theorem setModulation_rates (m0 m : Modulation) (ch : Channel.t) :
  channel_reachable fc m0 ch ->
  Channel.sample_rate ch = 960000 /\
  exists ch' c,
    Channel.setModulation fc ch m = Ok ch' /\
    Channel.channelizer ch' = Some (Channel.Ch960 c) /\
    Channelizer960.decFact c = Ok (Spec960.overall (modulation_bw m)) /\
    Channel.chSampRate ch'
    = Ok (match m with
          | MOD_FM => 32000 | MOD_WBFM => 192000 | MOD_AM => 16000
          end) /\
    Channel.demod ch'
    = Some (match m with
            | MOD_FM | MOD_WBFM => Channel.fm_demod_ref
            | MOD_AM => Channel.am_demod_ref
            end) /\
    Channel.trans ch' = Channel.trans ch /\
    Channel.enabled ch' = Channel.enabled ch /\
    Channel.setModulation fc ch' m = Ok ch'.
Proof.
  intros Hr. apply channel_reachable_inv in Hr
    as (c & Hc & Hok & Hrate & _ & _ & Hsr & Htr & Haud & _).
  split; [done|].
  destruct (setModulation_from m ch c Hc Hok Hrate Hsr Htr Haud)
    as (ch' & Hmod & _ & Hc' & Hch & Hdm & Hen & Htrans & _ & _ & Hsame).
  exists ch', (Channelizer960.setBw c (modulation_bw m)).
  split; [done|]. split; [done|].
  split.
  { by destruct (decFact960 fc c (modulation_bw m) Hok) as (? & _ & _ & ?). }
  split; [by destruct m|]. split; [by destruct m|]. by repeat split.
Qed.

(** X11.  Whatever the modulation, the channel of a DDR (a channel behind a
    960 kHz tuner) turns a batch of [k * 60] samples of the tuner, [k > 0],
    into [k] samples of audio, the rate 960000 divided by 60 being that of
    the audio, 16000: translator, channelizer and demodulator run through
    without stopping at an assertion or at an undefined operation,
    provided no coefficient table is shorter than the factor of its
    decimator.  A disabled channel puts out nothing and does not change. *)
Theorem channel_audio_count (m : Modulation) (ch : Channel.t)
    (samples : list complex) (k : Z) :
  tables_fit fc -> channel_reachable fc m ch -> 0 < k ->
  Z.of_nat (length samples) = k * 60 ->
  Z.of_nat (length samples) <= INT_MAX ->
  Channel.sample_rate ch / Ddr.audioSampleRate = 60 /\
  exists ch' audio,
    Channel.iq_received ch samples = Ok (ch', audio) /\
    Z.of_nat (length audio) = (if Channel.enabled ch then k else 0) /\
    (Channel.enabled ch = false -> ch' = ch).
Proof.
  intros Hfit Hr Hk Hlen Hmax. apply channel_reachable_inv in Hr.
  destruct Hr as (c & Hc & Hok & Hrate & Hsel & Hdm & Hsr & Htr & Haud & Hm).
  split; [by rewrite Hrate|].
  unfold Channel.iq_received.
  destruct (Channel.enabled ch) eqn:Hen; [|by exists ch, []].
  destruct (translate_run (Channel.trans ch) samples Htr)
    as (tr & translated & -> & Hlen1 & _). run_steps.
  rewrite Hc, Hdm. cbn [Channel.channelizer_iq_received].
  assert (Hq : modulation_rate m / 16000
               = match m with MOD_FM => 2 | MOD_WBFM => 12 | MOD_AM => 1 end)
    by (by destruct m).
  assert (Hfac : 60 = 960000 / modulation_rate m * (modulation_rate m / 16000))
    by (by destruct m).
  assert (Hpos : 0 < 960000 / modulation_rate m) by (by destruct m).
  rewrite Hfac in Hlen.
  set (A := 960000 / modulation_rate m) in *.
  set (q := modulation_rate m / 16000) in *.
  assert (Hq0 : 0 < q) by (rewrite Hq; destruct m; lia).
  destruct (channelizer960_run c m translated (k * q) Hfit Hok Hsel)
    as (c2 & channelized & -> & Hlen2); [nia|fold A; lia|lia|].
  run_steps.
  assert (Hch_max : Z.of_nat (length channelized) <= INT_MAX) by nia.
  destruct Hfit as (_ & Haud2 & Hwb6).
  destruct m; cbn [modulation_demod].
  - (* FM *)
    rewrite iq_received_decimate_audio. unfold DemodulatorFm.decimate_audio.
    rewrite Hm.
    destruct (decimate_count 2 _ k (DemodulatorFm.audio_dec (Channel.fm_demod ch))
                (psi_seq (DemodulatorFm.iold (Channel.fm_demod ch))
                         (DemodulatorFm.qold (Channel.fm_demod ch)) channelized)
                Haud) as (ad & a & -> & Hlen3).
    { lia. } { unfold INT_MAX; lia. } { lia. }
    { rewrite psi_seq_length. lia. }
    { by rewrite psi_seq_length. }
    run_steps. rewrite first_element_Ok by (intros ->; cbn in Hlen3; lia).
    run_steps. eexists _, _. split; [reflexivity|]. by split.
  - (* WBFM *)
    destruct Hm as [Hwb Hwbwf].
    rewrite iq_received_decimate_audio. unfold DemodulatorFm.decimate_audio.
    rewrite Hwb.
    destruct (decimate_count 6 _ (k * 2)
                (DemodulatorFm.audio_dec_wb (Channel.fm_demod ch))
                (psi_seq (DemodulatorFm.iold (Channel.fm_demod ch))
                         (DemodulatorFm.qold (Channel.fm_demod ch)) channelized)
                Hwbwf) as (wb & a1 & -> & Hlen3).
    { lia. } { unfold INT_MAX. lia. } { lia. }
    { rewrite psi_seq_length. lia. }
    { by rewrite psi_seq_length. }
    run_steps.
    destruct (decimate_count 2 _ k (DemodulatorFm.audio_dec (Channel.fm_demod ch))
                a1 Haud) as (ad & a & -> & Hlen4).
    { lia. } { unfold INT_MAX; lia. } { lia. } { lia. } { nia. }
    run_steps. rewrite first_element_Ok by (intros ->; cbn in Hlen4; lia).
    run_steps. eexists _, _. split; [reflexivity|]. by split.
  - (* AM *)
    unfold DemodulatorAm.iq_received. rewrite foldl_am_demod_sample.
    cbn [app].
    rewrite first_element_Ok
      by (destruct channelized; [cbn in Hlen2; lia|done]).
    run_steps. eexists _, _. split; [reflexivity|].
    split; [|done]. rewrite length_fmap. lia.
Qed.

End ChannelRuns.

(** ** The DDR, from construction to destruction *)

Section DdrExtras.
Context `{Arith} `{!ComplexArith} (fc : FilterCoeffs) (env : Env).

Lemma destroy_ddr_map (self : addr) (d : Ddr.t) (g : Process) :
  ddr_map (Ddr.destroy self d g) = delete (Ddr.name d) (ddr_map g).
Proof.
  unfold Ddr.destroy.
  set (g1 := match Ddr.rtl d with
             | Some r => unregisterDdr g r self
             | None => g
             end).
  assert (Hg1 : ddr_map g1 = ddr_map g) by (unfold g1; by destruct (Ddr.rtl d)).
  destruct (ddr_map g1 !! Ddr.name d) eqn:Hl.
  - cbn [ddr_map with_ddr_map]. by rewrite Hg1.
  - rewrite Hg1 in *. symmetry. by apply delete_id.
Qed.

Lemma destroy_wbrx_map (self : addr) (d : Ddr.t) (g : Process) :
  wbrx_map (Ddr.destroy self d g)
  = match Ddr.rtl d with
    | Some r =>
        alter (fun tuner => set_listeners tuner (listeners tuner ∖ {[ self ]}))
              r (wbrx_map g)
    | None => wbrx_map g
    end.
Proof.
  unfold Ddr.destroy.
  destruct (Ddr.rtl d) as [r|];
    match goal with
    | |- context [ddr_map ?g1 !! _] => by destruct (ddr_map g1 !! Ddr.name d)
    end.
Qed.

(** X12.  The destructor takes the name of its DDR out of the registry
    whichever DDR the name is mapped to.  So when a second DDR of a name is
    rejected by [initialize] as a duplicate and then destroyed, the first
    DDR, still alive, is no longer found by its name; the other names are
    not touched. *)
Theorem duplicate_destroyed_unregisters_first (self p : addr) (d : Ddr.t)
    (g : Process) :
  Ddr.find g (Ddr.name d) = Some p ->
  exists g',
    Ddr.initialize fc env self d g = Ok (false, d, g') /\
    Ddr.find g' (Ddr.name d) = Some p /\
    Ddr.find (Ddr.destroy self d g') (Ddr.name d) = None /\
    forall name' : string, name' <> Ddr.name d ->
      Ddr.find (Ddr.destroy self d g') name' = Ddr.find g name'.
Proof.
  intros Hdup. unfold Ddr.find in *. eexists.
  split; [by eapply initialize_duplicate|]. split; [done|].
  rewrite destroy_ddr_map. cbn [ddr_map print].
  split; [apply lookup_delete_eq|].
  intros name' Hne. by apply lookup_delete_ne.
Qed.

(** X13.  [initialize] of a DDR whose name is free, followed by its
    destructor, leaves the registry of names as it was before, whatever
    [initialize] returned; the DDR is then no listener of its tuner, and the
    other tuners are as [initialize] left them. *)
Theorem initialize_destroy_round_trip (self : addr) (d d' : Ddr.t)
    (g g' : Process) (ok : bool) :
  Ddr.find g (Ddr.name d) = None ->
  Ddr.initialize fc env self d g = Ok (ok, d', g') ->
  ddr_map (Ddr.destroy self d' g') = ddr_map g /\
  (forall r tuner,
     Ddr.rtl d' = Some r ->
     wbrx_map (Ddr.destroy self d' g') !! r = Some tuner ->
     self ∉ listeners tuner) /\
  (forall r, Ddr.rtl d' <> Some r ->
     wbrx_map (Ddr.destroy self d' g') !! r = wbrx_map g' !! r).
Proof.
  unfold Ddr.find. intros Hfree Hrun.
  destruct (initialize_registers fc env self d d' g g' ok Hfree Hrun)
    as [Hmap Hname].
  split; [|split].
  - rewrite destroy_ddr_map, Hmap, Hname. by apply delete_insert_id.
  - intros r tuner Hrtl Hl. rewrite destroy_wbrx_map, Hrtl in Hl.
    rewrite lookup_alter_eq in Hl.
    destruct (wbrx_map g' !! r) as [t0|]; [|discriminate].
    injection Hl as Hl. rewrite <- Hl. cbn [listeners set_listeners].
    intros Hin. apply elem_of_difference in Hin as [_ Hn]. apply Hn.
    by apply elem_of_singleton.
  - intros r Hrtl. rewrite destroy_wbrx_map.
    destruct (Ddr.rtl d') as [r0|]; [|done].
    apply lookup_alter_ne. congruence.
Qed.

Lemma registerDdr_listener (g : Process) (r : string) (self : addr)
    (tuner : WbRxRtlSdr) :
  wbrx_map (registerDdr g r self) !! r = Some tuner -> self ∈ listeners tuner.
Proof.
  unfold registerDdr. cbn [wbrx_map with_wbrx_map].
  rewrite lookup_alter_eq. destruct (wbrx_map g !! r) as [t0|]; [|discriminate].
  intros Hl. injection Hl as Hl. rewrite <- Hl. cbn [listeners set_listeners].
  apply elem_of_union. left. by apply elem_of_singleton.
Qed.

Lemma initialize_modulation_false (d0 d' : Ddr.t) (g0 g' : Process)
    (ch : Channel.t) (tuner : WbRxRtlSdr) :
  Ddr.initialize_modulation fc env d0 g0 ch tuner = Ok (false, d', g') ->
  d' = Ddr.with_channel d0 None /\ wbrx_map g' = wbrx_map g0.
Proof.
  intros Hrun. unfold Ddr.initialize_modulation in Hrun.
  run_cases Hrun; done.
Qed.

(** X14.  When [initialize] of a newly constructed DDR returns [false], the
    DDR has no channel: a retune by the tuner does nothing to it, and
    [setModulation] and [preDemodSampleRate], which use the channel without
    a check, have no defined behaviour.  If the failure came after the tuner
    was obtained, the DDR stays registered as a listener of the tuner. *)
Theorem failed_initialize_state (self : addr) (name' : string) (d' : Ddr.t)
    (g g' : Process) :
  Ddr.initialize fc env self (Ddr.new name') g = Ok (false, d', g') ->
  Ddr.name d' = name' /\ Ddr.channel d' = None /\
  (forall center_fq : Z, Ddr.tunerFqChanged d' g' center_fq = Ok (d', g')) /\
  (forall m : Modulation, Ddr.setModulation fc d' m = Abort Undefined) /\
  Ddr.preDemodSampleRate d' = Abort Undefined /\
  (forall r : string, Ddr.rtl d' = Some r ->
     exists tuner, wbrx_map g' !! r = Some tuner /\ self ∈ listeners tuner).
Proof.
  intros Hrun.
  assert (Hstate : Ddr.name d' = name' /\ Ddr.channel d' = None /\
            forall r : string, Ddr.rtl d' = Some r ->
              exists tuner, wbrx_map g' !! r = Some tuner /\
                            self ∈ listeners tuner).
  { unfold Ddr.initialize in Hrun. cbn [Ddr.name Ddr.new] in Hrun.
    destruct (ddr_map g !! name'); [by injection Hrun as <- <-|].
    destruct (getValue_double _ _ _) as [fq'|]; [|by injection Hrun as <- <-].
    cbn [Ddr.name Ddr.with_fq Ddr.new] in Hrun.
    destruct (getValue_string _ _ _) as [wbrx|]; [|by injection Hrun as <- <-].
    destruct (WbRxRtlSdr_instance _ _ wbrx) as [[r|] g1];
      [|by injection Hrun as <- <-].
    destruct (wbrx_map (registerDdr g1 r self) !! r) as [tuner|] eqn:Htuner;
      [|discriminate].
    apply registerDdr_listener in Htuner as Hin.
    apply bind_Ok_inv in Hrun as (fq_offset & _ & Hrun).
    apply bind_Ok_inv in Hrun as (ch & _ & Hrun).
    apply bind_Ok_inv in Hrun as ([[ok1 ch1] msgs] & _ & Hrun).
    cbn beta iota in Hrun. destruct ok1; cbn [negb] in Hrun.
    - apply initialize_modulation_false in Hrun as [-> Hw].
      cbn [Ddr.name Ddr.channel Ddr.rtl Ddr.with_channel Ddr.with_rtl].
      do 2 (split; [done|]). intros r0 Hr0. injection Hr0 as <-.
      exists tuner. by rewrite Hw.
    - injection Hrun as <- <-.
      cbn [Ddr.name Ddr.channel Ddr.rtl Ddr.with_channel Ddr.with_rtl].
      do 2 (split; [done|]). intros r0 Hr0. injection Hr0 as <-.
      by exists tuner. }
  destruct Hstate as (Hname & Hch & Hl).
  split; [done|]. split; [done|].
  split; [intros c; unfold Ddr.tunerFqChanged; by rewrite Hch|].
  split; [intros m; unfold Ddr.setModulation; by rewrite Hch|].
  split; [unfold Ddr.preDemodSampleRate; by rewrite Hch|]. done.
Qed.

Lemma tunerFqChanged_channel (m : Modulation) (d d' : Ddr.t) (g g' : Process)
    (center_fq : Z) (ch : Channel.t) :
  Ddr.channel d = Some ch -> channel_reachable fc m ch ->
  Ddr.tunerFqChanged d g center_fq = Ok (d', g') ->
  exists ch' r tuner,
    Ddr.channel d' = Some ch' /\ channel_reachable fc m ch' /\
    Channel.sample_rate ch' = Channel.sample_rate ch /\
    Ddr.rtl d = Some r /\ wbrx_map g !! r = Some tuner /\
    Channel.enabled ch'
    = Qle_bool (Qabs (double_sub (Ddr.fq d) (inject_Z center_fq)))
               (inject_Z (Ddr.fit_limit tuner)).
Proof.
  intros Hch Hr Hrun. unfold Ddr.tunerFqChanged in Hrun. rewrite Hch in Hrun.
  destruct (Ddr.rtl d) as [r|]; cbn [mbind option_bind] in Hrun;
    [|discriminate].
  destruct (wbrx_map g !! r) as [tuner|] eqn:Htuner; [|discriminate].
  destruct (Qle_bool _ _) eqn:Hfit; cbn [negb] in Hrun.
  - apply bind_Ok_inv in Hrun as (fq_offset & _ & Hrun).
    apply bind_Ok_inv in Hrun as (ch1 & Hset & Hrun). injection Hrun as <- <-.
    exists (Channel.enable ch1), r, tuner. split; [done|].
    split; [by eapply channel_enable, channel_setFqOffset|].
    split; [|repeat split; try done; symmetry; exact Hfit].
    unfold Channel.setFqOffset in Hset.
    apply bind_Ok_inv in Hset as (tr & _ & Hset). by injection Hset as <-.
  - destruct (Channel.isEnabled ch) eqn:Hen.
    + injection Hrun as <- <-. exists (Channel.disable ch), r, tuner.
      split; [done|]. split; [by apply channel_disable|].
      repeat split; try done; symmetry; exact Hfit.
    + injection Hrun as <- <-. exists ch, r, tuner.
      repeat split; try done. unfold Channel.isEnabled in Hen. rewrite Hen.
      symmetry; exact Hfit.
Qed.

Lemma setModulation_sample_rate (m : Modulation) (ch ch' : Channel.t) :
  Channel.setModulation fc ch m = Ok ch' ->
  Channel.sample_rate ch' = Channel.sample_rate ch.
Proof.
  intros Hset. unfold Channel.setModulation in Hset. run_cases Hset; done.
Qed.

Lemma Channel_initialize_sample_rate (ch ch' : Channel.t) (ok : bool)
    (msgs : list message) :
  Channel.initialize fc ch = Ok (ok, ch', msgs) ->
  Channel.sample_rate ch' = Channel.sample_rate ch.
Proof.
  intros Hinit. unfold Channel.initialize in Hinit.
  destruct (_ =? 2400000); [|destruct (_ =? 960000)].
  - discriminate.
  - apply bind_Ok_inv in Hinit as (ch1 & Hset & Hinit).
    injection Hinit as _ <- _. by apply setModulation_sample_rate in Hset.
  - by injection Hinit as _ <- _.
Qed.

Lemma reachable_chSampRate (m : Modulation) (ch : Channel.t) :
  channel_reachable fc m ch ->
  exists c, Channel.channelizer ch = Some (Channel.Ch960 c) /\
            Channel.sample_rate ch = 960000 /\
            Channel.chSampRate ch = Ok (modulation_rate m).
Proof.
  intros Hr. apply channel_reachable_inv in Hr
    as (c & Hc & Hok & Hrate & Hsel & _).
  exists c. split; [done|]. split; [done|].
  unfold Channel.chSampRate. rewrite Hc, <- Hsel.
  cbn [Channel.channelizer_chSampRate]. by apply (channelizer960_rate fc).
Qed.

(** X15.  When [initialize] returns [true], the DDR listens to the tuner its
    [WBRX] variable names, a tuner at the rate 960000, and has a channel
    with a 960 kHz channelizer, set to the modulation its [MODULATION]
    variable stands for ([FM] when not set); [preDemodSampleRate()] is
    32000 for FM, 192000 for WBFM and 16000 for AM.  With [new_offset] the
    [double] the code computes for [fq - center_fq], the [double] nearest to
    the difference, the channel is enabled exactly when
    [|new_offset| <= 467500], the half of the tuner rate less 12500. *)
Theorem initialize_true_channel (self : addr) (d d' : Ddr.t) (g g' : Process) :
  Ddr.initialize fc env self d g = Ok (true, d', g') ->
  exists (ch : Channel.t) (c : Channelizer960.t) (m : Modulation)
         (r : string) (tuner : WbRxRtlSdr) (new_offset : Q),
    Ddr.channel d' = Some ch /\
    getValue_string (cfg env) (Ddr.name d) "WBRX" = Some r /\
    Ddr.rtl d' = Some r /\ wbrx_map g' !! r = Some tuner /\
    self ∈ listeners tuner /\
    getValue_double (cfg env) (Ddr.name d) "FQ" = Some (Ddr.fq d') /\
    configured_modulation env (Ddr.name d) = Some m /\
    channel_reachable fc m ch /\
    sampleRate tuner = 960000 /\ Channel.sample_rate ch = 960000 /\
    Channel.channelizer ch = Some (Channel.Ch960 c) /\
    Ddr.preDemodSampleRate d'
    = Ok (match m with
          | MOD_FM => 32000 | MOD_WBFM => 192000 | MOD_AM => 16000
          end) /\
    new_offset = double_sub (Ddr.fq d') (inject_Z (centerFq tuner)) /\
    nearest_double (Ddr.fq d' - inject_Z (centerFq tuner)) new_offset /\
    Channel.enabled ch = Qle_bool (Qabs new_offset) (inject_Z 467500).
Proof.
  intros Hrun. unfold Ddr.initialize in Hrun.
  destruct (ddr_map g !! Ddr.name d); [by inversion Hrun|].
  destruct (getValue_double _ _ _) as [fq'|] eqn:Hfq; [|by inversion Hrun].
  cbn [Ddr.name Ddr.with_fq] in Hrun.
  destruct (getValue_string _ _ _) as [wbrx|] eqn:Hwbrx; [|by inversion Hrun].
  destruct (WbRxRtlSdr_instance _ _ wbrx) as [[r|] g1] eqn:Hinst;
    [|by inversion Hrun].
  assert (Hrw : r = wbrx).
  { unfold WbRxRtlSdr_instance in Hinst.
    destruct (wbrx_map _ !! wbrx); [by injection Hinst as <- _|].
    destruct (wbrx_create env wbrx); [by injection Hinst as <- _|discriminate]. }
  destruct (wbrx_map (registerDdr g1 r self) !! r) as [tuner|] eqn:Htuner;
    [|discriminate].
  apply registerDdr_listener in Htuner as Hin.
  apply bind_Ok_inv in Hrun as (fq_offset & _ & Hrun).
  apply bind_Ok_inv in Hrun as (ch0 & Hnew & Hrun).
  apply bind_Ok_inv in Hrun as ([[ok1 ch1] msgs] & Hinit & Hrun).
  cbn beta iota in Hrun. destruct ok1; cbn [negb] in Hrun;
    [|by inversion Hrun].
  pose proof (channel_initialized fc _ _ _ _ _ Hnew Hinit) as Hreach.
  set (d0 := Ddr.with_rtl (Ddr.with_fq d fq') (Some r)) in *.
  set (g0 := registerDdr g1 r self) in *.
  assert (Hmod : exists m ch2,
             configured_modulation env (Ddr.name d) = Some m /\
             Channel.setModulation fc ch1 m = Ok ch2 /\
             Ddr.tunerFqChanged (Ddr.with_channel d0 (Some ch2)) g0
                                (centerFq tuner) = Ok (d', g')).
  { unfold Ddr.initialize_modulation in Hrun. unfold configured_modulation.
    cbn [Ddr.name Ddr.with_rtl Ddr.with_fq d0] in Hrun. cbn zeta in Hrun.
    destruct (String.eqb _ "FM");
      [|destruct (String.eqb _ "WBFM");
        [|destruct (String.eqb _ "AM"); [|by inversion Hrun]]].
    all: apply bind_Ok_inv in Hrun as (ch2 & Hset & Hrun).
    all: destruct (negb _); [by inversion Hrun|].
    all: apply bind_Ok_inv in Hrun as ([d2 g2] & Ht & Hrun).
    all: injection Hrun as <- <-.
    all: by eexists _, ch2. }
  destruct Hmod as (m & ch2 & Hconf & Hset & Ht).
  pose proof (channel_setModulation fc _ m _ _ Hreach Hset) as Hreach2.
  pose proof Ht as Hkeep. apply tunerFqChanged_keeps in Hkeep as (Hw & Hrtl & _).
  destruct (tunerFqChanged_channel m (Ddr.with_channel d0 (Some ch2)) d' g0 g'
              (centerFq tuner) ch2 eq_refl Hreach2 Ht)
    as (ch3 & r3 & tuner3 & Hch3 & Hreach3 & Hrate3 & Hr3 & Ht3 & Hen3).
  cbn [Ddr.rtl Ddr.with_channel Ddr.with_rtl d0] in Hr3, Hrtl.
  injection Hr3 as <-. rewrite Htuner in Ht3. injection Ht3 as <-.
  destruct (reachable_chSampRate m ch3 Hreach3) as (c & Hc & Htr & Hcs).
  assert (Hfq' : Ddr.fq d' = fq').
  { unfold Ddr.tunerFqChanged in Ht. run_cases Ht; done. }
  assert (Hrate : Channel.sample_rate ch3 = sampleRate tuner).
  { rewrite Hrate3. apply setModulation_sample_rate in Hset as ->.
    apply Channel_initialize_sample_rate in Hinit as ->.
    by apply Channel_new_sample_rate in Hnew. }
  assert (Hlimit : Ddr.fit_limit tuner = 467500).
  { unfold Ddr.fit_limit. by rewrite <- Hrate, Htr. }
  exists ch3, c, m, r, tuner,
    (double_sub (Ddr.fq d') (inject_Z (centerFq tuner))).
  split; [done|]. split; [by rewrite Hrw|]. split; [done|].
  split; [by rewrite Hw|]. split; [done|]. split; [by rewrite Hfq'|].
  split; [done|]. split; [done|]. split; [congruence|]. split; [done|].
  split; [done|].
  split; [unfold Ddr.preDemodSampleRate; rewrite Hch3, Hcs; by destruct m|].
  split; [done|]. split; [apply round64_nearest|].
  by rewrite Hfq', <- Hlimit.
Qed.

(** X17.  The two ways [initialize] fails between the lookup of the tuner
    and the modulation.  When [WbRxRtlSdr::instance] returns no tuner,
    [initialize] reports it and returns [false]; the DDR has no tuner.  When
    the tuner, one that was there or one [WbRxRtlSdr::instance] has just
    created, runs at a rate other than 960000 and 2400000, the channel
    reports the rate, [initialize] reports that the channel could not be
    initialized and returns [false]; the channel is deleted, and the DDR
    remains a listener of the tuner.  In both cases the name stays in the
    registry. *)
Theorem initialize_no_channel (self : addr) (d : Ddr.t) (g : Process)
    (fq' : Q) (wbrx : string) :
  Ddr.find g (Ddr.name d) = None ->
  getValue_double (cfg env) (Ddr.name d) "FQ" = Some fq' ->
  getValue_string (cfg env) (Ddr.name d) "WBRX" = Some wbrx ->
  let registered := with_ddr_map g (<[Ddr.name d := self]> (ddr_map g)) in
  (wbrx_map g !! wbrx = None -> wbrx_create env wbrx = None ->
     Ddr.initialize fc env self d g
     = Ok (false, Ddr.with_rtl (Ddr.with_fq d fq') None,
           print registered [ErrNoWbrx wbrx (Ddr.name d)])) /\
  (forall (tuner : WbRxRtlSdr) (fq_offset : Z) (ch : Channel.t),
     wbrx_map g !! wbrx = Some tuner \/
     (wbrx_map g !! wbrx = None /\ wbrx_create env wbrx = Some tuner) ->
     sampleRate tuner <> 960000 -> sampleRate tuner <> 2400000 ->
     double_to_int (double_sub fq' (inject_Z (centerFq tuner))) = Ok fq_offset ->
     Channel.new fc fq_offset (sampleRate tuner) = Ok ch ->
     exists g',
       Ddr.initialize fc env self d g
       = Ok (false,
             Ddr.with_channel (Ddr.with_rtl (Ddr.with_fq d fq') (Some wbrx))
                              None, g') /\
       console g'
       = console g ++ [ErrUnsupportedRate (sampleRate tuner);
                       ErrChannelInit (Ddr.name d)] /\
       Ddr.find g' (Ddr.name d) = Some self /\
       wbrx_map g' !! wbrx
       = Some (set_listeners tuner ({[ self ]} ∪ listeners tuner))).
Proof.
  intros Hfree Hfq Hwbrx registered. unfold Ddr.find in *. split.
  - intros Hnone Hcreate. unfold Ddr.initialize.
    rewrite Hfree, Hfq. cbn [Ddr.name Ddr.with_fq]. rewrite Hwbrx.
    unfold WbRxRtlSdr_instance. cbn [wbrx_map with_ddr_map].
    by rewrite Hnone, Hcreate.
  - intros tuner fq_offset ch Htuner H960 H2400 Hoff Hnew.
    pose proof (Channel_new_sample_rate fc _ _ _ Hnew) as Hrate.
    unfold Ddr.initialize.
    rewrite Hfree, Hfq. cbn [Ddr.name Ddr.with_fq]. rewrite Hwbrx.
    unfold WbRxRtlSdr_instance. cbn [wbrx_map with_ddr_map].
    destruct Htuner as [Htuner|[Hnone Hcreate]].
    + rewrite Htuner.
      unfold registerDdr at 1. cbn [wbrx_map with_wbrx_map with_ddr_map].
      rewrite lookup_alter_eq, Htuner. cbn [fmap option_fmap option_map].
      cbn [Ddr.fq Ddr.with_rtl Ddr.with_fq centerFq sampleRate set_listeners].
      rewrite Hoff. run_steps. rewrite Hnew. run_steps.
      unfold Channel.initialize. rewrite Hrate.
      destruct (Z.eqb_spec (sampleRate tuner) 2400000); [done|].
      destruct (Z.eqb_spec (sampleRate tuner) 960000); [done|].
      run_steps. cbn [negb]. eexists. split; [reflexivity|].
      cbn [console print registerDdr with_wbrx_map with_ddr_map ddr_map
           wbrx_map].
      split; [done|]. split; [apply lookup_insert_eq|].
      by rewrite lookup_alter_eq, Htuner.
    + rewrite Hnone, Hcreate.
      unfold registerDdr at 1. cbn [wbrx_map with_wbrx_map with_ddr_map].
      rewrite lookup_alter_eq, lookup_insert_eq.
      cbn [fmap option_fmap option_map].
      cbn [Ddr.fq Ddr.with_rtl Ddr.with_fq centerFq sampleRate set_listeners].
      rewrite Hoff. run_steps. rewrite Hnew. run_steps.
      unfold Channel.initialize. rewrite Hrate.
      destruct (Z.eqb_spec (sampleRate tuner) 2400000); [done|].
      destruct (Z.eqb_spec (sampleRate tuner) 960000); [done|].
      run_steps. cbn [negb]. eexists. split; [reflexivity|].
      cbn [console print registerDdr with_wbrx_map with_ddr_map ddr_map
           wbrx_map].
      split; [done|]. split; [apply lookup_insert_eq|].
      by rewrite lookup_alter_eq, lookup_insert_eq.
Qed.

End DdrExtras.

(** ** The FM demodulator *)

Section DemodExtras.
Context `{Arith} `{!ComplexArith} (fc : FilterCoeffs).

Lemma decimate_default {T : Type} `{!Sample T} (out in_ : list T) :
  decimate Decimator_default out in_ = Abort Undefined.
Proof. reflexivity. Qed.

(** X16.  The wideband stage of the FM demodulator exists for the rates
    160000 and 192000 only.  A demodulator whose wideband stage was never
    set up and that is given another rate above 32000, at construction or
    by [setDemodParams], is in wideband mode with a decimator of factor 0:
    [iq_received] then has no defined behaviour, for every batch. *)
Theorem fm_wideband_rate_unsupported (d : DemodulatorFm.t) (r : Z)
    (max_dev : double) (samples : list complex) :
  32000 < r -> r <> 160000 -> r <> 192000 ->
  (DemodulatorFm.audio_dec_wb d = Decimator_default ->
   DemodulatorFm.wb_mode (DemodulatorFm.setDemodParams fc d r max_dev) = true /\
   dec_fact (DemodulatorFm.audio_dec_wb
               (DemodulatorFm.setDemodParams fc d r max_dev)) = 0 /\
   DemodulatorFm.iq_received (DemodulatorFm.setDemodParams fc d r max_dev)
                             samples
   = Abort Undefined) /\
  DemodulatorFm.iq_received (DemodulatorFm.new fc r max_dev) samples
  = Abort Undefined.
Proof.
  intros Hwide H160 H192.
  assert (Hgen : forall d0 : DemodulatorFm.t,
             DemodulatorFm.audio_dec_wb d0 = Decimator_default ->
             DemodulatorFm.wb_mode (DemodulatorFm.setDemodParams fc d0 r max_dev)
             = true /\
             DemodulatorFm.audio_dec_wb
               (DemodulatorFm.setDemodParams fc d0 r max_dev)
             = Decimator_default).
  { intros d0 Hd0. unfold DemodulatorFm.setDemodParams.
    cbn [DemodulatorFm.wb_mode DemodulatorFm.audio_dec_wb].
    split; [by apply Z.ltb_lt|].
    destruct (Z.eqb_spec r 160000); [done|].
    by destruct (Z.eqb_spec r 192000). }
  assert (Hrun : forall d0 : DemodulatorFm.t,
             DemodulatorFm.wb_mode d0 = true ->
             DemodulatorFm.audio_dec_wb d0 = Decimator_default ->
             DemodulatorFm.iq_received d0 samples = Abort Undefined).
  { intros d0 Hwb Hdec. rewrite iq_received_decimate_audio.
    unfold DemodulatorFm.decimate_audio. rewrite Hwb, Hdec.
    by rewrite decimate_default. }
  split.
  - intros Hd. destruct (Hgen d Hd) as [Hwb Hdec].
    split; [done|]. split; [by rewrite Hdec|]. by apply Hrun.
  - unfold DemodulatorFm.new. by apply Hrun; apply Hgen.
Qed.

End DemodExtras.

(** ** Runs on concrete inputs *)

Section ConcreteExtras.
  #[local] Existing Instance ExactInt.arith.
  #[local] Existing Instance ExactInt.complex_arith.
  Import ExactInt ExactRuns.

Lemma dec3_constructed : constructed 2 3 dec3.
Proof. apply constructed_new; [lia | unfold cnt; simpl; lia]. Qed.

Lemma tables6_fit : tables_fit (tables 6).
Proof.
  split; [|split].
  - intros m. destruct m; unfold cnt; cbn; lia.
  - unfold cnt; cbn; lia.
  - unfold cnt; cbn; lia.
Qed.

Lemma channel6_reachable : channel_reachable (tables 6) MOD_FM channel6.
Proof.
  eapply (channel_initialized (tables 6) 0 960000); reflexivity.
Qed.

Lemma gcd_any_order_witness :
  exists g,
    Translate.gcd 12 8 = Ok g /\ Translate.gcd 8 12 = Ok g /\
    Z.divide g 12 /\ Z.divide g 8.
Proof.
  destruct (proj2 (gcd_any_order 12 8 ltac:(lia) ltac:(lia)) ltac:(lia))
    as (g & Hg & _ & H12 & H8 & _ & Hsym).
  exists g. split; [exact Hg|]. split; [apply Hsym; lia|].
  split; [exact H12|exact H8].
Defined.

Lemma lut_covers_whole_turns_witness :
  exists tr',
    Translate.setOffset (Translate.mk 8 [] 0) 2 = Ok tr' /\
    0 < Z.of_nat (length (Translate.exp_lut tr')) /\
    Z.divide 8 (2 * Z.of_nat (length (Translate.exp_lut tr'))).
Proof.
  assert (H2 : INT_MIN < 2 <= INT_MAX) by (unfold INT_MIN, INT_MAX; lia).
  pose proof (setOffset_nonzero (Translate.mk 8 [] 0) 2 ltac:(lia) H2) as Hset.
  eexists. split; [exact Hset|].
  destruct (lut_covers_whole_turns (Translate.mk 8 [] 0) _ 2
              ltac:(cbn; lia) ltac:(lia) H2 Hset) as (Hpos & Hdiv & _).
  split; [exact Hpos|exact Hdiv].
Defined.

Lemma decimate_outcomes_witness :
  decimate dec3 [] [1; 2; 3] = Abort AssertBatchLen /\
  decimate Decimator_default [] [1; 2; 3] = Abort Undefined.
Proof.
  assert (Hmax : Z.of_nat (length [1; 2; 3]) <= INT_MAX)
    by (unfold INT_MAX; cbn; lia).
  split.
  - apply (proj2 (decimate_outcomes dec3 [] [1; 2; 3] Hmax)).
    + unfold INT_MAX; cbn; lia.
    + intros Hmod. discriminate Hmod.
  - apply (proj1 (decimate_outcomes Decimator_default [] [1; 2; 3] Hmax)).
    reflexivity.
Defined.

Lemma decimate_convolution_witness :
  exists d' out',
    decimate dec3 [] [1; 2; 3; 4] = Ok (d', out') /\
    out' !! 1%nat = Some (fir (coeff dec3) [4; 3; 2]) /\
    p_Z d' = [4; 3; 2].
Proof.
  destruct (decimate_convolution 2 3 2 dec3 [] [1; 2; 3; 4] dec3_constructed
              ltac:(lia) ltac:(lia) ltac:(reflexivity)
              ltac:(unfold INT_MAX; cbn; lia))
    as (d' & out' & Hrun & Hout & Hz).
  exists d', out'. split; [exact Hrun|].
  split; [exact (Hout 1%nat ltac:(lia))|exact Hz].
Defined.

Lemma decimate_batches_compose_witness :
  decimate dec3 [] ([1; 2] ++ [3; 4])
  = decimate dec3 [] [1; 2]
    ≫= (fun '(d1, out1) =>
          decimate d1 [] [3; 4] ≫= (fun '(d2, out2) => Ok (d2, out1 ++ out2))).
Proof.
  apply (decimate_batches_compose 2 3 1 1 dec3 [] [1; 2] [3; 4]
           dec3_constructed).
  - lia.
  - unfold INT_MAX; lia.
  - reflexivity.
  - reflexivity.
  - unfold INT_MAX; cbn; lia.
Defined.

Lemma setGain_relative_to_design_witness :
  setGain (setGain dec3 40) 20 = setGain dec3 20 /\
  exists d1 out1 d2 out2,
    decimate dec3 [] [1; 2] = Ok (d1, out1) /\
    decimate (setGain dec3 20) [] [1; 2] = Ok (d2, out2) /\
    d2 = setGain d1 20 /\ p_Z d2 = p_Z d1.
Proof.
  destruct (setGain_relative_to_design 2 3 1 dec3 [] [1; 2] 20 40
              dec3_constructed ltac:(lia) ltac:(lia) ltac:(reflexivity)
              ltac:(unfold INT_MAX; cbn; lia))
    as (Hsame & d1 & out1 & d2 & out2 & H1 & H2 & Hd & Hz & _).
  split; [exact Hsame|]. exists d1, out1, d2, out2.
  split; [exact H1|]. split; [exact H2|]. split; [exact Hd|exact Hz].
Defined.

Lemma cascade_touches_own_delay_lines_witness :
  exists p' out',
    DecimatorMS.decimate
      (DecimatorMS.DecimatorMS1 Channelizer960.dec_960k_192k)
      (Channelizer960.members (tables 5)) [] (carrier 5)
    = Ok (p', out') /\
    p' Channelizer960.dec_192k_64k
    = Channelizer960.members (tables 5) Channelizer960.dec_192k_64k /\
    dec_fact (p' Channelizer960.dec_960k_192k) = 5.
Proof.
  eexists _, _. split; [reflexivity|].
  destruct (cascade_touches_own_delay_lines
              (DecimatorMS.DecimatorMS1 Channelizer960.dec_960k_192k)
              (Channelizer960.members (tables 5)) _ [] (carrier 5) _ eq_refl)
    as (Hout & Hpar & _).
  split.
  - apply Hout. cbn [DecimatorMS.stages]. intros Hin.
    apply list_elem_of_singleton in Hin. discriminate Hin.
  - exact (proj1 (Hpar Channelizer960.dec_960k_192k)).
Defined.

Lemma Channel_initialize_outcome_witness :
  (exists ch' c,
     Channel.initialize (tables 5) channel1 = Ok (true, ch', []) /\
     Channel.channelizer ch' = Some (Channel.Ch960 c) /\
     Channel.chSampRate ch' = Ok 32000) /\
  Channel.initialize (tables 6) channel2400 = Abort Undefined.
Proof.
  split.
  - destruct (proj1 (proj2 (Channel_initialize_outcome (tables 5) channel1))
                    eq_refl)
      as (ch' & c & Hinit & Hc & _ & _ & Hcs & _).
    exists ch', c. split; [exact Hinit|]. split; [exact Hc|exact Hcs].
  - exact (proj2 (proj2 (proj2 (Channel_initialize_outcome (tables 6)
                                  channel2400)) eq_refl)).
Defined.

Lemma setModulation_rates_witness :
  exists ch',
    Channel.setModulation (tables 6) channel6 MOD_WBFM = Ok ch' /\
    Channel.chSampRate ch' = Ok 192000 /\
    Channel.setModulation (tables 6) ch' MOD_WBFM = Ok ch'.
Proof.
  destruct (setModulation_rates (tables 6) MOD_FM MOD_WBFM channel6
              channel6_reachable)
    as (_ & ch' & c & Hset & _ & _ & Hcs & _ & _ & _ & Hsame).
  exists ch'. split; [exact Hset|]. split; [exact Hcs|exact Hsame].
Defined.

Lemma channel_audio_count_witness :
  exists ch' audio,
    Channel.iq_received channel6 (carrier 120) = Ok (ch', audio) /\
    Z.of_nat (length audio) = 2.
Proof.
  destruct (channel_audio_count (tables 6) MOD_FM channel6 (carrier 120) 2
              tables6_fit channel6_reachable ltac:(lia) ltac:(reflexivity)
              ltac:(unfold INT_MAX; cbn; lia))
    as (_ & ch' & audio & Hrun & Hlen & _).
  exists ch', audio. split; [exact Hrun|exact Hlen].
Defined.

Lemma duplicate_destroyed_unregisters_first_witness :
  exists g',
    Ddr.initialize (tables 5) (environment None None) 2%positive
                   (Ddr.new "RX1") running
    = Ok (false, Ddr.new "RX1", g') /\
    Ddr.find g' "RX1" = Some 1%positive /\
    Ddr.find (Ddr.destroy 2%positive (Ddr.new "RX1") g') "RX1" = None.
Proof.
  destruct (duplicate_destroyed_unregisters_first (tables 5)
              (environment None None) 2%positive 1%positive (Ddr.new "RX1")
              running eq_refl)
    as (g' & Hrun & Hfind & Hgone & _).
  exists g'. split; [exact Hrun|]. split; [exact Hfind|exact Hgone].
Defined.

Lemma initialize_destroy_round_trip_witness :
  ddr_map (Ddr.destroy 1%positive (rx1 (200000001 # 2)%Q) running)
  = ddr_map fresh.
Proof.
  apply (initialize_destroy_round_trip (tables 5)
           (environment (Some (200000001 # 2)%Q) None) 1%positive
           (Ddr.new "RX1") (rx1 (200000001 # 2)%Q) fresh running true).
  - reflexivity.
  - reflexivity.
Defined.

Lemma failed_initialize_state_witness :
  Ddr.channel (Ddr.new "RX1") = None /\
  Ddr.setModulation (tables 5) (Ddr.new "RX1") MOD_AM = Abort Undefined.
Proof.
  destruct (failed_initialize_state (tables 5) (environment None None)
              1%positive "RX1" (Ddr.new "RX1") fresh
              (print (with_ddr_map fresh
                        (<["RX1"%string := 1%positive]> (ddr_map fresh)))
                     [ErrFqNotSet "RX1"])
              eq_refl)
    as (_ & Hch & _ & Hmod & _).
  split; [exact Hch|exact (Hmod MOD_AM)].
Defined.

Lemma initialize_true_channel_witness :
  exists ch m,
    Ddr.channel (rx1 (200000001 # 2)%Q) = Some ch /\
    configured_modulation (environment (Some (200000001 # 2)%Q) None) "RX1"
    = Some m /\
    channel_reachable (tables 5) m ch /\
    Ddr.preDemodSampleRate (rx1 (200000001 # 2)%Q)
    = Ok (match m with
          | MOD_FM => 32000 | MOD_WBFM => 192000 | MOD_AM => 16000
          end).
Proof.
  destruct (initialize_true_channel (tables 5)
              (environment (Some (200000001 # 2)%Q) None) 1%positive
              (Ddr.new "RX1") (rx1 (200000001 # 2)%Q) fresh running eq_refl)
    as (ch & c & m & r & tuner & new_offset & Hch & _ & _ & _ & _ & _ & Hm
        & Hreach & _ & _ & _ & Hrate & _).
  exists ch, m. split; [exact Hch|]. split; [exact Hm|].
  split; [exact Hreach|exact Hrate].
Defined.

Lemma fm_wideband_rate_unsupported_witness :
  DemodulatorFm.iq_received (DemodulatorFm.new (tables 5) 64000 75000)
                            (carrier 4)
  = Abort Undefined.
Proof.
  apply (proj2 (fm_wideband_rate_unsupported (tables 5)
                  (DemodulatorFm.new (tables 5) 32000 5000) 64000 75000
                  (carrier 4) ltac:(lia) ltac:(lia) ltac:(lia))).
Defined.

Lemma initialize_no_channel_witness :
  (exists d' g',
     Ddr.initialize (tables 5) (environment (Some (100000000 # 1)%Q) None)
                    1%positive (Ddr.new "RX1") slow_process
     = Ok (false, d', g') /\
     console g' = [ErrUnsupportedRate 1000000; ErrChannelInit "RX1"] /\
     Ddr.find g' "RX1" = Some 1%positive) /\
  (exists d' g',
     Ddr.initialize (tables 5) (slow_environment (Some (100000000 # 1)%Q))
                    1%positive (Ddr.new "RX1") fresh
     = Ok (false, d', g') /\
     console g' = [ErrUnsupportedRate 1000000; ErrChannelInit "RX1"] /\
     wbrx_map g' !! "WBRX1"%string
     = Some (set_listeners slow_tuner ({[ 1%positive ]} ∪ ∅))).
Proof.
  set (ch := {| Channel.sample_rate := 1000000;
                Channel.channelizer := None;
                Channel.fm_demod := DemodulatorFm.new (tables 5) 32000 5000;
                Channel.am_demod := DemodulatorAm.new (tables 5);
                Channel.demod := None;
                Channel.trans := Translate.mk 1000000 [] 0;
                Channel.enabled := true |}).
  split.
  - destruct (proj2 (initialize_no_channel (tables 5)
                       (environment (Some (100000000 # 1)%Q) None) 1%positive
                       (Ddr.new "RX1") slow_process (100000000 # 1)%Q "WBRX1"
                       eq_refl eq_refl eq_refl)
                    slow_tuner 0 ch
                    (or_introl eq_refl) ltac:(cbn; lia) ltac:(cbn; lia)
                    eq_refl eq_refl)
      as (g' & Hrun & Hcons & Hfind & _).
    eexists _, g'. split; [exact Hrun|]. split; [exact Hcons|exact Hfind].
  - destruct (proj2 (initialize_no_channel (tables 5)
                       (slow_environment (Some (100000000 # 1)%Q)) 1%positive
                       (Ddr.new "RX1") fresh (100000000 # 1)%Q "WBRX1"
                       eq_refl eq_refl eq_refl)
                    slow_tuner 0 ch
                    (or_intror (conj eq_refl eq_refl)) ltac:(cbn; lia)
                    ltac:(cbn; lia) eq_refl eq_refl)
      as (g' & Hrun & Hcons & _ & Hmap).
    eexists _, g'. split; [exact Hrun|]. split; [exact Hcons|exact Hmap].
Defined.

End ConcreteExtras.
